(** * D2D-NDT 2D scan registration: a shallow embedding and its properties

    Embedded sources:
    - [graph_slam_uk/registration/d2d_ndt2d.h]: the class
      [D2DNormalDistributionsTransform2D] with its helper structs
      [ScoreAndDerivatives], [FittingParams], [JacobianHessianDerivatives];
    - [graph_slam_uk/registration/d2d_ndt2d_robust.h]: the class
      [D2DNormalDistributionsTransform2DRobust].

    The numeric code is written once over a scalar interface ([Scalar],
    [Libm], [EigenOps]) and read at two instances:
    - [IEEE]: C++ [double] as IEEE-754 binary64 (the primitive floats), with
      NaN, infinities, signed zeros and rounding; C++ [float] values are the
      binary64 values in the image of [snarrow];
    - [Exact]: exact real arithmetic, where the algebraic identities that
      the design rests on hold without rounding.

    Virtual member functions are taken as parameters by their callers (open
    recursion) and tied to the class's own implementations at the end. *)

From Stdlib Require Import ZArith List Bool Lia Floats Reals Lra.
From Stdlib Require Import Permutation Sorted.
Import ListNotations.

Set Warnings "-inexact-float".

(* ================================================================== *)
(** * Scalars *)
(* ================================================================== *)

(** Arithmetic and comparisons of the floating-point type.  [sofZ] is the
    conversion of an integer (an [int] literal, a [size_t]); [snarrow] is
    [static_cast<float>] followed by the exact embedding into [double]. *)
Class Scalar (T : Type) : Type := {
  sofZ : Z -> T;
  sadd : T -> T -> T;
  ssub : T -> T -> T;
  smul : T -> T -> T;
  sdiv : T -> T -> T;
  sopp : T -> T;
  sabs : T -> T;
  ssqrt : T -> T;
  seqb : T -> T -> bool;
  sltb : T -> T -> bool;
  sleb : T -> T -> bool;
  snarrow : T -> T
}.

(** The C math library: the [double] functions and the [float] ones that the
    [float] instantiations of the templates call. *)
Class Libm (T : Type) : Type := {
  c_exp : T -> T;
  c_log : T -> T;
  c_pow : T -> T -> T;
  c_sin : T -> T;
  c_cos : T -> T;
  c_atan2 : T -> T -> T;
  c_sinf : T -> T;
  c_cosf : T -> T;
  c_atan2f : T -> T -> T
}.

Declare Scope scalar_scope.
Delimit Scope scalar_scope with S.
Notation "x + y" := (sadd x y) : scalar_scope.
Notation "x - y" := (ssub x y) : scalar_scope.
Notation "x * y" := (smul x y) : scalar_scope.
Notation "x / y" := (sdiv x y) : scalar_scope.
Notation "- x" := (sopp x) : scalar_scope.
Notation "x =? y" := (seqb x y) : scalar_scope.
Notation "x !=? y" := (negb (seqb x y)) (at level 70) : scalar_scope.
Notation "x <? y" := (sltb x y) : scalar_scope.
Notation "x <=? y" := (sleb x y) : scalar_scope.
Notation "x >? y" := (sltb y x) : scalar_scope.
Notation "x >=? y" := (sleb y x) : scalar_scope.
Notation "# z" := (sofZ z%Z) (at level 1, z at level 0, format "# z") : scalar_scope.

(** A decimal literal [n/d] with [d] a power of ten: the correctly rounded
    quotient of two exactly represented integers is the nearest scalar to the
    decimal, which is how the compiler reads the literal. *)
Definition lit {T} `{Scalar T} (n d : Z) : T := (#n / #d)%S.

(** [std::min], [std::max]: [(b < a) ? b : a] and [(a < b) ? b : a]. *)
Definition std_min {T} `{Scalar T} (a b : T) : T := if (b <? a)%S then b else a.
Definition std_max {T} `{Scalar T} (a b : T) : T := if (a <? b)%S then b else a.

(** ** IEEE-754 binary64 *)

Module IEEE.

(** Conversion of an integer, rounded to nearest even. *)
Definition of_Z (z : Z) : float := SF2Prim (binary_normalize prec emax z 0 false).

(** [static_cast<float>]: rounding to binary32 (24 bits, emax 128). *)
Definition to_binary32 (x : float) : float :=
  match Prim2SF x with
  | S754_finite s m e =>
      SF2Prim (binary_normalize 24 128 (cond_Zopp s (Zpos m)) e s)
  | _ => x
  end.

#[export] Instance scalar : Scalar float := {
  sofZ := of_Z;
  sadd := PrimFloat.add;
  ssub := PrimFloat.sub;
  smul := PrimFloat.mul;
  sdiv := PrimFloat.div;
  sopp := PrimFloat.opp;
  sabs := PrimFloat.abs;
  ssqrt := PrimFloat.sqrt;
  seqb := PrimFloat.eqb;
  sltb := PrimFloat.ltb;
  sleb := PrimFloat.leb;
  snarrow := to_binary32
}.

End IEEE.

(** ** Exact real arithmetic *)

Module Exact.

(** [atan2] on the reals, by the quadrant of [(x, y)]. *)
Definition atan2 (y x : R) : R :=
  if Rlt_dec 0 x then atan (y / x)
  else if Rlt_dec x 0 then
         (if Rle_dec 0 y then atan (y / x) + PI else atan (y / x) - PI)
  else if Rlt_dec 0 y then PI / 2
  else if Rlt_dec y 0 then - (PI / 2)
  else 0.

#[export] Instance scalar : Scalar R := {
  sofZ := IZR;
  sadd := Rplus;
  ssub := Rminus;
  smul := Rmult;
  sdiv := Rdiv;
  sopp := Ropp;
  sabs := Rabs;
  ssqrt := sqrt;
  seqb := fun x y => if Req_dec_T x y then true else false;
  sltb := fun x y => if Rlt_dec x y then true else false;
  sleb := fun x y => if Rle_dec x y then true else false;
  snarrow := fun x => x
}.

#[export] Instance libm : Libm R := {
  c_exp := exp;
  c_log := ln;
  c_pow := Rpower;
  c_sin := sin;
  c_cos := cos;
  c_atan2 := atan2;
  c_sinf := sin;
  c_cosf := cos;
  c_atan2f := atan2
}.

End Exact.

(* ================================================================== *)
(** * Fixed-size vectors and matrices (Eigen) *)
(* ================================================================== *)

(** [Eigen::Matrix<T,3,1>]; a [Matrix<T,3,3>] is the triple of its rows. *)
Record V3 (A : Type) : Type := mkV3 { c0 : A; c1 : A; c2 : A }.
Arguments mkV3 {A} _ _ _.
Arguments c0 {A} _.
Arguments c1 {A} _.
Arguments c2 {A} _.

Definition Mat3 (T : Type) : Type := V3 (V3 T).

(** [Eigen::Matrix<T,4,4>] by rows. *)
Record V4 (A : Type) : Type := mkV4 { d0 : A; d1 : A; d2 : A; d3 : A }.
Arguments mkV4 {A} _ _ _ _.
Arguments d0 {A} _.
Arguments d1 {A} _.
Arguments d2 {A} _.
Arguments d3 {A} _.

Definition Mat4 (T : Type) : Type := V4 (V4 T).

Definition v3map {A B} (f : A -> B) (v : V3 A) : V3 B :=
  mkV3 (f (c0 v)) (f (c1 v)) (f (c2 v)).

Definition v3zip {A B C} (f : A -> B -> C) (a : V3 A) (b : V3 B) : V3 C :=
  mkV3 (f (c0 a) (c0 b)) (f (c1 a) (c1 b)) (f (c2 a) (c2 b)).

(** Coefficient [v(i)], for [i < 3]. *)
Definition v3get {A} (i : nat) (v : V3 A) : A :=
  match i with 0 => c0 v | 1 => c1 v | _ => c2 v end.

Definition v3set {A} (i : nat) (a : A) (v : V3 A) : V3 A :=
  match i with
  | 0 => mkV3 a (c1 v) (c2 v)
  | 1 => mkV3 (c0 v) a (c2 v)
  | _ => mkV3 (c0 v) (c1 v) a
  end.

(** Coefficient [M(i,j)] and column [M.col(j)]. *)
Definition m3get {A} (i j : nat) (M : V3 (V3 A)) : A := v3get j (v3get i M).
Definition m3col {A} (j : nat) (M : V3 (V3 A)) : V3 A := v3map (v3get j) M.
Definition m3set_col {A} (j : nat) (c : V3 A) (M : V3 (V3 A)) : V3 (V3 A) :=
  v3zip (v3set j) c M.
Definition m3trans {A} (M : V3 (V3 A)) : V3 (V3 A) :=
  mkV3 (m3col 0 M) (m3col 1 M) (m3col 2 M).

Section LinearAlgebra.
Context {T : Type} `{Scalar T}.
Local Open Scope scalar_scope.

Definition v3zero : V3 T := mkV3 #0 #0 #0.
Definition m3zero : Mat3 T := mkV3 v3zero v3zero v3zero.
Definition m3identity : Mat3 T :=
  mkV3 (mkV3 #1 #0 #0) (mkV3 #0 #1 #0) (mkV3 #0 #0 #1).
Definition m4identity : Mat4 T :=
  mkV4 (mkV4 #1 #0 #0 #0) (mkV4 #0 #1 #0 #0)
       (mkV4 #0 #0 #1 #0) (mkV4 #0 #0 #0 #1).

Definition v3add (a b : V3 T) : V3 T := v3zip sadd a b.
Definition v3sub (a b : V3 T) : V3 T := v3zip ssub a b.
Definition v3scale (s : T) (a : V3 T) : V3 T := v3map (fun x => s * x) a.
Definition v3scale_r (a : V3 T) (s : T) : V3 T := v3map (fun x => x * s) a.
Definition v3div (a : V3 T) (s : T) : V3 T := v3map (fun x => x / s) a.
Definition v3opp (a : V3 T) : V3 T := v3map sopp a.

(** Sums of products are taken from left to right.  Eigen's evaluators may
    associate a sum differently; no statement below depends on it. *)
Definition dot3 (a b : V3 T) : T := c0 a * c0 b + c1 a * c1 b + c2 a * c2 b.

Definition v3norm (a : V3 T) : T := ssqrt (dot3 a a).

Definition m3add (A B : Mat3 T) : Mat3 T := v3zip v3add A B.
Definition m3sub (A B : Mat3 T) : Mat3 T := v3zip v3sub A B.
Definition m3scale (s : T) (A : Mat3 T) : Mat3 T := v3map (v3scale s) A.
Definition m3mulv (A : Mat3 T) (v : V3 T) : V3 T := v3map (fun r => dot3 r v) A.
(** Row vector times matrix. *)
Definition v3mulm (v : V3 T) (A : Mat3 T) : V3 T :=
  mkV3 (dot3 v (m3col 0 A)) (dot3 v (m3col 1 A)) (dot3 v (m3col 2 A)).
Definition m3mul (A B : Mat3 T) : Mat3 T := v3map (fun r => v3mulm r B) A.
(** [q * q.transpose()]. *)
Definition v3outer (q : V3 T) : Mat3 T := v3map (fun qi => v3scale qi q) q.

(** The blocks of a 4x4 homogeneous matrix. *)
Definition m4linear (M : Mat4 T) : Mat3 T :=
  mkV3 (mkV3 (d0 (d0 M)) (d1 (d0 M)) (d2 (d0 M)))
       (mkV3 (d0 (d1 M)) (d1 (d1 M)) (d2 (d1 M)))
       (mkV3 (d0 (d2 M)) (d1 (d2 M)) (d2 (d2 M))).
Definition m4translation (M : Mat4 T) : V3 T :=
  mkV3 (d3 (d0 M)) (d3 (d1 M)) (d3 (d2 M)).
(** [M.block(0,0,3,3) = L] and [M.block(0,3,3,1) = t]. *)
Definition m4set_linear (L : Mat3 T) (M : Mat4 T) : Mat4 T :=
  mkV4 (mkV4 (c0 (c0 L)) (c1 (c0 L)) (c2 (c0 L)) (d3 (d0 M)))
       (mkV4 (c0 (c1 L)) (c1 (c1 L)) (c2 (c1 L)) (d3 (d1 M)))
       (mkV4 (c0 (c2 L)) (c1 (c2 L)) (c2 (c2 L)) (d3 (d2 M)))
       (d3 M).
Definition m4set_translation (t : V3 T) (M : Mat4 T) : Mat4 T :=
  mkV4 (mkV4 (d0 (d0 M)) (d1 (d0 M)) (d2 (d0 M)) (c0 t))
       (mkV4 (d0 (d1 M)) (d1 (d1 M)) (d2 (d1 M)) (c1 t))
       (mkV4 (d0 (d2 M)) (d1 (d2 M)) (d2 (d2 M)) (c2 t))
       (d3 M).

(** [Eigen::AngleAxis<T>(angle, axis).toRotationMatrix()], with the sine
    and cosine of the instantiation passed in. *)
Definition AngleAxis_toRotationMatrix (sin_ cos_ : T -> T)
    (angle : T) (axis : V3 T) : Mat3 T :=
  let sin_axis := v3scale (sin_ angle) axis in
  let c := cos_ angle in
  let cos1_axis := v3scale (#1 - c) axis in
  let tmp01 := c0 cos1_axis * c1 axis in
  let tmp02 := c0 cos1_axis * c2 axis in
  let tmp12 := c1 cos1_axis * c2 axis in
  mkV3 (mkV3 (c0 cos1_axis * c0 axis + c) (tmp01 - c2 sin_axis) (tmp02 + c1 sin_axis))
       (mkV3 (tmp01 + c2 sin_axis) (c1 cos1_axis * c1 axis + c) (tmp12 - c0 sin_axis))
       (mkV3 (tmp02 - c1 sin_axis) (tmp12 + c0 sin_axis) (c2 cos1_axis * c2 axis + c)).

Definition UnitZ : V3 T := mkV3 #0 #0 #1.
End LinearAlgebra.

(** Operations of Eigen whose algorithms are not part of this code base. *)
Class EigenOps (T : Type) : Type := {
  (** [Transform<double,3,Affine>::rotation()]: the rotation factor of the
      linear part (polar decomposition). *)
  e_rotation : Mat3 T -> Mat3 T;
  (** The same on a [Matrix4f]. *)
  e_rotationf : Mat3 T -> Mat3 T;
  (** [computeInverseAndDetWithCheck(inverse, det, invertible)]. *)
  e_inverse_check : Mat3 T -> Mat3 T * T * bool;
  (** [JacobiSVD<Matrix3d>(A, ComputeFullU | ComputeFullV).solve(b)]. *)
  e_svd_solve : Mat3 T -> V3 T -> V3 T;
  (** [Matrix3d::inverse()]. *)
  e_inverse : Mat3 T -> Mat3 T
}.

(* ================================================================== *)
(** * Data model of [d2d_ndt2d.h] *)
(* ================================================================== *)

(** [ScoreAndDerivatives<3, T>]. *)
Record ScoreAndDerivatives (T : Type) : Type := mkScore {
  hessian_ : Mat3 T;
  gradient_ : V3 T;
  value_ : T
}.
Arguments mkScore {T} _ _ _.
Arguments hessian_ {T} _.
Arguments gradient_ {T} _.
Arguments value_ {T} _.

(** [FittingParams]. *)
Record FittingParams (T : Type) : Type := mkFittingParams {
  gauss_d1_ : T;
  gauss_d2_ : T;
  gauss_d2__half_ : T
}.
Arguments mkFittingParams {T} _ _ _.
Arguments gauss_d1_ {T} _.
Arguments gauss_d2_ {T} _.
Arguments gauss_d2__half_ {T} _.

(** [JacobianHessianDerivatives].  The 9-row and 9-column matrices are kept
    by their 3x3 blocks, which is how the code reads and writes them:
    [Hest] (9x3) is the stack of [Hest.block<3,3>(3b,0)], [b = 0,1,2];
    [Zest] (3x9) is the row of [Zest.block<3,3>(0,3b)];
    [ZHest] (9x9) is the grid of [ZHest.block<3,3>(3a,3b)]. *)
Record JacobianHessianDerivatives (T : Type) : Type := mkDerivatives {
  Jest : Mat3 T;
  Hest : V3 (Mat3 T);
  Zest : V3 (Mat3 T);
  ZHest : V3 (V3 (Mat3 T))
}.
Arguments mkDerivatives {T} _ _ _ _.
Arguments Jest {T} _.
Arguments Hest {T} _.
Arguments Zest {T} _.
Arguments ZHest {T} _.

(** Coefficients by their row and column in the full matrices. *)
Definition Hest_coeff {T} (d : JacobianHessianDerivatives T) (i j : nat) : T :=
  m3get (i mod 3) j (v3get (i / 3) (Hest d)).
Definition Zest_coeff {T} (d : JacobianHessianDerivatives T) (i j : nat) : T :=
  m3get i (j mod 3) (v3get (j / 3) (Zest d)).
Definition ZHest_coeff {T} (d : JacobianHessianDerivatives T) (i j : nat) : T :=
  m3get (i mod 3) (j mod 3) (v3get (j / 3) (v3get (i / 3) (ZHest d))).

(** A leaf of [VoxelGridCovariance]: the mean and covariance of a cell. *)
Record Leaf (T : Type) : Type := mkLeaf {
  getMean : V3 T;
  getCov : Mat3 T
}.
Arguments mkLeaf {T} _ _.
Arguments getMean {T} _.
Arguments getCov {T} _.

(** A filtered [VoxelGridCovariance]: its leaves in the order of the
    [std::map] (increasing key) and its k-nearest-leaves query. *)
Record VoxelGridCovariance (T : Type) : Type := mkGrid {
  getLeaves : list (Leaf T);
  nearestKSearch : V3 T -> nat -> list (Leaf T)
}.
Arguments mkGrid {T} _ _.
Arguments getLeaves {T} _.
Arguments nearestKSearch {T} _ _ _.

(** A point cloud: the points' coordinates. *)
Definition PointCloud (T : Type) : Type := list (V3 T).

(** Operations of PCL and of the validator look-up table. *)
Class PclOps (T : Type) : Type := {
  (** [setLeafSize(s,s,s); setInputCloud(cloud); filter(true)]. *)
  voxelize : T -> PointCloud T -> VoxelGridCovariance T;
  (** [transformPointCloud(in, out, transform)]: the new [out]. *)
  transformPointCloud : PointCloud T -> Mat4 T -> PointCloud T;
  (** [ml_corr::LookUpTable]: [initGrid(target, cell_size, 0.5)] then
      [getScore(cloud)]. *)
  lut_getScore : PointCloud T -> T -> T -> PointCloud T -> T
}.

(* ================================================================== *)
(** * [ScoreAndDerivatives], [FittingParams], the pose codec *)
(* ================================================================== *)

Section Structs.
Context {T : Type} `{Scalar T} `{Libm T} `{EigenOps T}.
Local Open Scope scalar_scope.

(** The default constructor and [Zero()]. *)
Definition ScoreAndDerivatives_Zero : ScoreAndDerivatives T :=
  mkScore m3zero v3zero #0.

(** [operator+=]. *)
Definition ScoreAndDerivatives_add (l r : ScoreAndDerivatives T)
    : ScoreAndDerivatives T :=
  mkScore (m3add (hessian_ l) (hessian_ r))
          (v3add (gradient_ l) (gradient_ r))
          (value_ l + value_ r).

(** [operator+]: [ret] is default-constructed, then [ret += lhs; ret += rhs]. *)
Definition ScoreAndDerivatives_plus (lhs rhs : ScoreAndDerivatives T)
    : ScoreAndDerivatives T :=
  ScoreAndDerivatives_add
    (ScoreAndDerivatives_add ScoreAndDerivatives_Zero lhs) rhs.

(** [FittingParams::calcParams], run by the constructor on the
    zero-initialised fields. *)
Definition calcParams (this : FittingParams T) (outlier_ratio resolution : T)
    : FittingParams T :=
  let gauss_c1 := #10 * (#1 - outlier_ratio) in
  let gauss_c2 := outlier_ratio / c_pow resolution #2 in
  let gauss_d3 := - c_log gauss_c2 in
  let this := mkFittingParams (- c_log (gauss_c1 + gauss_c2) - gauss_d3)
                (gauss_d2_ this) (gauss_d2__half_ this) in
  let this := mkFittingParams (gauss_d1_ this)
                (#(-2) * c_log ((- c_log (gauss_c1 * c_exp (- lit 5 10) + gauss_c2)
                                 - gauss_d3) / gauss_d1_ this))
                (gauss_d2__half_ this) in
  mkFittingParams (gauss_d1_ this) (gauss_d2_ this) (gauss_d2_ this / #2).

Definition FittingParams_new (outlier_ratio resolution : T) : FittingParams T :=
  calcParams (mkFittingParams #0 #0 #0) outlier_ratio resolution.

(** The template argument [T] of [vecToMat] and [matToVec]. *)
Inductive Precision : Type := Float | Double.

(** [static_cast<T>]. *)
Definition cast (p : Precision) (x : T) : T :=
  match p with Float => snarrow x | Double => x end.

(** Arithmetic at precision [p]: each [float] operation is the [double] one
    rounded to binary32 (rounding twice is harmless for these operations). *)
Definition scalar_at (p : Precision) : Scalar T :=
  match p with
  | Double => _
  | Float =>
      {| sofZ := fun z => snarrow (sofZ z);
         sadd := fun x y => snarrow (x + y);
         ssub := fun x y => snarrow (x - y);
         smul := fun x y => snarrow (x * y);
         sdiv := fun x y => snarrow (x / y);
         sopp := sopp;
         sabs := sabs;
         ssqrt := fun x => snarrow (ssqrt x);
         seqb := seqb;
         sltb := sltb;
         sleb := sleb;
         snarrow := snarrow |}
  end.

Definition sin_at (p : Precision) : T -> T :=
  match p with Float => c_sinf | Double => c_sin end.
Definition cos_at (p : Precision) : T -> T :=
  match p with Float => c_cosf | Double => c_cos end.
Definition atan2_at (p : Precision) : T -> T -> T :=
  match p with Float => c_atan2f | Double => c_atan2 end.
Definition rotation_at (p : Precision) : Mat3 T -> Mat3 T :=
  match p with Float => e_rotationf | Double => e_rotation end.

(** [vecToMat<T>]. *)
Definition vecToMat (p : Precision) (trans : V3 T) : Mat4 T :=
  let trans_mat := m4identity in
  let trans_mat :=
    m4set_linear
      (@AngleAxis_toRotationMatrix T (scalar_at p) (sin_at p) (cos_at p)
         (cast p (c2 trans)) UnitZ)
      trans_mat in
  let trans_mat :=
    m4set_translation (mkV3 (cast p (c0 trans)) (cast p (c1 trans)) (cast p #0))
      trans_mat in
  trans_mat.

(** [matToVec<T>]. *)
Definition matToVec (p : Precision) (trans : Mat4 T) : V3 T :=
  let translation := m4translation trans in
  let rotation := rotation_at p (m4linear trans) in
  mkV3 (c0 translation) (c1 translation)
       (atan2_at p (m3get 1 0 rotation) (m3get 0 0 rotation)).

(** [trans_mat * v] for an affine [Eigen::Transform]. *)
Definition transform_point (trans_mat : Mat4 T) (v : V3 T) : V3 T :=
  v3add (m3mulv (m4linear trans_mat) v) (m4translation trans_mat).

End Structs.

(* ================================================================== *)
(** * The derivative kit and the per-pair score *)
(* ================================================================== *)

Section Score.
Context {T : Type} `{Scalar T} `{Libm T} `{EigenOps T}.
Local Open Scope scalar_scope.

(** [JacobianHessianDerivatives::setZero]. *)
Definition Derivatives_setZero : JacobianHessianDerivatives T :=
  mkDerivatives m3zero
    (mkV3 m3zero m3zero m3zero)
    (mkV3 m3zero m3zero m3zero)
    (mkV3 (mkV3 m3zero m3zero m3zero) (mkV3 m3zero m3zero m3zero)
          (mkV3 m3zero m3zero m3zero)).

(** [M.block<2,2>(0,0).setIdentity()] on a 3x3 matrix. *)
Definition m3set_block22_identity (M : Mat3 T) : Mat3 T :=
  mkV3 (mkV3 #1 #0 (c2 (c0 M))) (mkV3 #0 #1 (c2 (c1 M))) (c2 M).

Definition m3set (i j : nat) (a : T) (M : Mat3 T) : Mat3 T :=
  v3set i (v3set j a (v3get i M)) M.

(** [computeDerivatives]. *)
Definition computeDerivatives (x : V3 T) (cov : Mat3 T) (calc_hessian : bool)
    : JacobianHessianDerivatives T :=
  let cov := fun i j => m3get i j cov in
  let data := Derivatives_setZero in
  let data := mkDerivatives (m3set_block22_identity (Jest data))
                (Hest data) (Zest data) (ZHest data) in
  let data := mkDerivatives (m3set 0 2 (- c1 x) (Jest data))
                (Hest data) (Zest data) (ZHest data) in
  let data := mkDerivatives (m3set 1 2 (c0 x) (Jest data))
                (Hest data) (Zest data) (ZHest data) in
  (* Zest.block<3,3>(0,6) << ... *)
  let data :=
    mkDerivatives (Jest data) (Hest data)
      (v3set 2
         (mkV3 (mkV3 (#(-2) * cov 0 1) (- cov 1 1 + cov 0 0) (- cov 1 2))
               (mkV3 (- cov 1 1 + cov 0 0) (#2 * cov 0 1) (cov 0 2))
               (mkV3 (- cov 1 2) (cov 0 2) #0))
         (Zest data))
      (ZHest data) in
  if calc_hessian then
    (* Hest.block<3,1>(6,2) << -x(0), -x(1), 0 *)
    let data :=
      mkDerivatives (Jest data)
        (v3set 2 (m3set_col 2 (mkV3 (- c0 x) (- c1 x) #0) (v3get 2 (Hest data)))
           (Hest data))
        (Zest data) (ZHest data) in
    (* ZHest.block<3,3>(6,6) << ... *)
    mkDerivatives (Jest data) (Hest data) (Zest data)
      (v3set 2
         (v3set 2
            (mkV3 (mkV3 (#2 * cov 1 1 - #2 * cov 0 0) (#(-4) * cov 0 1) (- cov 0 2))
                  (mkV3 (#(-4) * cov 0 1) (#2 * cov 0 0 - #2 * cov 1 1) (- cov 1 2))
                  (mkV3 (- cov 0 2) (- cov 1 2) #0))
            (v3get 2 (ZHest data)))
         (ZHest data))
  else data.

(** [a * b.transpose()] for two column vectors. *)
Definition v3outer2 (a b : V3 T) : Mat3 T := v3map (fun ai => v3scale ai b) a.

(** [calcSourceCellScore]. *)
Definition calcSourceCellScore (mean_source : V3 T) (cov_source : Mat3 T)
    (cell_t : Leaf T) (deriv : JacobianHessianDerivatives T)
    (param : FittingParams T) (calc_hessian : bool) : ScoreAndDerivatives T :=
  let res := ScoreAndDerivatives_Zero in
  let xtBZBx := v3zero in
  let xtBZBJ := m3zero in
  let xtBH := m3zero in
  let xtBZBZBx := m3zero in
  let xtBZhBx := m3zero in
  let diff_mean := v3sub mean_source (getMean cell_t) in
  let cov_sum := m3add (getCov cell_t) cov_source in
  let '(icov, det, exists_) := e_inverse_check cov_sum in
  if negb exists_ then ScoreAndDerivatives_Zero
  else
    let dist := dot3 diff_mean (m3mulv icov diff_mean) in
    if (dist * #0 !=? #0) then ScoreAndDerivatives_Zero
    else
      let res := mkScore (hessian_ res) (gradient_ res)
                   (- gauss_d1_ param * c_exp (- gauss_d2__half_ param * dist)) in
      let xtB := v3mulm diff_mean icov in
      let xtBJ := v3mulm xtB (Jest deriv) in
      let TMP1 := v3mulm (v3mulm xtB (v3get 2 (Zest deriv))) icov in
      let xtBZBx := v3set 2 (dot3 TMP1 diff_mean) xtBZBx in
      let '(xtBZBJ, xtBH, xtBZBZBx, xtBZhBx) :=
        if calc_hessian then
          let xtBZBJ := m3set_col 2 (v3mulm TMP1 (Jest deriv)) xtBZBJ in
          fold_left
            (fun '(xtBZBJ, xtBH, xtBZBZBx, xtBZhBx) j =>
               let xtBH :=
                 m3set 2 j (dot3 xtB (m3col j (v3get 2 (Hest deriv)))) xtBH in
               let xtBZBZBx :=
                 m3set 2 j
                   (dot3 (v3mulm (v3mulm TMP1 (v3get j (Zest deriv))) icov)
                      diff_mean) xtBZBZBx in
               let xtBZhBx :=
                 m3set 2 j
                   (dot3 (v3mulm (v3mulm xtB (v3get j (v3get 2 (ZHest deriv)))) icov)
                      diff_mean) xtBZhBx in
               (xtBZBJ, xtBH, xtBZBZBx, xtBZhBx))
            [0; 1; 2]%nat
            (xtBZBJ, xtBH, xtBZBZBx, xtBZhBx)
        else (xtBZBJ, xtBH, xtBZBZBx, xtBZhBx) in
      let Q := v3sub (v3scale #2 xtBJ) xtBZBx in
      let factor := - (gauss_d2__half_ param) * value_ res in
      let res := mkScore (hessian_ res)
                   (v3add (gradient_ res) (v3scale_r Q factor)) (value_ res) in
      if calc_hessian then
        mkScore
          (m3add (hessian_ res)
             (m3scale factor
                (m3sub
                   (m3add
                      (m3add
                         (m3sub
                            (m3sub
                               (m3sub
                                  (m3add
                                     (m3mul (m3mul (m3scale #2 (m3trans (Jest deriv))) icov)
                                        (Jest deriv))
                                     (m3scale #2 xtBH))
                                  xtBZhBx)
                               (m3scale #2 (m3trans xtBZBJ)))
                            (m3scale #2 xtBZBJ))
                         xtBZBZBx)
                      (m3trans xtBZBZBx))
                   (v3outer2 (v3scale (gauss_d2__half_ param) Q) Q))))
          (gradient_ res) (value_ res)
      else res.

End Score.

(* ================================================================== *)
(** * The score accumulator [calcScore] *)
(* ================================================================== *)

Fixpoint list_update {A} (i : nat) (f : A -> A) (l : list A) : list A :=
  match l, i with
  | [], _ => []
  | a :: l', 0 => f a :: l'
  | a :: l', S i' => a :: list_update i' f l'
  end.

Section ScoreAccumulator.
Context {T : Type} `{Scalar T} `{Libm T} `{EigenOps T}.
(** The virtual members that [calcScore] calls. *)
Variable computeDerivatives_v :
  V3 T -> Mat3 T -> bool -> JacobianHessianDerivatives T.
Variable calcSourceCellScore_v :
  V3 T -> Mat3 T -> Leaf T -> JacobianHessianDerivatives T -> FittingParams T ->
  bool -> ScoreAndDerivatives T.
(** [omp_get_thread_num()] in the iteration of [cell_id]: the work sharing
    of [#pragma omp for] under [num_threads(2)].  A thread runs its
    iterations in increasing order and is the only writer of its slot, so the
    slots' final contents are those of the loop run in increasing [cell_id]. *)
Variable omp_thread : nat -> nat.
Local Open Scope scalar_scope.

(** The contributions of one source cell, one per neighbour. *)
Definition cell_contributions (param : FittingParams T) (trans_mat : Mat4 T)
    (targetNDT : VoxelGridCovariance T) (calc_hessian : bool) (cell : Leaf T)
    : list (ScoreAndDerivatives T) :=
  let mean_source := transform_point trans_mat (getMean cell) in
  let rotation := e_rotation (m4linear trans_mat) in
  let cov_source := m3mul (m3mul rotation (getCov cell)) (m3trans rotation) in
  let partial_derivatives :=
    computeDerivatives_v mean_source cov_source calc_hessian in
  let pt := v3map snarrow mean_source in
  let neighborhood := nearestKSearch targetNDT pt 2 in
  map (fun target_cell =>
         calcSourceCellScore_v mean_source cov_source target_cell
           partial_derivatives param calc_hessian)
      neighborhood.

(** The body of the parallel loop for [cell_id]. *)
Definition omp_body (param : FittingParams T) (trans_mat : Mat4 T)
    (targetNDT : VoxelGridCovariance T) (calc_hessian : bool)
    (omp_ret : list (ScoreAndDerivatives T)) (cell_id : nat) (cell : Leaf T)
    : list (ScoreAndDerivatives T) :=
  let thread_id := omp_thread cell_id in
  fold_left
    (fun omp_ret contribution =>
       list_update thread_id
         (fun slot => ScoreAndDerivatives_add slot contribution) omp_ret)
    (cell_contributions param trans_mat targetNDT calc_hessian cell)
    omp_ret.

Fixpoint omp_for (param : FittingParams T) (trans_mat : Mat4 T)
    (targetNDT : VoxelGridCovariance T) (calc_hessian : bool)
    (cell_id : nat) (source_cells : list (Leaf T))
    (omp_ret : list (ScoreAndDerivatives T)) : list (ScoreAndDerivatives T) :=
  match source_cells with
  | [] => omp_ret
  | cell :: rest =>
      omp_for param trans_mat targetNDT calc_hessian (S cell_id) rest
        (omp_body param trans_mat targetNDT calc_hessian omp_ret cell_id cell)
  end.

(** [calcScore].  [omp_ret.resize(4)] makes four default slots and the loop
    of [push_back] adds four more. *)
Definition calcScore (param : FittingParams T) (sourceNDT : VoxelGridCovariance T)
    (trans : V3 T) (targetNDT : VoxelGridCovariance T) (calc_hessian : bool)
    : ScoreAndDerivatives T :=
  let res := ScoreAndDerivatives_Zero in
  let trans_mat := vecToMat Double trans in
  let source_cells := getLeaves sourceNDT in
  let omp_ret := repeat ScoreAndDerivatives_Zero 4 in
  let omp_ret := omp_ret ++ repeat ScoreAndDerivatives_Zero 4 in
  let omp_ret :=
    omp_for param trans_mat targetNDT calc_hessian 0 source_cells omp_ret in
  fold_left ScoreAndDerivatives_add omp_ret res.

(** The sequential sum that the reduction stands for: every contribution of
    every source cell, in order, added to one accumulator. *)
Definition calcScore_sequential (param : FittingParams T)
    (sourceNDT : VoxelGridCovariance T) (trans : V3 T)
    (targetNDT : VoxelGridCovariance T) (calc_hessian : bool)
    : ScoreAndDerivatives T :=
  let trans_mat := vecToMat Double trans in
  fold_left ScoreAndDerivatives_add
    (flat_map (cell_contributions param trans_mat targetNDT calc_hessian)
       (getLeaves sourceNDT))
    ScoreAndDerivatives_Zero.

End ScoreAccumulator.

(* ================================================================== *)
(** * The More-Thuente line search *)
(* ================================================================== *)

Section LineSearch.
Context {T : Type} `{Scalar T}.
Local Open Scope scalar_scope.

(** The interval endpoints that [updateIntervalMT] takes by reference. *)
Record Interval : Type := mkInterval {
  a_l : T; f_l : T; g_l : T;
  a_u : T; f_u : T; g_u : T
}.

(** [updateIntervalMT]: the returned flag and the updated endpoints. *)
Definition updateIntervalMT (Iv : Interval) (a_t f_t g_t : T) : bool * Interval :=
  if f_t >? f_l Iv then
    (false, mkInterval (a_l Iv) (f_l Iv) (g_l Iv) a_t f_t g_t)
  else if g_t * (a_l Iv - a_t) >? #0 then
    (false, mkInterval a_t f_t g_t (a_u Iv) (f_u Iv) (g_u Iv))
  else if g_t * (a_l Iv - a_t) <? #0 then
    (false, mkInterval a_t f_t g_t (a_l Iv) (f_l Iv) (g_l Iv))
  else (true, Iv).

(** [trialValueSelectionMT]. *)
Definition trialValueSelectionMT (a_l f_l g_l a_u f_u g_u a_t f_t g_t : T) : T :=
  if f_t >? f_l then
    let z := #3 * (f_t - f_l) / (a_t - a_l) - g_t - g_l in
    let w := ssqrt (z * z - g_t * g_l) in
    let a_c := a_l + (a_t - a_l) * (w - g_l - z) / (g_t - g_l + #2 * w) in
    let a_q :=
      a_l - lit 5 10 * (a_l - a_t) * g_l / (g_l - (f_l - f_t) / (a_l - a_t)) in
    if sabs (a_c - a_l) <? sabs (a_q - a_l) then a_c
    else lit 5 10 * (a_q + a_c)
  else if g_t * g_l <? #0 then
    let z := #3 * (f_t - f_l) / (a_t - a_l) - g_t - g_l in
    let w := ssqrt (z * z - g_t * g_l) in
    let a_c := a_l + (a_t - a_l) * (w - g_l - z) / (g_t - g_l + #2 * w) in
    let a_s := a_l - (a_l - a_t) / (g_l - g_t) * g_l in
    if sabs (a_c - a_t) >=? sabs (a_s - a_t) then a_c else a_s
  else if sabs g_t <=? sabs g_l then
    let z := #3 * (f_t - f_l) / (a_t - a_l) - g_t - g_l in
    let w := ssqrt (z * z - g_t * g_l) in
    let a_c := a_l + (a_t - a_l) * (w - g_l - z) / (g_t - g_l + #2 * w) in
    let a_s := a_l - (a_l - a_t) / (g_l - g_t) * g_l in
    let a_t_next :=
      if sabs (a_c - a_t) <? sabs (a_s - a_t) then a_c else a_s in
    if a_t >? a_l then std_min (a_t + lit 66 100 * (a_u - a_t)) a_t_next
    else std_max (a_t + lit 66 100 * (a_u - a_t)) a_t_next
  else
    let z := #3 * (f_t - f_u) / (a_t - a_u) - g_t - g_u in
    let w := ssqrt (z * z - g_t * g_u) in
    a_u + (a_t - a_u) * (w - g_u - z) / (g_t - g_u + #2 * w).

(** [auxilaryFunction_PsiMT] and [auxilaryFunction_dPsiMT]. *)
Definition auxilaryFunction_PsiMT (a f_a f_0 g_0 mu : T) : T :=
  f_a - f_0 - mu * g_0 * a.
Definition auxilaryFunction_dPsiMT (g_a g_0 mu : T) : T :=
  g_a - mu * g_0.

(** The virtual [calcScore] that the search calls. *)
Variable calcScore_v :
  FittingParams T -> VoxelGridCovariance T -> V3 T -> VoxelGridCovariance T ->
  bool -> ScoreAndDerivatives T.

(** The local variables of [computeStepLengthMT] that its loop changes. *)
Record MTLocals : Type := mkMT {
  mt_I : Interval;
  mt_a_t : T;
  mt_phi_t : T;
  mt_d_phi_t : T;
  mt_psi_t : T;
  mt_d_psi_t : T;
  mt_interval_converged : bool;
  mt_open_interval : bool;
  mt_step_iterations : Z
}.

Definition max_step_iterations : Z := 10.
(** Sufficient decrease and curvature constants. *)
Definition mu : T := lit 1 10000.
Definition nu : T := lit 9 10.

Section Loop.
Variables (x step_dir : V3 T) (step_max step_min phi_0 d_phi_0 : T).
Variables (source_grid target_grid : VoxelGridCovariance T).
Variable param : FittingParams T.

(** The condition of the [while]. *)
Definition MT_continue (s : MTLocals) : bool :=
  negb (mt_interval_converged s)
  && (mt_step_iterations s <? max_step_iterations)%Z
  && negb ((mt_psi_t s <=? #0) && (mt_d_phi_t s <=? - nu * d_phi_0)).

(** One run of the body of the [while]. *)
Definition MT_body (s : MTLocals) : MTLocals :=
  let Iv := mt_I s in
  let a_t :=
    if mt_open_interval s then
      trialValueSelectionMT (a_l Iv) (f_l Iv) (g_l Iv) (a_u Iv) (f_u Iv) (g_u Iv)
        (mt_a_t s) (mt_psi_t s) (mt_d_psi_t s)
    else
      trialValueSelectionMT (a_l Iv) (f_l Iv) (g_l Iv) (a_u Iv) (f_u Iv) (g_u Iv)
        (mt_a_t s) (mt_phi_t s) (mt_d_phi_t s) in
  let a_t := std_min a_t step_max in
  let a_t := std_max a_t step_min in
  let x_t := v3add x (v3scale_r step_dir a_t) in
  let score_vals := calcScore_v param source_grid x_t target_grid false in
  let phi_t := - value_ score_vals in
  let d_phi_t := - (dot3 (gradient_ score_vals) step_dir) in
  let psi_t := auxilaryFunction_PsiMT a_t phi_t phi_0 d_phi_0 mu in
  let d_psi_t := auxilaryFunction_dPsiMT d_phi_t d_phi_0 mu in
  let '(open_interval, Iv) :=
    if mt_open_interval s && ((psi_t <=? #0) && (d_psi_t >=? #0)) then
      (false,
       mkInterval (a_l Iv) (f_l Iv + phi_0 - mu * d_phi_0 * a_l Iv)
                  (g_l Iv + mu * d_phi_0)
                  (a_u Iv) (f_u Iv + phi_0 - mu * d_phi_0 * a_u Iv)
                  (g_u Iv + mu * d_phi_0))
    else (mt_open_interval s, Iv) in
  let '(interval_converged, Iv) :=
    if open_interval then updateIntervalMT Iv a_t psi_t d_psi_t
    else updateIntervalMT Iv a_t phi_t d_phi_t in
  mkMT Iv a_t phi_t d_phi_t psi_t d_psi_t interval_converged open_interval
       (mt_step_iterations s + 1).

(** The [while] loop; [None] when the fuel runs out before it ends. *)
Fixpoint MT_while (fuel : nat) (s : MTLocals) : option MTLocals :=
  if MT_continue s then
    match fuel with
    | O => None
    | S fuel' => MT_while fuel' (MT_body s)
    end
  else Some s.

End Loop.

(** [computeStepLengthMT]: the locals at the [return], with the final
    [step_dir] (taken by reference and possibly reversed).  The early
    [return 0] leaves [None] for the locals. *)
Definition computeStepLengthMT_run (x step_dir : V3 T)
    (step_init step_max step_min : T) (source_grid : VoxelGridCovariance T)
    (score : ScoreAndDerivatives T) (target_grid : VoxelGridCovariance T)
    (param : FittingParams T) : option (option MTLocals * V3 T) :=
  let score_vals := score in
  let phi_0 := - value_ score_vals in
  let d_phi_0 := - (dot3 (gradient_ score_vals) step_dir) in
  if (d_phi_0 >=? #0) && (d_phi_0 =? #0) then Some (None, step_dir)
  else
    let '(d_phi_0, step_dir) :=
      if d_phi_0 >=? #0 then (d_phi_0 * #(-1), v3scale_r step_dir #(-1))
      else (d_phi_0, step_dir) in
    let a_l := #0 in
    let a_u := #0 in
    let f_l := auxilaryFunction_PsiMT a_l phi_0 phi_0 d_phi_0 mu in
    let g_l := auxilaryFunction_dPsiMT d_phi_0 d_phi_0 mu in
    let f_u := auxilaryFunction_PsiMT a_u phi_0 phi_0 d_phi_0 mu in
    let g_u := auxilaryFunction_dPsiMT d_phi_0 d_phi_0 mu in
    let interval_converged := (step_max - step_min) >? #0 in
    let open_interval := true in
    let a_t := step_init in
    let a_t := std_min a_t step_max in
    let a_t := std_max a_t step_min in
    let x_t := v3add x (v3scale_r step_dir a_t) in
    let score_vals := calcScore_v param source_grid x_t target_grid false in
    let phi_t := - value_ score_vals in
    let d_phi_t := - (dot3 (gradient_ score_vals) step_dir) in
    let psi_t := auxilaryFunction_PsiMT a_t phi_t phi_0 d_phi_0 mu in
    let d_psi_t := auxilaryFunction_dPsiMT d_phi_t d_phi_0 mu in
    match
      MT_while x step_dir step_max step_min phi_0 d_phi_0 source_grid
        target_grid param (Z.to_nat max_step_iterations)
        (mkMT (mkInterval a_l f_l g_l a_u f_u g_u) a_t phi_t d_phi_t psi_t
           d_psi_t interval_converged open_interval 0)
    with
    | None => None
    | Some s => Some (Some s, step_dir)
    end.

(** The returned step length and the final [step_dir]. *)
Definition computeStepLengthMT (x step_dir : V3 T)
    (step_init step_max step_min : T) (source_grid : VoxelGridCovariance T)
    (score : ScoreAndDerivatives T) (target_grid : VoxelGridCovariance T)
    (param : FittingParams T) : option (T * V3 T) :=
  match
    computeStepLengthMT_run x step_dir step_init step_max step_min source_grid
      score target_grid param
  with
  | None => None
  | Some (None, step_dir') => Some (#0, step_dir')
  | Some (Some s, step_dir') => Some (mt_a_t s, step_dir')
  end.

End LineSearch.

(* ================================================================== *)
(** * The registration object [D2DNormalDistributionsTransform2D] *)
(* ================================================================== *)

(** The data members: those inherited from [pcl::Registration] that the
    class uses, then its own.  [size_t] and [int] values are integers; the
    [int] counter stays within its range (it never passes
    [max_iterations_]). *)
Record D2D (T : Type) : Type := mkD2D {
  input_ : PointCloud T;
  target_ : PointCloud T;
  nr_iterations_ : Z;
  max_iterations_ : Z;
  previous_transformation_ : Mat4 T;
  final_transformation_ : Mat4 T;
  transformation_ : Mat4 T;
  transformation_epsilon_ : T;
  converged_ : bool;
  cell_sizes_ : list T;
  step_size_ : T;
  outlier_ratio_ : T;
  params_ : list (FittingParams T);
  trans_probability_ : T;
  covariance_ : Mat3 T;
  inform_matrix_ : Mat3 T;
  layer_count_ : Z
}.
Arguments mkD2D {T}.
Arguments input_ {T} _.
Arguments target_ {T} _.
Arguments nr_iterations_ {T} _.
Arguments max_iterations_ {T} _.
Arguments previous_transformation_ {T} _.
Arguments final_transformation_ {T} _.
Arguments transformation_ {T} _.
Arguments transformation_epsilon_ {T} _.
Arguments converged_ {T} _.
Arguments cell_sizes_ {T} _.
Arguments step_size_ {T} _.
Arguments outlier_ratio_ {T} _.
Arguments params_ {T} _.
Arguments trans_probability_ {T} _.
Arguments covariance_ {T} _.
Arguments inform_matrix_ {T} _.
Arguments layer_count_ {T} _.

Section Assignments.
Context {T : Type}.
Implicit Type this : D2D T.

Definition set_nr_iterations_ (v : Z) this : D2D T :=
  mkD2D (input_ this) (target_ this) v (max_iterations_ this)
    (previous_transformation_ this) (final_transformation_ this)
    (transformation_ this) (transformation_epsilon_ this) (converged_ this)
    (cell_sizes_ this) (step_size_ this) (outlier_ratio_ this) (params_ this)
    (trans_probability_ this) (covariance_ this) (inform_matrix_ this)
    (layer_count_ this).
Definition set_max_iterations_ (v : Z) this : D2D T :=
  mkD2D (input_ this) (target_ this) (nr_iterations_ this) v
    (previous_transformation_ this) (final_transformation_ this)
    (transformation_ this) (transformation_epsilon_ this) (converged_ this)
    (cell_sizes_ this) (step_size_ this) (outlier_ratio_ this) (params_ this)
    (trans_probability_ this) (covariance_ this) (inform_matrix_ this)
    (layer_count_ this).
Definition set_previous_transformation_ (v : Mat4 T) this : D2D T :=
  mkD2D (input_ this) (target_ this) (nr_iterations_ this) (max_iterations_ this)
    v (final_transformation_ this)
    (transformation_ this) (transformation_epsilon_ this) (converged_ this)
    (cell_sizes_ this) (step_size_ this) (outlier_ratio_ this) (params_ this)
    (trans_probability_ this) (covariance_ this) (inform_matrix_ this)
    (layer_count_ this).
Definition set_final_transformation_ (v : Mat4 T) this : D2D T :=
  mkD2D (input_ this) (target_ this) (nr_iterations_ this) (max_iterations_ this)
    (previous_transformation_ this) v
    (transformation_ this) (transformation_epsilon_ this) (converged_ this)
    (cell_sizes_ this) (step_size_ this) (outlier_ratio_ this) (params_ this)
    (trans_probability_ this) (covariance_ this) (inform_matrix_ this)
    (layer_count_ this).
Definition set_transformation_ (v : Mat4 T) this : D2D T :=
  mkD2D (input_ this) (target_ this) (nr_iterations_ this) (max_iterations_ this)
    (previous_transformation_ this) (final_transformation_ this)
    v (transformation_epsilon_ this) (converged_ this)
    (cell_sizes_ this) (step_size_ this) (outlier_ratio_ this) (params_ this)
    (trans_probability_ this) (covariance_ this) (inform_matrix_ this)
    (layer_count_ this).
Definition set_transformation_epsilon_ (v : T) this : D2D T :=
  mkD2D (input_ this) (target_ this) (nr_iterations_ this) (max_iterations_ this)
    (previous_transformation_ this) (final_transformation_ this)
    (transformation_ this) v (converged_ this)
    (cell_sizes_ this) (step_size_ this) (outlier_ratio_ this) (params_ this)
    (trans_probability_ this) (covariance_ this) (inform_matrix_ this)
    (layer_count_ this).
Definition set_converged_ (v : bool) this : D2D T :=
  mkD2D (input_ this) (target_ this) (nr_iterations_ this) (max_iterations_ this)
    (previous_transformation_ this) (final_transformation_ this)
    (transformation_ this) (transformation_epsilon_ this) v
    (cell_sizes_ this) (step_size_ this) (outlier_ratio_ this) (params_ this)
    (trans_probability_ this) (covariance_ this) (inform_matrix_ this)
    (layer_count_ this).
Definition set_cell_sizes_ (v : list T) this : D2D T :=
  mkD2D (input_ this) (target_ this) (nr_iterations_ this) (max_iterations_ this)
    (previous_transformation_ this) (final_transformation_ this)
    (transformation_ this) (transformation_epsilon_ this) (converged_ this)
    v (step_size_ this) (outlier_ratio_ this) (params_ this)
    (trans_probability_ this) (covariance_ this) (inform_matrix_ this)
    (layer_count_ this).
Definition set_step_size_ (v : T) this : D2D T :=
  mkD2D (input_ this) (target_ this) (nr_iterations_ this) (max_iterations_ this)
    (previous_transformation_ this) (final_transformation_ this)
    (transformation_ this) (transformation_epsilon_ this) (converged_ this)
    (cell_sizes_ this) v (outlier_ratio_ this) (params_ this)
    (trans_probability_ this) (covariance_ this) (inform_matrix_ this)
    (layer_count_ this).
Definition set_outlier_ratio_ (v : T) this : D2D T :=
  mkD2D (input_ this) (target_ this) (nr_iterations_ this) (max_iterations_ this)
    (previous_transformation_ this) (final_transformation_ this)
    (transformation_ this) (transformation_epsilon_ this) (converged_ this)
    (cell_sizes_ this) (step_size_ this) v (params_ this)
    (trans_probability_ this) (covariance_ this) (inform_matrix_ this)
    (layer_count_ this).
Definition set_params_ (v : list (FittingParams T)) this : D2D T :=
  mkD2D (input_ this) (target_ this) (nr_iterations_ this) (max_iterations_ this)
    (previous_transformation_ this) (final_transformation_ this)
    (transformation_ this) (transformation_epsilon_ this) (converged_ this)
    (cell_sizes_ this) (step_size_ this) (outlier_ratio_ this) v
    (trans_probability_ this) (covariance_ this) (inform_matrix_ this)
    (layer_count_ this).
Definition set_trans_probability_ (v : T) this : D2D T :=
  mkD2D (input_ this) (target_ this) (nr_iterations_ this) (max_iterations_ this)
    (previous_transformation_ this) (final_transformation_ this)
    (transformation_ this) (transformation_epsilon_ this) (converged_ this)
    (cell_sizes_ this) (step_size_ this) (outlier_ratio_ this) (params_ this)
    v (covariance_ this) (inform_matrix_ this)
    (layer_count_ this).
Definition set_covariance_ (v : Mat3 T) this : D2D T :=
  mkD2D (input_ this) (target_ this) (nr_iterations_ this) (max_iterations_ this)
    (previous_transformation_ this) (final_transformation_ this)
    (transformation_ this) (transformation_epsilon_ this) (converged_ this)
    (cell_sizes_ this) (step_size_ this) (outlier_ratio_ this) (params_ this)
    (trans_probability_ this) v (inform_matrix_ this)
    (layer_count_ this).
Definition set_inform_matrix_ (v : Mat3 T) this : D2D T :=
  mkD2D (input_ this) (target_ this) (nr_iterations_ this) (max_iterations_ this)
    (previous_transformation_ this) (final_transformation_ this)
    (transformation_ this) (transformation_epsilon_ this) (converged_ this)
    (cell_sizes_ this) (step_size_ this) (outlier_ratio_ this) (params_ this)
    (trans_probability_ this) (covariance_ this) v
    (layer_count_ this).
Definition set_layer_count_ (v : Z) this : D2D T :=
  mkD2D (input_ this) (target_ this) (nr_iterations_ this) (max_iterations_ this)
    (previous_transformation_ this) (final_transformation_ this)
    (transformation_ this) (transformation_epsilon_ this) (converged_ this)
    (cell_sizes_ this) (step_size_ this) (outlier_ratio_ this) (params_ this)
    (trans_probability_ this) (covariance_ this) (inform_matrix_ this)
    v.

End Assignments.

(* ------------------------------------------------------------------ *)
(** ** Configuration: cell sizes and fitting parameters *)

Section Configuration.
Context {T : Type} `{Scalar T} `{Libm T}.
Local Open Scope scalar_scope.

(** [size_t] to [int]: the value modulo 2^32, read as signed. *)
Definition to_int (z : Z) : Z :=
  let w := (z mod 2 ^ 32)%Z in
  if (w <? 2 ^ 31)%Z then w else (w - 2 ^ 32)%Z.

(** Unsigned subtraction on [size_t]. *)
Definition size_t_sub (a b : Z) : Z := ((a - b) mod 2 ^ 64)%Z.

(** The [for] loop of [initCellSizes] with [n] iterations left, that is
    with [i = n - 1]. *)
Fixpoint initCellSizes_for (base_size : T) (n : nat) (cell_sizes : list T)
    : list T :=
  match n with
  | O => cell_sizes
  | S i =>
      initCellSizes_for base_size i
        (cell_sizes ++ [snarrow (base_size * c_pow #2 #(Z.of_nat i))])
  end.

(** [initCellSizes(float base_size)]: the flag and the object. *)
Definition initCellSizes (base_size : T) (this : D2D T) : bool * D2D T :=
  let this := set_cell_sizes_ [] this in
  let i := to_int (size_t_sub (layer_count_ this) 1) in
  (true,
   set_cell_sizes_
     (initCellSizes_for base_size (Z.to_nat (i + 1)) (cell_sizes_ this)) this).

(** [initParams].  [1/cell_sizes_[i]] is a [float] division. *)
Definition initParams (this : D2D T) : D2D T :=
  let this := set_params_ [] this in
  fold_left
    (fun this cell_size =>
       set_params_
         (params_ this ++
            [FittingParams_new (outlier_ratio_ this) (snarrow (#1 / cell_size))])
         this)
    (cell_sizes_ this) this.

(** [std::sort(begin, end)]: the sequence in increasing order of [<].  The
    order among elements that compare equal is not fixed by the standard;
    here they keep their order (an insertion sort). *)
Fixpoint sort_insert (a : T) (l : list T) : list T :=
  match l with
  | [] => [a]
  | b :: l' => if a <? b then a :: l else b :: sort_insert a l'
  end.
Definition std_sort (l : list T) : list T := fold_right sort_insert [] l.

(** [setCellSize(float)]. *)
Definition setCellSize (cell_size : T) (this : D2D T) : D2D T :=
  let '(changed, this) := initCellSizes cell_size this in
  if changed then initParams this else this.

(** [setCellSize(const std::vector<float> &)]. *)
Definition setCellSize_vector (cell_sizes : list T) (this : D2D T) : D2D T :=
  let this := set_layer_count_ (Z.of_nat (length cell_sizes)) this in
  let this := set_cell_sizes_ cell_sizes this in
  let this := set_cell_sizes_ (std_sort (cell_sizes_ this)) this in
  let this := set_cell_sizes_ (rev (cell_sizes_ this)) this in
  initParams this.

Definition getCellSizes (this : D2D T) : list T := cell_sizes_ this.

Definition setOulierRatio (outlier_ratio : T) (this : D2D T) : D2D T :=
  initParams (set_outlier_ratio_ outlier_ratio this).

Definition setStepSize (step_size : T) (this : D2D T) : D2D T :=
  set_step_size_ step_size this.

(** The constructor, on the object as [pcl::Registration]'s constructor and
    the uninitialised members leave it. *)
Definition D2D_constructor (this : D2D T) : D2D T :=
  let this := set_step_size_ (lit 1 10) this in
  let this := set_outlier_ratio_ (lit 55 100) this in
  let this := set_trans_probability_ #0 this in
  let this := set_layer_count_ 4 this in
  let this := set_nr_iterations_ 0 this in
  let this := set_max_iterations_ 35 this in
  let this := set_transformation_epsilon_ (lit 1 10) this in
  let this := set_converged_ false this in
  let this := snd (initCellSizes (snarrow (lit 25 100)) this) in
  initParams this.

End Configuration.

(* ------------------------------------------------------------------ *)
(** ** The Newton loop and the multi-resolution schedule *)

Section Registration.
Context {T : Type} `{Scalar T} `{Libm T} `{EigenOps T} `{PclOps T}.
Local Open Scope scalar_scope.

(** The virtual members that the loop calls. *)
Variable calcScore_v :
  FittingParams T -> VoxelGridCovariance T -> V3 T -> VoxelGridCovariance T ->
  bool -> ScoreAndDerivatives T.
Variable computeStepLengthMT_v :
  V3 T -> V3 T -> T -> T -> T -> VoxelGridCovariance T ->
  ScoreAndDerivatives T -> VoxelGridCovariance T -> FittingParams T ->
  option (T * V3 T).

(** [static_cast<double>(input_->points.size())]. *)
Definition points_size (this : D2D T) : T := #(Z.of_nat (length (input_ this))).

(** How one run of the body of [while (!converged_)] ends. *)
Inductive NewtonStep : Type :=
| ReturnFalse (this : D2D T)
| NextIteration (this : D2D T) (xytheta_p : V3 T) (p : Mat4 T)
    (score : ScoreAndDerivatives T).

(** The body of the [while]; [None] when the line search runs out of fuel. *)
Definition newton_body (this : D2D T) (source_grid target_grid : VoxelGridCovariance T)
    (param : FittingParams T) (xytheta_p : V3 T) : option NewtonStep :=
  let score := calcScore_v param source_grid xytheta_p target_grid true in
  let delta_xytheta_p := e_svd_solve (hessian_ score) (v3opp (gradient_ score)) in
  let delta_p_norm := v3norm delta_xytheta_p in
  if (delta_p_norm =? #0) || (delta_p_norm !=? delta_p_norm) then
    let this :=
      set_trans_probability_ (value_ score / points_size this) this in
    let this := set_converged_ (delta_p_norm =? delta_p_norm) this in
    let this := set_covariance_ m3identity this in
    let this := set_inform_matrix_ m3identity this in
    Some (ReturnFalse this)
  else
    (* delta_xytheta_p.normalize() *)
    let delta_xytheta_p := v3div delta_xytheta_p (v3norm delta_xytheta_p) in
    match
      computeStepLengthMT_v xytheta_p delta_xytheta_p delta_p_norm
        (step_size_ this) (transformation_epsilon_ this / #2) source_grid score
        target_grid param
    with
    | None => None
    | Some (delta_p_norm, delta_xytheta_p) =>
        let delta_xytheta_p := v3scale_r delta_xytheta_p delta_p_norm in
        let xytheta_p := v3add xytheta_p delta_xytheta_p in
        let p := vecToMat Float xytheta_p in
        let this := set_nr_iterations_ (nr_iterations_ this + 1) this in
        let this := set_previous_transformation_ (transformation_ this) this in
        let this := set_transformation_ p this in
        let this :=
          set_trans_probability_ (value_ score / points_size this) this in
        let this :=
          if (nr_iterations_ this >=? max_iterations_ this)%Z
             || (negb (nr_iterations_ this =? 0)%Z
                 && (sabs delta_p_norm <? transformation_epsilon_ this))
          then set_converged_ true this else this in
        Some (NextIteration this xytheta_p p score)
    end.

(** The [while (!converged_)] loop, entered with [converged_ = false]. *)
Fixpoint newton_while (fuel : nat) (this : D2D T)
    (source_grid target_grid : VoxelGridCovariance T) (param : FittingParams T)
    (xytheta_p : V3 T) : option NewtonStep :=
  match fuel with
  | O => None
  | S fuel' =>
      match newton_body this source_grid target_grid param xytheta_p with
      | None => None
      | Some (ReturnFalse this') => Some (ReturnFalse this')
      | Some (NextIteration this' xytheta_p' p score) =>
          if converged_ this' then Some (NextIteration this' xytheta_p' p score)
          else newton_while fuel' this' source_grid target_grid param xytheta_p'
      end
  end.

(** Iterations that always suffice: the counter reaches [max_iterations_]. *)
Definition newton_fuel (this : D2D T) : nat :=
  Z.to_nat (Z.max 1 (max_iterations_ this)).

(** [computeSingleGrid]: the returned flag, the value of [trans] (which the
    caller passes in) and the object. *)
Definition computeSingleGrid (this : D2D T) (source_grid : VoxelGridCovariance T)
    (guess : Mat4 T) (target_grid : VoxelGridCovariance T)
    (param : FittingParams T) (trans : Mat4 T)
    : option (bool * Mat4 T * D2D T) :=
  let this := set_nr_iterations_ 0 this in
  let this := set_converged_ false this in
  let this := set_final_transformation_ guess this in
  let this := set_previous_transformation_ (final_transformation_ this) this in
  let xytheta_p := matToVec Float guess in
  match
    newton_while (newton_fuel this) this source_grid target_grid param xytheta_p
  with
  | None => None
  | Some (ReturnFalse this) => Some (false, trans, this)
  | Some (NextIteration this _ p score) =>
      let trans := p in
      let this := set_covariance_ (hessian_ score) this in
      let this := set_inform_matrix_ (e_inverse (hessian_ score)) this in
      Some (true, trans, this)
  end.

(** The virtual [computeSingleGrid] that the schedule calls. *)
Variable computeSingleGrid_v :
  D2D T -> VoxelGridCovariance T -> Mat4 T -> VoxelGridCovariance T ->
  FittingParams T -> Mat4 T -> option (bool * Mat4 T * D2D T).

(** How the [for] loop over the resolutions ends. *)
Inductive ScheduleExit : Type :=
| ResolutionFailed (this : D2D T) (trans : Mat4 T)
| AllResolutionsDone (this : D2D T) (trans : Mat4 T).

(** The [for] loop of [computeTransformation] from index [i].  [None]: the
    fuel ran out before the loop ended, a callee ran out of fuel, or
    [params_[i]] is out of range. *)
Fixpoint resolutions_for (fuel i : nat) (this : D2D T) (trans : Mat4 T)
    : option ScheduleExit :=
  match nth_error (cell_sizes_ this) i with
  | None => Some (AllResolutionsDone this trans)
  | Some cell_size =>
      match fuel, nth_error (params_ this) i with
      | S fuel', Some param =>
          let target_grid := voxelize cell_size (target_ this) in
          let source_grid := voxelize cell_size (input_ this) in
          match
            computeSingleGrid_v this source_grid trans target_grid param trans
          with
          | None => None
          | Some (false, trans', this') => Some (ResolutionFailed this' trans')
          | Some (true, trans', this') => resolutions_for fuel' (S i) this' trans'
          end
      | _, _ => None
      end
  end.

(** [computeTransformation(output, guess)]: the object and [output]. *)
Definition computeTransformation (this : D2D T) (output : PointCloud T)
    (guess : Mat4 T) : option (D2D T * PointCloud T) :=
  let trans := guess in
  match resolutions_for (length (cell_sizes_ this)) 0 this trans with
  | None => None
  | Some (ResolutionFailed this _) => Some (set_converged_ false this, output)
  | Some (AllResolutionsDone this trans) =>
      let output := transformPointCloud (input_ this) trans in
      let this := set_final_transformation_ trans this in
      let this := set_converged_ true this in
      Some (this, output)
  end.

End Registration.

(** The class's own dispatch: every virtual call reaches the member of
    [D2DNormalDistributionsTransform2D] itself. *)
Section Dispatch.
Context {T : Type} `{Scalar T} `{Libm T} `{EigenOps T} `{PclOps T}.
Variable omp_thread : nat -> nat.

Definition D2D_calcScore :=
  calcScore computeDerivatives calcSourceCellScore omp_thread.
Definition D2D_computeStepLengthMT := computeStepLengthMT D2D_calcScore.
Definition D2D_computeSingleGrid :=
  computeSingleGrid D2D_calcScore D2D_computeStepLengthMT.
Definition D2D_computeTransformation :=
  computeTransformation D2D_computeSingleGrid.

End Dispatch.

(* ================================================================== *)
(** * The robust wrapper [D2DNormalDistributionsTransform2DRobust] *)
(* ================================================================== *)

(** The data members that [computeTransformation] uses; [C] is the type of
    the [CorrelativeEstimation] member. *)
Record D2DRobust (T C : Type) : Type := mkRobust {
  r_input_ : PointCloud T;
  r_target_ : PointCloud T;
  r_max_iterations_ : Z;
  r_converged_ : bool;
  r_final_transformation_ : Mat4 T;
  d2d_ : D2D T;
  corr_est_ : C;
  cell_size_ : T;
  r_trans_probability_ : T
}.
Arguments mkRobust {T C}.
Arguments r_input_ {T C} _.
Arguments r_target_ {T C} _.
Arguments r_max_iterations_ {T C} _.
Arguments r_converged_ {T C} _.
Arguments r_final_transformation_ {T C} _.
Arguments d2d_ {T C} _.
Arguments corr_est_ {T C} _.
Arguments cell_size_ {T C} _.
Arguments r_trans_probability_ {T C} _.

(** The interface of a [pcl::Registration] collaborator, with
    [align(output, guess)] returning the object and [output]. *)
Class RegistrationOps (T R : Type) : Type := {
  align : R -> PointCloud T -> Mat4 T -> R * PointCloud T;
  hasConverged : R -> bool;
  getFinalTransformation : R -> Mat4 T
}.

Section Robust.
Context {T C : Type} `{Scalar T} `{Libm T} `{PclOps T}.
(** [pcl::Registration::align] on the [d2d_] member, and the correlative
    estimator. *)
Context {d2d_ops : RegistrationOps T (D2D T)} {corr_ops : RegistrationOps T C}.
Local Open Scope scalar_scope.
Implicit Type this : D2DRobust T C.

Definition set_r_converged_ (v : bool) this : D2DRobust T C :=
  mkRobust (r_input_ this) (r_target_ this) (r_max_iterations_ this) v
    (r_final_transformation_ this) (d2d_ this) (corr_est_ this)
    (cell_size_ this) (r_trans_probability_ this).
Definition set_r_final_transformation_ (v : Mat4 T) this : D2DRobust T C :=
  mkRobust (r_input_ this) (r_target_ this) (r_max_iterations_ this)
    (r_converged_ this) v (d2d_ this) (corr_est_ this)
    (cell_size_ this) (r_trans_probability_ this).
Definition set_d2d_ (v : D2D T) this : D2DRobust T C :=
  mkRobust (r_input_ this) (r_target_ this) (r_max_iterations_ this)
    (r_converged_ this) (r_final_transformation_ this) v (corr_est_ this)
    (cell_size_ this) (r_trans_probability_ this).
Definition set_corr_est_ (v : C) this : D2DRobust T C :=
  mkRobust (r_input_ this) (r_target_ this) (r_max_iterations_ this)
    (r_converged_ this) (r_final_transformation_ this) (d2d_ this) v
    (cell_size_ this) (r_trans_probability_ this).
Definition set_cell_size_ (v : T) this : D2DRobust T C :=
  mkRobust (r_input_ this) (r_target_ this) (r_max_iterations_ this)
    (r_converged_ this) (r_final_transformation_ this) (d2d_ this)
    (corr_est_ this) v (r_trans_probability_ this).
Definition set_r_trans_probability_ (v : T) this : D2DRobust T C :=
  mkRobust (r_input_ this) (r_target_ this) (r_max_iterations_ this)
    (r_converged_ this) (r_final_transformation_ this) (d2d_ this)
    (corr_est_ this) (cell_size_ this) v.

(** The constructor, after the members' own constructors have run. *)
Definition D2DRobust_constructor this : D2DRobust T C :=
  let this := set_cell_size_ (snarrow (lit 25 100)) this in
  let this := set_r_trans_probability_ (snarrow #0) this in
  let this :=
    set_d2d_ (set_max_iterations_ (r_max_iterations_ this) (d2d_ this)) this in
  let cell_sizes := [snarrow #2; snarrow #1; snarrow (lit 5 10); snarrow (lit 25 100)] in
  let this := set_d2d_ (setCellSize_vector cell_sizes (d2d_ this)) this in
  set_d2d_ (set_max_iterations_ 10 (d2d_ this)) this.

(** [proofTransform]. *)
Definition proofTransform this (trans : Mat4 T) : T :=
  let output := transformPointCloud (r_input_ this) trans in
  lut_getScore (r_target_ this) (cell_size_ this) (lit 5 10) output.

(** How the robust branch of [computeTransformation] ends: by one of its
    [return] statements, or by falling through to the scoring. *)
Inductive RobustBranch : Type :=
| Returned (this : D2DRobust T C) (output : PointCloud T)
| FellThrough (this : D2DRobust T C) (output : PointCloud T) (first_trans : Mat4 T).

(** [computeTransformation(output, guess)]: the object and [output].
    [first_trans] is the indeterminate value of the local before its
    assignment. *)
Definition Robust_computeTransformation this (output : PointCloud T)
    (guess : Mat4 T) (first_trans : Mat4 T) : D2DRobust T C * PointCloud T :=
  let '(d2d, output) := align (d2d_ this) output guess in
  let this := set_d2d_ d2d this in
  let score := proofTransform this (getFinalTransformation (d2d_ this)) in
  let branch :=
    if negb (hasConverged (d2d_ this) && (score >? lit 7 10)) then
      let first_trans := getFinalTransformation (d2d_ this) in
      let '(corr, output) := align (corr_est_ this) output guess in
      let this := set_corr_est_ corr this in
      if negb (hasConverged (corr_est_ this)) then
        let this := set_r_converged_ false this in
        let this := set_r_final_transformation_ m4identity this in
        Returned this output
      else
        let '(d2d, output) :=
          align (d2d_ this) output (getFinalTransformation (corr_est_ this)) in
        let this := set_d2d_ d2d this in
        if negb (hasConverged (d2d_ this)) then
          let this := set_r_converged_ false this in
          let this := set_r_final_transformation_ m4identity this in
          Returned this output
        else FellThrough this output first_trans
    else FellThrough this output first_trans in
  match branch with
  | Returned this output => (this, output)
  | FellThrough this output first_trans =>
      let score2 := proofTransform this (getFinalTransformation (d2d_ this)) in
      let this :=
        if score2 <? lit 4 10 then
          if score >? lit 6 10 then
            let this := set_r_converged_ true this in
            set_r_final_transformation_ first_trans this
          else
            let this := set_r_converged_ false this in
            set_r_final_transformation_ m4identity this
        else
          let this := set_r_converged_ true this in
          set_r_final_transformation_ (getFinalTransformation (d2d_ this)) this in
      let output :=
        transformPointCloud (r_input_ this) (r_final_transformation_ this) in
      (this, output)
  end.

End Robust.

(* ================================================================== *)
(** * Facts of IEEE arithmetic used below *)
(* ================================================================== *)

Module IEEEFacts.
Import IEEE.
Local Open Scope float_scope.

(** The decimal literals of the code, as [lit] builds them. *)
Lemma literals :
  (lit 1 10 = 0.1 /\ lit 5 10 = 0.5 /\ lit 66 100 = 0.66 /\ lit 9 10 = 0.9
   /\ lit 1 10000 = 1e-4 /\ lit 55 100 = 0.55 /\ lit 25 100 = 0.25)
  /\ (lit 7 10 = 0.7 /\ lit 6 10 = 0.6 /\ lit 4 10 = 0.4).
Proof. repeat split; reflexivity. Qed.

Lemma SFcompare_antisym (x y : spec_float) :
  SFcompare y x = option_map CompOpp (SFcompare x y).
Proof.
  destruct x as [sx|sx| |sx mx ex], y as [sy|sy| |sy my ey]; cbn;
    try reflexivity;
    try (destruct sx; reflexivity); try (destruct sy; reflexivity);
    try (destruct sx, sy; reflexivity).
  destruct sx, sy; cbn; try reflexivity.
  - rewrite (Z.compare_antisym ex ey).
    destruct (ex ?= ey)%Z; cbn; try reflexivity.
    rewrite CompOpp_involutive. f_equal.
    exact (Pos.compare_cont_antisym my mx Eq).
  - rewrite (Z.compare_antisym ex ey).
    destruct (ex ?= ey)%Z; cbn; try reflexivity.
    f_equal. symmetry. exact (Pos.compare_cont_antisym mx my Eq).
Qed.

Lemma SFcompare_refl (x : spec_float) :
  x <> S754_nan -> SFcompare x x = Some Eq.
Proof.
  destruct x as [s|s| |s m e]; cbn; intros Hn; try congruence.
  - destruct s; reflexivity.
  - destruct s; rewrite Z.compare_refl;
      change (PosDef.Pos.compare_cont Eq m m) with (Pos.compare_cont Eq m m);
      rewrite Pos.compare_cont_refl; reflexivity.
Qed.

(** [x != x] holds of NaN only, and NaN is one value. *)
Lemma is_nan_spec (x : float) : is_nan x = true <-> Prim2SF x = S754_nan.
Proof.
  unfold is_nan. rewrite eqb_spec. unfold SFeqb. split.
  - intros Hx. destruct (Prim2SF x) eqn:E; try reflexivity;
      rewrite SFcompare_refl in Hx by discriminate; discriminate.
  - intros ->. reflexivity.
Qed.

Lemma nan_unique (x : float) : is_nan x = true -> x = nan.
Proof.
  intros Hx. apply is_nan_spec in Hx. apply Prim2SF_inj. rewrite Hx. reflexivity.
Qed.

(** Away from NaN the order is total: [x < y] is the negation of [y <= x]. *)
Lemma ltb_negb_leb (x y : float) :
  is_nan x = false -> is_nan y = false -> (x <? y) = negb (y <=? x).
Proof.
  intros Hx Hy.
  rewrite ltb_spec, leb_spec.
  unfold SFltb, SFleb. rewrite (SFcompare_antisym (Prim2SF x) (Prim2SF y)).
  destruct (SFcompare (Prim2SF x) (Prim2SF y)) as [[]|] eqn:E; try reflexivity.
  exfalso.
  destruct (Prim2SF x) eqn:Ex.
  1,2,4: destruct (Prim2SF y) eqn:Ey; try discriminate.
  - apply is_nan_spec in Ey. congruence.
  - apply is_nan_spec in Ey. congruence.
  - apply is_nan_spec in Ey. congruence.
  - apply is_nan_spec in Ex. congruence.
Qed.

Lemma leb_not_nan_r (x y : float) : (x <=? y) = true -> is_nan y = false.
Proof.
  intros Hle. destruct (is_nan y) eqn:E; [|reflexivity].
  apply is_nan_spec in E. rewrite leb_spec in Hle. unfold SFleb in Hle.
  rewrite E in Hle. destruct (Prim2SF x); discriminate.
Qed.

(** A value equal to zero is not NaN. *)
Lemma eqb_zero_not_nan (n : float) : (n =? 0) = true -> (n =? n) = true.
Proof.
  rewrite !eqb_spec. unfold SFeqb. intros Hz.
  rewrite SFcompare_refl; [reflexivity|].
  intros Hn. rewrite Hn in Hz. discriminate.
Qed.

(** A score above 0.7 is not below 0.4. *)
Lemma above_07_not_below_04 (s : float) :
  (0.7 <? s) = true -> (s <? 0.4) = false.
Proof.
  rewrite !ltb_spec. unfold SFltb.
  change (Prim2SF 0.7) with (S754_finite false 6305039478318694 (-53)).
  change (Prim2SF 0.4) with (S754_finite false 7205759403792794 (-54)).
  destruct (Prim2SF s) as [sx|sx| |sx mx ex].
  - cbn. discriminate.
  - cbn. destruct sx; [discriminate|reflexivity].
  - cbn. discriminate.
  - unfold SFcompare. destruct sx; [discriminate|].
    destruct (Z.compare_spec (-53) ex), (Z.compare_spec ex (-54));
      try lia; try discriminate; try reflexivity.
Qed.

(** NaN absorbs a product; the product of an infinity and zero is NaN. *)
Lemma mul_nan_l (x : float) : nan * x = nan.
Proof. apply Prim2SF_inj. rewrite mul_spec. reflexivity. Qed.

End IEEEFacts.

(* ================================================================== *)
(** * Stand-ins for the collaborators, used to run the code on examples *)
(* ================================================================== *)

Section EigenStandIn.
Context {T : Type} `{Scalar T}.
Local Open Scope scalar_scope.

(** The inverse of a 3x3 matrix by cofactors, with Eigen's test
    [abs(det) > 1e-12] for [invertible]. *)
Definition cofactor_inverse (M : Mat3 T) : Mat3 T * T * bool :=
  let a := fun i j => m3get i j M in
  let cof00 := a 1 1 * a 2 2 - a 1 2 * a 2 1 in
  let cof10 := a 0 2 * a 2 1 - a 0 1 * a 2 2 in
  let cof20 := a 0 1 * a 1 2 - a 0 2 * a 1 1 in
  let det := cof00 * a 0 0 + cof10 * a 1 0 + cof20 * a 2 0 in
  let invdet := #1 / det in
  (mkV3 (mkV3 (cof00 * invdet) (cof10 * invdet) (cof20 * invdet))
        (mkV3 ((a 1 2 * a 2 0 - a 1 0 * a 2 2) * invdet)
              ((a 0 0 * a 2 2 - a 0 2 * a 2 0) * invdet)
              ((a 0 2 * a 1 0 - a 0 0 * a 1 2) * invdet))
        (mkV3 ((a 1 0 * a 2 1 - a 1 1 * a 2 0) * invdet)
              ((a 0 1 * a 2 0 - a 0 0 * a 2 1) * invdet)
              ((a 0 0 * a 1 1 - a 0 1 * a 1 0) * invdet)),
   det, sabs det >? lit 1 1000000000000).

(** Eigen on the matrices of the examples: the rotation factor of a
    rotation matrix is the matrix; the least-squares solution is the
    solution of an invertible system and zero for the zero matrix. *)
Definition eigen_stand_in : EigenOps T := {|
  e_rotation := fun M => M;
  e_rotationf := fun M => M;
  e_inverse_check := cofactor_inverse;
  e_svd_solve := fun A b =>
    let '(inv, _, ok) := cofactor_inverse A in
    if ok then m3mulv inv b else v3zero;
  e_inverse := fun M => fst (fst (cofactor_inverse M))
|}.

End EigenStandIn.

Module Fixture.
Import IEEE.
Local Open Scope scalar_scope.

(** A C library reduced to the arguments at which the C standard fixes the
    result exactly (Annex F): [exp(+-0) = 1], [exp(-inf) = +0],
    [exp(+inf) = +inf], [log(1) = +0], [sin(+-0) = +-0], [cos(+-0) = 1],
    [atan2(+-0, x) = +-0] for [x > 0], [pow(x, +-0) = 1].  Elsewhere it
    answers NaN; the examples do not evaluate it there. *)
Definition exp_special (x : float) : float :=
  if x =? #0 then #1
  else if x =? PrimFloat.infinity then PrimFloat.infinity
  else if x =? PrimFloat.neg_infinity then #0
  else PrimFloat.nan.
Definition log_special (x : float) : float :=
  if x =? #1 then #0 else PrimFloat.nan.
Definition pow_special (x y : float) : float :=
  if y =? #0 then #1 else PrimFloat.nan.
Definition sin_special (x : float) : float :=
  if x =? #0 then x else PrimFloat.nan.
Definition cos_special (x : float) : float :=
  if x =? #0 then #1 else PrimFloat.nan.
Definition atan2_special (y x : float) : float :=
  if (y =? #0) && (x >? #0) then y else PrimFloat.nan.

Definition libm : Libm float := {|
  c_exp := exp_special;
  c_log := log_special;
  c_pow := pow_special;
  c_sin := sin_special;
  c_cos := cos_special;
  c_atan2 := atan2_special;
  c_sinf := sin_special;
  c_cosf := cos_special;
  c_atan2f := atan2_special
|}.

Definition eigen : EigenOps float := eigen_stand_in.

(** PCL on clouds of fewer than six points: every voxel is below
    [min_points_per_voxel_], so a filtered grid has no leaf.
    [transformPointCloud] maps each point by the affine transform.  The
    validator scores every hypothesis 1/2. *)
Definition pcl : PclOps float := {|
  voxelize := fun _ _ => mkGrid [] (fun _ _ => []);
  transformPointCloud := fun cloud M =>
    map (fun pt => v3map snarrow (transform_point M pt)) cloud;
  lut_getScore := fun _ _ _ _ => lit 1 2
|}.

(** A score function on poses for the line search: the parabola
    [value(x) = -(100 x0 - 1)^2] with its gradient. *)
Definition parabola_score (_ : FittingParams float)
    (_ : VoxelGridCovariance float) (x : V3 float)
    (_ : VoxelGridCovariance float) (_ : bool) : ScoreAndDerivatives float :=
  let r := #100 * c0 x - #1 in
  mkScore m3zero (mkV3 (#(-200) * r) #0 #0) (- (r * r)).

Definition empty_grid : VoxelGridCovariance float := mkGrid [] (fun _ _ => []).

End Fixture.

(* ================================================================== *)
(** * The line search *)
(* ================================================================== *)

Section LineSearchFacts.
Context {T : Type} `{Scalar T}.
Variable calcScore_v :
  FittingParams T -> VoxelGridCovariance T -> V3 T -> VoxelGridCovariance T ->
  bool -> ScoreAndDerivatives T.
Local Open Scope scalar_scope.

(** The body of the loop counts its runs. *)
Lemma MT_body_step_iterations x step_dir step_max step_min phi_0 d_phi_0 sg tg
    param (s : MTLocals) :
  mt_step_iterations
    (MT_body calcScore_v x step_dir step_max step_min phi_0 d_phi_0 sg tg param s)
  = (mt_step_iterations s + 1)%Z.
Proof.
  unfold MT_body.
  repeat match goal with
         | |- context [let '(_, _) := ?e in _] => destruct e
         end.
  reflexivity.
Qed.

(** The fuel [max_step_iterations] is enough: the loop ends by its own
    condition [step_iterations < max_step_iterations]. *)
Lemma MT_while_terminates x step_dir step_max step_min phi_0 d_phi_0 sg tg param
    (fuel : nat) (s : MTLocals) :
  (max_step_iterations <= mt_step_iterations s + Z.of_nat fuel)%Z ->
  MT_while calcScore_v x step_dir step_max step_min phi_0 d_phi_0 sg tg param
    fuel s <> None.
Proof.
  revert s. induction fuel as [|fuel IH]; intros s Hfuel; cbn.
  - destruct (MT_continue d_phi_0 s) eqn:E; [|discriminate].
    unfold MT_continue in E. apply andb_true_iff in E as [E _].
    apply andb_true_iff in E as [_ E]. apply Z.ltb_lt in E. lia.
  - destruct (MT_continue d_phi_0 s); [|discriminate].
    apply IH. rewrite MT_body_step_iterations. lia.
Qed.

(** [computeStepLengthMT] always returns. *)
Lemma computeStepLengthMT_total x step_dir step_init step_max step_min sg score
    tg param :
  computeStepLengthMT calcScore_v x step_dir step_init step_max step_min sg
    score tg param <> None.
Proof.
  unfold computeStepLengthMT, computeStepLengthMT_run.
  destruct (_ && _); [discriminate|].
  destruct (if _ : bool then _ else _) as [d_phi_0 dir].
  match goal with
  | |- context [MT_while ?c ?x ?d ?a ?b ?p ?dp ?sg ?tg ?pa ?f ?s] =>
      pose proof (MT_while_terminates x d a b p dp sg tg pa f s) as Ht;
      destruct (MT_while c x d a b p dp sg tg pa f s)
  end.
  - discriminate.
  - exfalso. apply Ht; [|reflexivity].
    unfold max_step_iterations. cbn [mt_step_iterations]. lia.
Qed.

(** When [step_max - step_min > 0] the flag [interval_converged] starts
    true and the [while] loop is not entered. *)
Lemma MT_while_skipped x step_dir step_max step_min phi_0 d_phi_0 sg tg param
    fuel (s : MTLocals) :
  mt_interval_converged s = true ->
  MT_while calcScore_v x step_dir step_max step_min phi_0 d_phi_0 sg tg param
    fuel s = Some s.
Proof.
  intros Hc. destruct fuel; cbn; unfold MT_continue; rewrite Hc; reflexivity.
Qed.

(** C1 (what the code does).  With [step_max - step_min > 0], the search
    returns the initial step clamped to [[step_min, step_max]] after zero
    iterations of the More-Thuente loop and one evaluation of the score,
    whether or not sufficient decrease and curvature hold there; only a
    vanishing directional derivative returns before that, with step 0. *)
Theorem computeStepLengthMT_skips_search x step_dir step_init step_max step_min
    sg score tg param :
  (step_max - step_min >? #0) = true ->
  let d_phi_0 := - (dot3 (gradient_ score) step_dir) in
  let a_t := std_max (std_min step_init step_max) step_min in
  if (d_phi_0 >=? #0) && (d_phi_0 =? #0) then
    computeStepLengthMT_run calcScore_v x step_dir step_init step_max step_min
      sg score tg param = Some (None, step_dir)
  else
    exists s step_dir',
      computeStepLengthMT_run calcScore_v x step_dir step_init step_max
        step_min sg score tg param = Some (Some s, step_dir')
      /\ mt_step_iterations s = 0%Z
      /\ mt_a_t s = a_t
      /\ step_dir' =
           (if d_phi_0 >=? #0 then v3scale_r step_dir #(-1) else step_dir)
      /\ mt_phi_t s =
           - value_ (calcScore_v param sg (v3add x (v3scale_r step_dir' a_t))
                       tg false).
Proof.
  intros Hgap d_phi_0 a_t. unfold computeStepLengthMT_run.
  fold d_phi_0.
  destruct ((d_phi_0 >=? #0) && (d_phi_0 =? #0)) eqn:E0; [reflexivity|].
  rewrite Hgap.
  destruct (d_phi_0 >=? #0) eqn:Ege.
  - rewrite MT_while_skipped by reflexivity.
    eexists _, _. repeat split; reflexivity.
  - rewrite MT_while_skipped by reflexivity.
    eexists _, _. repeat split; reflexivity.
Qed.

End LineSearchFacts.

Section LineSearchExample.
Import IEEE.
Local Open Scope float_scope.

(** The default configuration ([step_size_ = 0.1],
    [transformation_epsilon_ / 2 = 0.05]) on a score whose minimum along the
    direction lies at step 0.01: the returned step is 0.1. *)
Lemma computeStepLengthMT_skips_search_witness :
  let x := mkV3 0 0 0 in
  let dir := mkV3 1 0 0 in
  let score := Fixture.parabola_score (mkFittingParams 0 0 0)
                 Fixture.empty_grid x Fixture.empty_grid true in
  (0.1 - 0.05 >? 0)%S = true /\
  exists s,
    computeStepLengthMT_run Fixture.parabola_score x dir 1 0.1 0.05
      Fixture.empty_grid score Fixture.empty_grid (mkFittingParams 0 0 0)
    = Some (Some s, dir)
    /\ mt_step_iterations s = 0%Z /\ mt_a_t s = 0.1%float.
Proof.
  intros x dir score. split; [reflexivity|].
  pose proof (computeStepLengthMT_skips_search Fixture.parabola_score
                x dir 1 0.1 0.05 Fixture.empty_grid score Fixture.empty_grid
                (mkFittingParams 0 0 0) eq_refl) as Hs.
  cbv zeta in Hs.
  change ((- dot3 (gradient_ score) dir >=? #0)%S
          && (- dot3 (gradient_ score) dir =? #0)%S) with false in Hs.
  cbv iota in Hs.
  destruct Hs as (s & dir' & Hrun & Hit & Hat & Hdir & _).
  exists s. rewrite Hrun, Hit, Hat, Hdir. repeat split.
Defined.

(** At that input the returned step fails the sufficient-decrease test
    ([psi_t = 80.002 > 0], the score got worse: [phi] went from 1 to 81), and
    no More-Thuente iteration was made although [step_max > step_min]. *)
Example computeStepLengthMT_returns_unaccepted_step :
  let x := mkV3 0 0 0 in
  let dir := mkV3 1 0 0 in
  let score := Fixture.parabola_score (mkFittingParams 0 0 0)
                 Fixture.empty_grid x Fixture.empty_grid true in
  exists s,
    computeStepLengthMT_run Fixture.parabola_score x dir 1 0.1 0.05
      Fixture.empty_grid score Fixture.empty_grid (mkFittingParams 0 0 0)
    = Some (Some s, dir)
    /\ mt_a_t s = 0.1%float
    /\ mt_step_iterations s = 0%Z
    /\ (mt_psi_t s <=? 0)%float = false
    /\ (- value_ score)%float = 1%float /\ mt_phi_t s = 81%float.
Proof.
  intros x dir score. eexists. split; [vm_compute; reflexivity|].
  repeat split.
Qed.

End LineSearchExample.

(* ================================================================== *)
(** * The Newton loop of [computeSingleGrid] *)
(* ================================================================== *)

Section NewtonFacts.
Context {T : Type} `{Scalar T} `{Libm T} `{EigenOps T} `{PclOps T}.
Variable calcScore_v :
  FittingParams T -> VoxelGridCovariance T -> V3 T -> VoxelGridCovariance T ->
  bool -> ScoreAndDerivatives T.
Variable computeStepLengthMT_v :
  V3 T -> V3 T -> T -> T -> T -> VoxelGridCovariance T ->
  ScoreAndDerivatives T -> VoxelGridCovariance T -> FittingParams T ->
  option (T * V3 T).
Variables (source_grid target_grid : VoxelGridCovariance T).
Variable param : FittingParams T.
Local Open Scope scalar_scope.

Local Abbreviation body := (newton_body calcScore_v computeStepLengthMT_v).
Local Abbreviation while := (newton_while calcScore_v computeStepLengthMT_v).

(** The object when the [while] loop is entered. *)
Definition computeSingleGrid_entry (this : D2D T) (guess : Mat4 T) : D2D T :=
  let this := set_nr_iterations_ 0 this in
  let this := set_converged_ false this in
  let this := set_final_transformation_ guess this in
  set_previous_transformation_ (final_transformation_ this) this.

(** The loop head after [k] runs of the body that neither returned nor
    set [converged_]: the object and the pose. *)
Fixpoint newton_iterate (k : nat) (this : D2D T) (xytheta_p : V3 T)
    : option (D2D T * V3 T) :=
  match k with
  | O => Some (this, xytheta_p)
  | S k' =>
      match body this source_grid target_grid param xytheta_p with
      | Some (NextIteration this' xytheta_p' _ _) =>
          if converged_ this' then None
          else newton_iterate k' this' xytheta_p'
      | _ => None
      end
  end.

(** The members that a run of the body leaves alone. *)
Definition same_configuration (this this' : D2D T) : Prop :=
  input_ this' = input_ this /\ target_ this' = target_ this
  /\ max_iterations_ this' = max_iterations_ this
  /\ final_transformation_ this' = final_transformation_ this
  /\ transformation_epsilon_ this' = transformation_epsilon_ this
  /\ cell_sizes_ this' = cell_sizes_ this /\ step_size_ this' = step_size_ this
  /\ outlier_ratio_ this' = outlier_ratio_ this /\ params_ this' = params_ this
  /\ layer_count_ this' = layer_count_ this.

Lemma same_configuration_refl this : same_configuration this this.
Proof. repeat split. Qed.

Lemma same_configuration_trans this1 this2 this3 :
  same_configuration this1 this2 -> same_configuration this2 this3 ->
  same_configuration this1 this3.
Proof.
  unfold same_configuration. intros H12 H23.
  decompose [and] H12. decompose [and] H23. repeat split; congruence.
Qed.

Lemma newton_body_ReturnFalse_frame this x this' :
  body this source_grid target_grid param x = Some (ReturnFalse this') ->
  same_configuration this this' /\ nr_iterations_ this' = nr_iterations_ this.
Proof.
  unfold newton_body.
  destruct (_ || _).
  - intros [= <-]. split; [repeat split|reflexivity].
  - destruct (computeStepLengthMT_v _ _ _ _ _ _ _ _ _) as [[? ?]|]; discriminate.
Qed.

Lemma newton_body_NextIteration_frame this x this' x' p score :
  body this source_grid target_grid param x
    = Some (NextIteration this' x' p score) ->
  same_configuration this this'
  /\ nr_iterations_ this' = (nr_iterations_ this + 1)%Z
  /\ score = calcScore_v param source_grid x target_grid true
  /\ (converged_ this' = false ->
      (nr_iterations_ this' < max_iterations_ this')%Z).
Proof.
  unfold newton_body.
  destruct (_ || _); [discriminate|].
  destruct (computeStepLengthMT_v _ _ _ _ _ _ _ _ _) as [[a dir]|];
    [|discriminate].
  intros [= <- <- <- <-]. cbn.
  destruct ((nr_iterations_ this + 1 >=? max_iterations_ this)%Z) eqn:Emax; cbn.
  - repeat split. intros [=].
  - destruct (negb _ && _); cbn.
    + repeat split. intros [=].
    + repeat split. intros _. rewrite Z.geb_leb in Emax.
      apply Z.leb_gt in Emax. exact Emax.
Qed.

Lemma newton_iterate_frame k : forall this x this_k x_k,
  newton_iterate k this x = Some (this_k, x_k) ->
  same_configuration this this_k
  /\ nr_iterations_ this_k = (nr_iterations_ this + Z.of_nat k)%Z
  /\ ((0 < k)%nat ->
      converged_ this_k = false
      /\ (nr_iterations_ this_k < max_iterations_ this_k)%Z).
Proof.
  induction k as [|k IH]; intros this x this_k x_k; cbn.
  - intros [= <- <-]. split; [apply same_configuration_refl|].
    split; [lia|]. intros Hk. inversion Hk.
  - destruct (body this source_grid target_grid param x)
      as [[this1|this1 x1 p1 score1]|] eqn:Eb; try discriminate.
    destruct (converged_ this1) eqn:Ec; [discriminate|].
    intros Hk.
    apply newton_body_NextIteration_frame in Eb as (Hsame1 & Hnr1 & _ & Hlt1).
    destruct k as [|k'].
    + cbn in Hk. injection Hk as <- <-.
      split; [exact Hsame1|]. split; [cbn; lia|].
      intros _. split; [exact Ec|]. apply Hlt1; assumption.
    + apply IH in Hk as (Hsame & Hnr & Hlt).
      split; [eapply same_configuration_trans; eassumption|].
      split; [lia|].
      intros _. apply Hlt; lia.
Qed.

(** Running the loop from the start is running it from any loop head it
    reaches. *)
Lemma newton_while_iterate k : forall fuel this x this_k x_k,
  newton_iterate k this x = Some (this_k, x_k) ->
  while (k + fuel) this source_grid target_grid param x
  = while fuel this_k source_grid target_grid param x_k.
Proof.
  induction k as [|k IH]; intros fuel this x this_k x_k; cbn [newton_iterate].
  - intros [= <- <-]. reflexivity.
  - destruct (body this source_grid target_grid param x)
      as [[this1|this1 x1 p1 score1]|] eqn:Eb; try discriminate.
    destruct (converged_ this1) eqn:Ec; [discriminate|].
    intros Hk. cbn [Nat.add newton_while]. rewrite Eb, Ec.
    apply IH. exact Hk.
Qed.

(** The members that the whole loop leaves alone. *)
Lemma newton_while_frame fuel : forall this x r,
  while fuel this source_grid target_grid param x = Some r ->
  match r with
  | ReturnFalse this' => same_configuration this this'
  | NextIteration this' _ _ _ => same_configuration this this'
  end.
Proof.
  induction fuel as [|fuel IH]; intros this x r; cbn; [discriminate|].
  destruct (body this source_grid target_grid param x)
    as [[this1|this1 x1 p1 score1]|] eqn:Eb; try discriminate.
  - intros [= <-]. apply newton_body_ReturnFalse_frame in Eb. apply Eb.
  - apply newton_body_NextIteration_frame in Eb as (Hsame1 & _).
    destruct (converged_ this1).
    + intros [= <-]. exact Hsame1.
    + intros Hw. apply IH in Hw.
      destruct r; eapply same_configuration_trans; eassumption.
Qed.

(** The fuel of [computeSingleGrid] is enough when the line search
    returns: the counter reaches [max_iterations_]. *)
Lemma newton_while_total :
  (forall x d a b c sg sc tg pa,
      computeStepLengthMT_v x d a b c sg sc tg pa <> None) ->
  forall fuel this x,
    (nr_iterations_ this < Z.max 1 (max_iterations_ this))%Z ->
    (Z.max 1 (max_iterations_ this) <= nr_iterations_ this + Z.of_nat fuel)%Z ->
    while fuel this source_grid target_grid param x <> None.
Proof.
  intros Hls. induction fuel as [|fuel IH]; intros this x Hnr Hfuel.
  - exfalso. lia.
  - cbn [newton_while].
    destruct (body this source_grid target_grid param x)
      as [[this1|this1 x1 p1 score1]|] eqn:Eb.
    + discriminate.
    + destruct (converged_ this1) eqn:Ec; [discriminate|].
      apply newton_body_NextIteration_frame in Eb
        as ((_ & _ & Hmax & _) & Hnr1 & _ & Hlt1).
      apply IH; rewrite ?Hmax in *; specialize (Hlt1 Ec); lia.
    + exfalso. unfold newton_body in Eb.
      destruct (_ || _); [discriminate|].
      match type of Eb with
      | context [computeStepLengthMT_v ?x ?d ?a ?b ?c ?sg ?sc ?tg ?pa] =>
          pose proof (Hls x d a b c sg sc tg pa) as Hn;
          destruct (computeStepLengthMT_v x d a b c sg sc tg pa) as [[? ?]|]
      end; [discriminate|congruence].
Qed.

(** What the body does when the norm of the Newton step is zero or is not
    equal to itself. *)
Lemma newton_body_abort this x :
  let score := calcScore_v param source_grid x target_grid true in
  let n := v3norm (e_svd_solve (hessian_ score) (v3opp (gradient_ score))) in
  (n =? #0) || (n !=? n) = true ->
  body this source_grid target_grid param x
  = Some (ReturnFalse
            (set_inform_matrix_ m3identity
               (set_covariance_ m3identity
                  (set_converged_ (n =? n)
                     (set_trans_probability_ (value_ score / points_size this)
                        this))))).
Proof.
  intros score n Hn. unfold newton_body. fold score. fold n. rewrite Hn.
  reflexivity.
Qed.

(** A zero or NaN step in the iteration after [k] full ones makes
    [computeSingleGrid] return false and leave [trans] alone. *)
Lemma computeSingleGrid_abort this guess trans k this_k x_k :
  newton_iterate k (computeSingleGrid_entry this guess) (matToVec Float guess)
    = Some (this_k, x_k) ->
  let score := calcScore_v param source_grid x_k target_grid true in
  let n := v3norm (e_svd_solve (hessian_ score) (v3opp (gradient_ score))) in
  (n =? #0) || (n !=? n) = true ->
  computeSingleGrid calcScore_v computeStepLengthMT_v this source_grid guess
    target_grid param trans
  = Some (false, trans,
          set_inform_matrix_ m3identity
            (set_covariance_ m3identity
               (set_converged_ (n =? n)
                  (set_trans_probability_ (value_ score / points_size this_k)
                     this_k)))).
Proof.
  intros Hk score n Hn. unfold computeSingleGrid.
  fold (computeSingleGrid_entry this guess).
  pose proof (newton_iterate_frame _ _ _ _ _ Hk) as (Hsame & Hnr & Hlt).
  assert (exists fuel, newton_fuel (computeSingleGrid_entry this guess)
                       = (k + S fuel)%nat) as [fuel ->].
  { unfold newton_fuel.
    destruct Hsame as (_ & _ & Hmax & _). cbn in Hnr.
    destruct k as [|k'].
    - exists (Z.to_nat (Z.max 1 (max_iterations_ (computeSingleGrid_entry this guess))) - 1)%nat.
      lia.
    - destruct Hlt as [_ Hlt]; [lia|]. rewrite Hmax in Hlt.
      exists (Z.to_nat (Z.max 1 (max_iterations_ (computeSingleGrid_entry this guess)))
              - S (S k'))%nat.
      lia. }
  rewrite (newton_while_iterate _ _ _ _ _ _ Hk).
  cbn [newton_while]. rewrite (newton_body_abort this_k x_k Hn).
  reflexivity.
Qed.

(** What a failed [computeSingleGrid] leaves: [trans] as it was,
    [final_transformation_] equal to the guess it was entered with. *)
Lemma computeSingleGrid_false_frame this guess trans trans' this' :
  computeSingleGrid calcScore_v computeStepLengthMT_v this source_grid guess
    target_grid param trans = Some (false, trans', this') ->
  trans' = trans /\ final_transformation_ this' = guess
  /\ input_ this' = input_ this /\ cell_sizes_ this' = cell_sizes_ this
  /\ params_ this' = params_ this /\ target_ this' = target_ this.
Proof.
  unfold computeSingleGrid. fold (computeSingleGrid_entry this guess).
  destruct (while _ _ _ _ _ _) as [[this1|this1 x1 p1 score1]|] eqn:Ew;
    try discriminate.
  intros [= <- <-]. apply newton_while_frame in Ew.
  destruct Ew as (Hi & Ht & _ & Hf & _ & Hc & _ & _ & Hp & _).
  cbn in *. repeat split; assumption.
Qed.

Lemma computeSingleGrid_true_frame this guess trans trans' this' :
  computeSingleGrid calcScore_v computeStepLengthMT_v this source_grid guess
    target_grid param trans = Some (true, trans', this') ->
  input_ this' = input_ this /\ cell_sizes_ this' = cell_sizes_ this
  /\ params_ this' = params_ this /\ target_ this' = target_ this.
Proof.
  unfold computeSingleGrid. fold (computeSingleGrid_entry this guess).
  destruct (while _ _ _ _ _ _) as [[this1|this1 x1 p1 score1]|] eqn:Ew;
    try discriminate.
  intros [= <- <-]. apply newton_while_frame in Ew.
  destruct Ew as (Hi & Ht & _ & Hf & _ & Hc & _ & _ & Hp & _).
  cbn in *. repeat split; assumption.
Qed.

(** [computeSingleGrid] returns whenever the line search does. *)
Lemma computeSingleGrid_total this guess trans :
  (forall x d a b c sg sc tg pa,
      computeStepLengthMT_v x d a b c sg sc tg pa <> None) ->
  computeSingleGrid calcScore_v computeStepLengthMT_v this source_grid guess
    target_grid param trans <> None.
Proof.
  intros Hls. unfold computeSingleGrid.
  fold (computeSingleGrid_entry this guess).
  pose proof (newton_while_total Hls
                (newton_fuel (computeSingleGrid_entry this guess))
                (computeSingleGrid_entry this guess) (matToVec Float guess)) as Hw.
  destruct (while _ _ _ _ _ _) as [[this1|this1 x1 p1 score1]|];
    try discriminate.
  exfalso. apply Hw; [| |reflexivity]; unfold newton_fuel; cbn; lia.
Qed.

End NewtonFacts.

Section InsufficientOverlap.
Import IEEE.
Context `{Libm float} `{EigenOps float} `{PclOps float}.
Variable calcScore_v :
  FittingParams float -> VoxelGridCovariance float -> V3 float ->
  VoxelGridCovariance float -> bool -> ScoreAndDerivatives float.
Variable computeStepLengthMT_v :
  V3 float -> V3 float -> float -> float -> float -> VoxelGridCovariance float ->
  ScoreAndDerivatives float -> VoxelGridCovariance float -> FittingParams float ->
  option (float * V3 float).
Local Open Scope float_scope.

(** C2.  Whatever Newton iteration of [computeSingleGrid] it happens in
    (the one after [k] full iterations, at the object [this_k] and the pose
    [x_k] reached then): if the norm [n] of the solved step is zero or NaN,
    [computeSingleGrid] returns false and leaves [trans] alone; the
    covariance and the information matrix are the identity; the
    transformation probability is the score value of that iteration divided
    by the number of source points; [converged_] is true when [n == 0] and
    false when [n] is NaN. *)
Theorem computeSingleGrid_insufficient_overlap
    (this : D2D float) (source_grid target_grid : VoxelGridCovariance float)
    (param : FittingParams float) (guess trans : Mat4 float)
    (k : nat) (this_k : D2D float) (x_k : V3 float) :
  newton_iterate calcScore_v computeStepLengthMT_v source_grid target_grid param
    k (computeSingleGrid_entry this guess) (matToVec Float guess)
    = Some (this_k, x_k) ->
  let score := calcScore_v param source_grid x_k target_grid true in
  let n := v3norm (e_svd_solve (hessian_ score) (v3opp (gradient_ score))) in
  (n =? 0) = true \/ is_nan n = true ->
  exists this',
    computeSingleGrid calcScore_v computeStepLengthMT_v this source_grid guess
      target_grid param trans = Some (false, trans, this')
    /\ ((n =? 0) = true -> converged_ this' = true)
    /\ (is_nan n = true -> converged_ this' = false)
    /\ covariance_ this' = m3identity
    /\ inform_matrix_ this' = m3identity
    /\ trans_probability_ this'
       = value_ score / sofZ (Z.of_nat (length (input_ this)))
    /\ final_transformation_ this' = guess
    /\ nr_iterations_ this' = Z.of_nat k.
Proof.
  intros Hk score n Hn.
  assert (((n =? #0) || (n !=? n))%S = true) as Hcond.
  { destruct Hn as [Hz|Hnan].
    - change ((n =? #0)%S) with (n =? 0). rewrite Hz. reflexivity.
    - change ((n !=? n)%S) with (is_nan n). rewrite Hnan. apply orb_true_r. }
  pose proof (computeSingleGrid_abort calcScore_v computeStepLengthMT_v
                source_grid target_grid param this guess trans k this_k x_k
                Hk Hcond) as Hrun.
  pose proof (newton_iterate_frame _ _ _ _ _ _ _ _ _ _ Hk)
    as ((Hin & _ & _ & Hfin & _) & Hnr & _).
  eexists. split; [exact Hrun|]. cbn.
  split; [intros Hz; apply IEEEFacts.eqb_zero_not_nan; exact Hz|].
  split; [intros Hnan; unfold is_nan in Hnan;
          apply negb_true_iff in Hnan; exact Hnan|].
  split; [reflexivity|]. split; [reflexivity|].
  split; [unfold points_size; rewrite Hin; reflexivity|].
  split; [rewrite Hfin; reflexivity|].
  rewrite Hnr. cbn. reflexivity.
Qed.

End InsufficientOverlap.

(** An object, a cloud of three points and a pose for the examples: the
    default configuration with the four cell sizes 2, 1, 0.5, 0.25 and the
    fitting parameters of the coarsest one repeated. *)
Module Example.
Import IEEE.
Local Open Scope float_scope.

Definition cloud : PointCloud float :=
  [mkV3 0 0 0; mkV3 1 0 0; mkV3 0 1 0].

Definition param : FittingParams float :=
  mkFittingParams (-1.11365016603265) 0.644750479502248 0.322375239751124.

Definition d2d : D2D float :=
  mkD2D cloud cloud 0 35 m4identity m4identity m4identity 0.1 false
    [2; 1; 0.5; 0.25] 0.1 0.55 [param; param; param; param] 0
    m3zero m3zero 4.

Definition one_thread (cell_id : nat) : nat := 0.

End Example.

Section InsufficientOverlapExample.
Import IEEE.
#[local] Existing Instance Fixture.libm.
#[local] Existing Instance Fixture.eigen.
#[local] Existing Instance Fixture.pcl.
Local Open Scope float_scope.

(** Clouds too small to fill a voxel: the grids are empty, the score and
    its gradient are zero, and the first Newton step has norm zero. *)
Lemma computeSingleGrid_insufficient_overlap_witness :
  let calc := D2D_calcScore Example.one_thread in
  let search := D2D_computeStepLengthMT Example.one_thread in
  let grid := voxelize 2 Example.cloud in
  let score := calc Example.param grid (matToVec Float m4identity) grid true in
  let n := v3norm (e_svd_solve (hessian_ score) (v3opp (gradient_ score))) in
  newton_iterate calc search grid grid Example.param 0
    (computeSingleGrid_entry Example.d2d m4identity) (matToVec Float m4identity)
  = Some (computeSingleGrid_entry Example.d2d m4identity,
          matToVec Float m4identity)
  /\ ((n =? 0) = true \/ is_nan n = true)
  /\ exists this',
       computeSingleGrid calc search Example.d2d grid m4identity grid
         Example.param m4identity = Some (false, m4identity, this')
       /\ converged_ this' = true
       /\ covariance_ this' = m3identity
       /\ inform_matrix_ this' = m3identity
       /\ trans_probability_ this' = 0 / 3.
Proof.
  intros calc search grid score n.
  assert ((n =? 0) = true) as Hz by (vm_compute; reflexivity).
  split; [reflexivity|]. split; [left; exact Hz|].
  pose proof (computeSingleGrid_insufficient_overlap calc search Example.d2d
                grid grid Example.param m4identity m4identity 0
                (computeSingleGrid_entry Example.d2d m4identity)
                (matToVec Float m4identity) eq_refl) as Hthm.
  cbv zeta in Hthm.
  destruct (Hthm (or_introl Hz))
    as (this' & Hrun & Hzero & _ & Hcov & Hinf & Hprob & _).
  exists this'. split; [exact Hrun|]. split; [apply Hzero; exact Hz|].
  split; [exact Hcov|]. split; [exact Hinf|].
  rewrite Hprob. vm_compute. reflexivity.
Defined.

End InsufficientOverlapExample.

(* ================================================================== *)
(** * The multi-resolution schedule of [computeTransformation] *)
(* ================================================================== *)

Section ScheduleFacts.
Context {T : Type} `{Scalar T} `{Libm T} `{EigenOps T} `{PclOps T}.
Variable calcScore_v :
  FittingParams T -> VoxelGridCovariance T -> V3 T -> VoxelGridCovariance T ->
  bool -> ScoreAndDerivatives T.
Variable computeStepLengthMT_v :
  V3 T -> V3 T -> T -> T -> T -> VoxelGridCovariance T ->
  ScoreAndDerivatives T -> VoxelGridCovariance T -> FittingParams T ->
  option (T * V3 T).

Local Abbreviation single_grid :=
  (computeSingleGrid calcScore_v computeStepLengthMT_v).

(** The object and the pose [trans] after the resolutions [i .. i+k-1],
    when each of them succeeded. *)
Fixpoint resolutions_prefix (k i : nat) (this : D2D T) (trans : Mat4 T)
    : option (D2D T * Mat4 T) :=
  match k with
  | O => Some (this, trans)
  | S k' =>
      match nth_error (cell_sizes_ this) i, nth_error (params_ this) i with
      | Some cell_size, Some param =>
          match
            single_grid this (voxelize cell_size (input_ this)) trans
              (voxelize cell_size (target_ this)) param trans
          with
          | Some (true, trans', this') => resolutions_prefix k' (S i) this' trans'
          | _ => None
          end
      | _, _ => None
      end
  end.

Lemma resolutions_prefix_frame k : forall i this trans this_k trans_k,
  resolutions_prefix k i this trans = Some (this_k, trans_k) ->
  input_ this_k = input_ this /\ cell_sizes_ this_k = cell_sizes_ this
  /\ params_ this_k = params_ this /\ target_ this_k = target_ this.
Proof.
  induction k as [|k IH]; intros i this trans this_k trans_k; cbn.
  - intros [= <- <-]. repeat split.
  - destruct (nth_error (cell_sizes_ this) i) as [cs|]; [|discriminate].
    destruct (nth_error (params_ this) i) as [pa|]; [|discriminate].
    destruct (single_grid _ _ _ _ _ _) as [[[[] trans1] this1]|] eqn:Es;
      try discriminate.
    intros Hk. apply IH in Hk as (Hi & Hc & Hp & Ht).
    apply computeSingleGrid_true_frame in Es as (Hi1 & Hc1 & Hp1 & Ht1).
    repeat split; congruence.
Qed.

(** The loop over the resolutions continues from where a successful prefix
    leaves it. *)
Lemma resolutions_for_prefix k : forall fuel i this trans this_k trans_k,
  resolutions_prefix k i this trans = Some (this_k, trans_k) ->
  resolutions_for single_grid (k + fuel) i this trans
  = resolutions_for single_grid fuel (i + k) this_k trans_k.
Proof.
  induction k as [|k IH]; intros fuel i this trans this_k trans_k; cbn.
  - intros [= <- <-]. rewrite Nat.add_0_r. reflexivity.
  - destruct (nth_error (cell_sizes_ this) i) as [cs|]; [|discriminate].
    destruct (nth_error (params_ this) i) as [pa|]; [|discriminate].
    destruct (single_grid _ _ _ _ _ _) as [[[[] trans1] this1]|] eqn:Es;
      try discriminate.
    intros Hk. rewrite (IH _ _ _ _ _ _ Hk). f_equal. lia.
Qed.

(** C10.  When the resolutions before index [k] succeed, leaving the pose
    [trans_k] (the guess when [k = 0]), and [computeSingleGrid] returns
    false at resolution [k], then [computeTransformation] returns with
    [converged_] false, the output cloud as it was, and
    [final_transformation_] equal to [trans_k], the pose that resolution was
    entered with. *)
Theorem computeTransformation_failed_resolution
    (this : D2D T) (output : PointCloud T) (guess : Mat4 T)
    (k : nat) (this_k : D2D T) (trans_k : Mat4 T)
    (cell_size : T) (param : FittingParams T)
    (trans' : Mat4 T) (this_f : D2D T) :
  resolutions_prefix k 0 this guess = Some (this_k, trans_k) ->
  nth_error (cell_sizes_ this_k) k = Some cell_size ->
  nth_error (params_ this_k) k = Some param ->
  single_grid this_k (voxelize cell_size (input_ this_k)) trans_k
    (voxelize cell_size (target_ this_k)) param trans_k
  = Some (false, trans', this_f) ->
  computeTransformation single_grid this output guess
  = Some (set_converged_ false this_f, output)
  /\ converged_ (set_converged_ false this_f) = false
  /\ final_transformation_ (set_converged_ false this_f) = trans_k
  /\ (k = 0%nat -> trans_k = guess).
Proof.
  intros Hk Hcs Hpa Hfail.
  pose proof (resolutions_prefix_frame _ _ _ _ _ _ Hk) as (_ & Hc & _ & _).
  assert (k < length (cell_sizes_ this))%nat as Hlen.
  { rewrite <- Hc. apply nth_error_Some. congruence. }
  split.
  - unfold computeTransformation.
    replace (length (cell_sizes_ this))
      with (k + S (length (cell_sizes_ this) - S k))%nat by lia.
    rewrite (resolutions_for_prefix _ _ _ _ _ _ _ Hk).
    cbn [resolutions_for Nat.add]. rewrite Hcs, Hpa, Hfail. reflexivity.
  - split; [reflexivity|]. split.
    + apply computeSingleGrid_false_frame in Hfail as (_ & Hfin & _).
      cbn. exact Hfin.
    + intros ->. cbn in Hk. congruence.
Qed.

(** When every resolution succeeds the output is the transformed input and
    [converged_] is true. *)
Lemma computeTransformation_all_resolutions (this : D2D T)
    (output : PointCloud T) (guess : Mat4 T) this_n trans_n :
  resolutions_prefix (length (cell_sizes_ this)) 0 this guess
    = Some (this_n, trans_n) ->
  computeTransformation single_grid this output guess
  = Some (set_converged_ true (set_final_transformation_ trans_n this_n),
          transformPointCloud (input_ this_n) trans_n).
Proof.
  intros Hk. unfold computeTransformation.
  pose proof (resolutions_prefix_frame _ _ _ _ _ _ Hk) as (_ & Hc & _ & _).
  replace (length (cell_sizes_ this))
    with (length (cell_sizes_ this) + 0)%nat at 1 by lia.
  rewrite (resolutions_for_prefix _ _ _ _ _ _ _ Hk). cbn [Nat.add].
  assert (nth_error (cell_sizes_ this_n) (length (cell_sizes_ this)) = None)
    as Hnone by (apply nth_error_None; rewrite Hc; lia).
  cbn. rewrite Hnone. reflexivity.
Qed.

End ScheduleFacts.

Section ScheduleExample.
Import IEEE.
#[local] Existing Instance Fixture.libm.
#[local] Existing Instance Fixture.eigen.
#[local] Existing Instance Fixture.pcl.
Local Open Scope float_scope.

(** A guess that is not the identity (a translation by (1, 2)) on clouds
    too small to fill a voxel: the coarsest resolution fails, the output
    stays as it was and [final_transformation_] is the guess. *)
Definition translated_guess : Mat4 float :=
  mkV4 (mkV4 1 0 0 1) (mkV4 0 1 0 2) (mkV4 0 0 1 0) (mkV4 0 0 0 1).

(** The object that the failed coarsest resolution leaves. *)
Definition failed_at_coarsest : D2D float :=
  Eval vm_compute in
    match
      computeSingleGrid (D2D_calcScore Example.one_thread)
        (D2D_computeStepLengthMT Example.one_thread) Example.d2d
        (voxelize 2 (input_ Example.d2d)) translated_guess
        (voxelize 2 (target_ Example.d2d)) Example.param translated_guess
    with
    | Some (_, _, this') => this'
    | None => Example.d2d
    end.

Lemma computeTransformation_failed_resolution_witness :
  let calc := D2D_calcScore Example.one_thread in
  let search := D2D_computeStepLengthMT Example.one_thread in
  resolutions_prefix calc search 0 0 Example.d2d translated_guess
    = Some (Example.d2d, translated_guess)
  /\ nth_error (cell_sizes_ Example.d2d) 0 = Some 2
  /\ nth_error (params_ Example.d2d) 0 = Some Example.param
  /\ computeSingleGrid calc search Example.d2d
       (voxelize 2 (input_ Example.d2d)) translated_guess
       (voxelize 2 (target_ Example.d2d)) Example.param translated_guess
     = Some (false, translated_guess, failed_at_coarsest)
  /\ D2D_computeTransformation Example.one_thread Example.d2d [] translated_guess
     = Some (set_converged_ false failed_at_coarsest, [])
  /\ final_transformation_ (set_converged_ false failed_at_coarsest)
     = translated_guess.
Proof.
  intros calc search.
  assert (computeSingleGrid calc search Example.d2d
            (voxelize 2 (input_ Example.d2d)) translated_guess
            (voxelize 2 (target_ Example.d2d)) Example.param translated_guess
          = Some (false, translated_guess, failed_at_coarsest)) as Hfail
    by (vm_compute; reflexivity).
  split; [reflexivity|]. split; [reflexivity|]. split; [reflexivity|].
  split; [exact Hfail|].
  destruct (computeTransformation_failed_resolution calc search Example.d2d
              [] translated_guess 0 Example.d2d translated_guess 2
              Example.param translated_guess failed_at_coarsest
              eq_refl eq_refl eq_refl Hfail) as (Hrun & _ & Hfin & _).
  split; [exact Hrun|exact Hfin].
Defined.

End ScheduleExample.

(* ================================================================== *)
(** * The staged arbitration of the robust wrapper *)
(* ================================================================== *)

Section RobustFacts.
Import IEEE.
Context {C : Type} `{Libm float} `{PclOps float}.
Context {d2d_ops : RegistrationOps float (D2D float)}.
Context {corr_ops : RegistrationOps float C}.
Local Open Scope float_scope.
Implicit Type this : D2DRobust float C.

(** The outcome of an alignment as the specification names it. *)
Inductive Arbitration : Type :=
| Accept (transformation : Mat4 float)
| NoAlignment.

Definition tau_good : float := 0.7.
Definition tau_salvage : float := 0.6.
Definition tau_accept : float := 0.4.

(** The staged arbitration in the specification's words: direct D2D with
    validator score [s1]; accept if it converged and [s1 > tau_good];
    else seed by correlation, rerun D2D from the seed, and accept the rerun
    if its score [s2 >= tau_accept], else the first result if
    [s1 > tau_salvage], else report no alignment. *)
Definition staged_arbitration this (output : PointCloud float)
    (guess : Mat4 float) : Arbitration :=
  let '(d2d1, output) := align (d2d_ this) output guess in
  let T1 := getFinalTransformation d2d1 in
  let s1 := proofTransform this T1 in
  if hasConverged d2d1 && (tau_good <? s1) then Accept T1
  else
    let '(corr, output) := align (corr_est_ this) output guess in
    if negb (hasConverged corr) then NoAlignment
    else
      let '(d2d2, output) := align d2d1 output (getFinalTransformation corr) in
      if negb (hasConverged d2d2) then NoAlignment
      else
        let T2 := getFinalTransformation d2d2 in
        let s2 := proofTransform this T2 in
        if tau_accept <=? s2 then Accept T2
        else if tau_salvage <? s1 then Accept T1
        else NoAlignment.

(** Whether the direct D2D run is accepted at once. *)
Definition direct_accepted this (output : PointCloud float)
    (guess : Mat4 float) : bool :=
  let '(d2d1, _) := align (d2d_ this) output guess in
  hasConverged d2d1
  && (tau_good <? proofTransform this (getFinalTransformation d2d1)).

(** The validator reads the clouds and the cell size only. *)
Lemma proofTransform_set_d2d_ this d trans :
  proofTransform (set_d2d_ d this) trans = proofTransform this trans.
Proof. reflexivity. Qed.

Lemma proofTransform_set_corr_est_ this c trans :
  proofTransform (set_corr_est_ c this) trans = proofTransform this trans.
Proof. reflexivity. Qed.

(** C3.  With a validator whose scores lie in [[0, 1]] (its contract), the
    outcome of [computeTransformation] is the staged arbitration with the
    thresholds 0.7, 0.6 and 0.4: an accepted transformation is the final
    transformation with [converged_] true and is applied to the input; no
    alignment is [converged_] false with the identity.  When the direct run
    is accepted, no further stage runs: the correlative estimator is not
    called and [d2d_] is as its one run left it. *)
Theorem Robust_computeTransformation_arbitration this
    (output : PointCloud float) (guess first_trans : Mat4 float) :
  (forall target cell_size half cloud,
      (0 <=? lut_getScore target cell_size half cloud)
      && (lut_getScore target cell_size half cloud <=? 1) = true) ->
  let result := Robust_computeTransformation this output guess first_trans in
  match staged_arbitration this output guess with
  | Accept transformation =>
      r_converged_ (fst result) = true
      /\ r_final_transformation_ (fst result) = transformation
      /\ snd result = transformPointCloud (r_input_ this) transformation
  | NoAlignment =>
      r_converged_ (fst result) = false
      /\ r_final_transformation_ (fst result) = m4identity
  end
  /\ (direct_accepted this output guess = true ->
      corr_est_ (fst result) = corr_est_ this
      /\ d2d_ (fst result) = fst (align (d2d_ this) output guess)).
Proof.
  intros Hvalid result. subst result.
  unfold Robust_computeTransformation, staged_arbitration, direct_accepted,
    proofTransform, tau_good, tau_salvage, tau_accept.
  change (lit 7 10 : float) with 0.7. change (lit 6 10 : float) with 0.6.
  change (lit 4 10 : float) with 0.4.
  change (@sltb float scalar) with PrimFloat.ltb.
  destruct (align (d2d_ this) output guess) as [d2d1 out1].
  cbn [d2d_ set_d2d_ r_input_ r_target_ cell_size_ corr_est_ fst snd].
  set (score_of := fun trans =>
         lut_getScore (r_target_ this) (cell_size_ this) (lit 5 10)
           (transformPointCloud (r_input_ this) trans)).
  change (lut_getScore (r_target_ this) (cell_size_ this) (lit 5 10)
            (transformPointCloud (r_input_ this) (getFinalTransformation d2d1)))
    with (score_of (getFinalTransformation d2d1)).
  set (s1 := score_of (getFinalTransformation d2d1)).
  destruct (hasConverged d2d1 && (0.7 <? s1)) eqn:Edirect; cbn [negb].
  - (* the direct run is accepted *)
    apply andb_true_iff in Edirect as [_ Hs1].
    cbn [d2d_ set_d2d_ r_input_ r_target_ cell_size_ corr_est_
         set_r_converged_ set_r_final_transformation_].
    fold (score_of (getFinalTransformation d2d1)). fold s1.
    rewrite (IEEEFacts.above_07_not_below_04 _ Hs1).
    cbn. repeat split.
  - split; [|discriminate].
    destruct (align (corr_est_ this) out1 guess) as [corr out2].
    cbn [corr_est_ set_corr_est_ d2d_ set_d2d_].
    destruct (hasConverged corr); cbn [negb]; [|cbn; split; reflexivity].
    destruct (align d2d1 out2 (getFinalTransformation corr)) as [d2d2 out3].
    cbn [d2d_ set_d2d_].
    destruct (hasConverged d2d2); cbn [negb]; [|cbn; split; reflexivity].
    cbn [d2d_ set_d2d_ r_input_ r_target_ cell_size_ corr_est_ set_corr_est_
         set_r_converged_ set_r_final_transformation_].
    fold (score_of (getFinalTransformation d2d2)).
    set (s2 := score_of (getFinalTransformation d2d2)).
    assert (is_nan s2 = false) as Hs2.
    { specialize (Hvalid (r_target_ this) (cell_size_ this) (lit 5 10)
                    (transformPointCloud (r_input_ this)
                       (getFinalTransformation d2d2))).
      apply andb_true_iff in Hvalid as [Hge _].
      exact (IEEEFacts.leb_not_nan_r _ _ Hge). }
    rewrite (IEEEFacts.ltb_negb_leb s2 0.4 Hs2 eq_refl).
    destruct (0.4 <=? s2); cbn [negb].
    + cbn. repeat split.
    + destruct (0.6 <? s1); cbn; repeat split.
Qed.

End RobustFacts.

Section RobustExample.
Import IEEE.
#[local] Existing Instance Fixture.libm.
#[local] Existing Instance Fixture.eigen.
#[local] Existing Instance Fixture.pcl.
Local Open Scope float_scope.

(** [align] on the [d2d_] member reduced to its call of
    [computeTransformation], and a correlative estimator that reports what
    it holds: whether it converged and its transformation. *)
Definition d2d_registration : RegistrationOps float (D2D float) := {|
  align := fun d2d output guess =>
    match D2D_computeTransformation Example.one_thread d2d output guess with
    | Some result => result
    | None => (d2d, output)
    end;
  hasConverged := converged_;
  getFinalTransformation := final_transformation_
|}.

Definition corr_registration : RegistrationOps float (bool * Mat4 float) := {|
  align := fun corr output guess => (corr, output);
  hasConverged := fst;
  getFinalTransformation := snd
|}.

#[local] Existing Instance d2d_registration.
#[local] Existing Instance corr_registration.

Definition robust : D2DRobust float (bool * Mat4 float) :=
  mkRobust Example.cloud Example.cloud 10 false translated_guess Example.d2d
    (false, m4identity) 0.25 0.

(** The direct run fails on the small clouds and the correlative seed does
    not converge: no alignment. *)
Lemma Robust_computeTransformation_arbitration_witness :
  (forall target cell_size half cloud,
      (0 <=? lut_getScore target cell_size half cloud)
      && (lut_getScore target cell_size half cloud <=? 1) = true)
  /\ staged_arbitration robust [] translated_guess = NoAlignment
  /\ r_converged_
       (fst (Robust_computeTransformation robust [] translated_guess m4identity))
     = false
  /\ r_final_transformation_
       (fst (Robust_computeTransformation robust [] translated_guess m4identity))
     = m4identity.
Proof.
  assert (forall target cell_size half cloud,
             (0 <=? lut_getScore target cell_size half cloud)
             && (lut_getScore target cell_size half cloud <=? 1) = true)
    as Hvalid by (intros; reflexivity).
  assert (staged_arbitration robust [] translated_guess = NoAlignment)
    as Hspec by (vm_compute; reflexivity).
  split; [exact Hvalid|]. split; [exact Hspec|].
  pose proof (Robust_computeTransformation_arbitration robust []
                translated_guess m4identity Hvalid) as Hthm.
  cbv zeta in Hthm. rewrite Hspec in Hthm.
  destruct Hthm as ((Hconv & Hfinal) & _).
  split; [exact Hconv|exact Hfinal].
Defined.

End RobustExample.

(* ================================================================== *)
(** * Construction of the fitting parameters *)
(* ================================================================== *)

(** The error kinds of the specification, and how a call ends. *)
Inductive ErrorKind : Type :=
| InvalidParameter
| InsufficientOverlap
| SingularSum
| NaNDistance
| NoAlignmentFound.

Inductive Outcome (A : Type) : Type :=
| Returns (a : A)
| Raises (e : ErrorKind).
Arguments Returns {A} _.
Arguments Raises {A} _.

Section FittingParamsFacts.
Context {T : Type} `{Scalar T} `{Libm T}.
Local Open Scope scalar_scope.

(** How the constructor [FittingParams(outlier_ratio, resolution)] ends: it
    has no [throw] and no test of its arguments, and calls arithmetic and
    the C library only. *)
Definition FittingParams_construct (outlier_ratio resolution : T)
    : Outcome (FittingParams T) :=
  Returns (FittingParams_new outlier_ratio resolution).

Lemma initParams_fold (outlier_ratio : T) (sizes : list T) : forall this,
  outlier_ratio_ this = outlier_ratio ->
  let this' :=
    fold_left
      (fun this cell_size =>
         set_params_
           (params_ this ++
              [FittingParams_new (outlier_ratio_ this) (snarrow (#1 / cell_size))])
           this)
      sizes this in
  params_ this'
  = params_ this
    ++ map (fun cell_size =>
              FittingParams_new outlier_ratio (snarrow (#1 / cell_size))) sizes
  /\ cell_sizes_ this' = cell_sizes_ this
  /\ layer_count_ this' = layer_count_ this.
Proof.
  induction sizes as [|cs sizes IH]; intros this Hr; cbn.
  - rewrite app_nil_r. repeat split.
  - destruct (IH (set_params_
                    (params_ this ++
                       [FittingParams_new (outlier_ratio_ this) (snarrow (#1 / cs))])
                    this) Hr) as (Hp & Hc & Hl).
    cbn in Hp, Hc, Hl. rewrite Hp, Hc, Hl, Hr, <- app_assoc. repeat split.
Qed.

(** [initParams] makes one parameter set per cell size, from the outlier
    ratio and the resolution [1 / cell_size], and leaves the sizes alone. *)
Lemma initParams_spec (this : D2D T) :
  params_ (initParams this)
  = map (fun cell_size =>
           FittingParams_new (outlier_ratio_ this) (snarrow (#1 / cell_size)))
        (cell_sizes_ this)
  /\ cell_sizes_ (initParams this) = cell_sizes_ this
  /\ layer_count_ (initParams this) = layer_count_ this.
Proof.
  unfold initParams.
  exact (initParams_fold (outlier_ratio_ this) (cell_sizes_ this)
           (set_params_ [] this) eq_refl).
Qed.

(** C4, as amended.  For every outlier ratio [r] and resolution [rho],
    inside the documented ranges or not, the construction returns, with the
    closed forms of the specification and [d2_half = d2 / 2]; and
    [initParams] builds one such set per cell size, with [rho] the [float]
    quotient [1 / cell_size]. *)
Theorem FittingParams_construct_total (r rho : T) :
  let c1 := #10 * (#1 - r) in
  let c2 := r / c_pow rho #2 in
  let d3 := - c_log c2 in
  let d1 := - c_log (c1 + c2) - d3 in
  let d2 :=
    #(-2) * c_log ((- c_log (c1 * c_exp (- lit 5 10) + c2) - d3) / d1) in
  FittingParams_construct r rho = Returns (mkFittingParams d1 d2 (d2 / #2))
  /\ forall this : D2D T,
       map Returns (params_ (initParams this))
       = map (fun cell_size =>
                FittingParams_construct (outlier_ratio_ this)
                  (snarrow (#1 / cell_size)))
             (cell_sizes_ this).
Proof.
  intros c1 c2 d3 d1 d2. split; [reflexivity|].
  intros this. destruct (initParams_spec this) as (-> & _).
  rewrite map_map. reflexivity.
Qed.

End FittingParamsFacts.

Section FittingParamsExample.
Import IEEE.
Local Open Scope float_scope.

(** C4, as stated, fails: an outlier ratio of 1.5 (outside (0, 1)) and a
    cell size of -1 (not positive) construct without an error, whatever the
    C library computes. *)
Lemma FittingParams_no_validation :
  ((1 <=? 1.5) = true /\ (-1 <=? 0) = true)
  /\ ~ (exists L : Libm float,
          @FittingParams_construct float scalar L 1.5 (1 / 1)
            = Raises InvalidParameter
          \/ @FittingParams_construct float scalar L 0.55 (1 / -1)
            = Raises InvalidParameter).
Proof.
  split; [split; reflexivity|].
  intros [L [Hr|Hc]]; discriminate.
Qed.

End FittingParamsExample.

(* ================================================================== *)
(** * The per-pair score [calcSourceCellScore] *)
(* ================================================================== *)

Section PairScoreFacts.
Import IEEE.
Context `{Libm float} `{EigenOps float}.
Local Open Scope float_scope.

(** [d] is NaN or an infinity. *)
Definition not_finite (d : float) : bool :=
  is_nan d || (d =? infinity) || (d =? neg_infinity).

(** The test [dist * 0 != 0] holds exactly of NaN and the infinities. *)
Lemma mul_zero_test (d : float) : negb (d * 0 =? 0) = not_finite d.
Proof.
  unfold not_finite, is_nan. rewrite !eqb_spec, mul_spec.
  change (Prim2SF 0) with (S754_zero false).
  change (Prim2SF infinity) with (S754_infinity false).
  change (Prim2SF neg_infinity) with (S754_infinity true).
  destruct (Prim2SF d) as [s|s| |s m e] eqn:Ed.
  - reflexivity.
  - destruct s; reflexivity.
  - reflexivity.
  - assert (SFeqb (S754_finite s m e) (S754_finite s m e) = true) as ->
      by (unfold SFeqb; rewrite IEEEFacts.SFcompare_refl by discriminate;
          reflexivity).
    destruct s; reflexivity.
Qed.

(** C5, as amended.  With [S = cov_target + cov_source], [(icov, det,
    exists)] what [computeInverseAndDetWithCheck] answers for it and
    [d = diff . (icov diff)]: the result is the all-zero triple when
    [exists] is false, and also when [d] is NaN or an infinity (the test is
    [d * 0 != 0]); otherwise, for a finite [d], the value is
    [-d1 * exp(-d2_half * d)].  The function has no other exit. *)
Theorem calcSourceCellScore_absorbs_failures
    (mean_source : V3 float) (cov_source : Mat3 float) (cell_t : Leaf float)
    (deriv : JacobianHessianDerivatives float) (param : FittingParams float)
    (calc_hessian : bool) :
  let diff_mean := v3sub mean_source (getMean cell_t) in
  let checked := e_inverse_check (m3add (getCov cell_t) cov_source) in
  let icov := fst (fst checked) in
  let exists_ := snd checked in
  let d := dot3 diff_mean (m3mulv icov diff_mean) in
  let res :=
    calcSourceCellScore mean_source cov_source cell_t deriv param calc_hessian in
  (exists_ = false -> res = ScoreAndDerivatives_Zero)
  /\ (exists_ = true -> not_finite d = true -> res = ScoreAndDerivatives_Zero)
  /\ (exists_ = true -> not_finite d = false ->
      value_ res
      = - gauss_d1_ param * c_exp (- gauss_d2__half_ param * d)).
Proof.
  intros diff_mean checked icov exists_ d res.
  subst res. unfold calcSourceCellScore.
  fold diff_mean. fold checked.
  assert (checked = (icov, snd (fst checked), exists_)) as Hc
    by (subst icov exists_; destruct checked as [[? ?] ?]; reflexivity).
  rewrite Hc. fold d.
  change ((d * #0 !=? #0)%S) with (negb (d * 0 =? 0)).
  rewrite mul_zero_test.
  split; [intros ->; reflexivity|].
  split.
  - intros -> ->. reflexivity.
  - intros -> ->. cbn [negb].
    destruct calc_hessian.
    + destruct (fold_left _ _ _) as [[[? ?] ?] ?]. reflexivity.
    + reflexivity.
Qed.

End PairScoreFacts.

Section PairScoreExample.
Import IEEE.
Local Open Scope float_scope.

Definition half_identity : Mat3 float :=
  mkV3 (mkV3 0.5 0 0) (mkV3 0 0.5 0) (mkV3 0 0 0.5).

(** Means 1e200 apart along x, both covariances I/2, so [S = I], which is
    invertible, and [d = 1e400] overflows to +infinity; fitting parameters
    with [d1 = 1] and [d2_half = -1]. *)
Definition far_source_mean : V3 float := mkV3 1e200 0 0.
Definition origin_cell : Leaf float := mkLeaf (mkV3 0 0 0) half_identity.
Definition growing_param : FittingParams float := mkFittingParams 1 (-2) (-1).

(** C5, as stated, fails: [S] is not singular and [d] is not NaN, yet the
    result is the zero triple and its value 0 is not
    [-d1 * exp(-d2_half * d) = -infinity], for every C library with
    [exp(+infinity) = +infinity] and every inversion routine that knows the
    inverse of the identity. *)
Lemma calcSourceCellScore_infinite_distance :
  let S := m3add (getCov origin_cell) half_identity in
  let diff_mean := v3sub far_source_mean (getMean origin_cell) in
  let d := dot3 diff_mean (m3mulv m3identity diff_mean) in
  S = m3identity /\ d = infinity /\ is_nan d = false
  /\ ~ (exists (L : Libm float) (E : EigenOps float),
          e_inverse_check S = (m3identity, 1, true)
          /\ c_exp infinity = infinity
          /\ value_ (calcSourceCellScore far_source_mean half_identity
                       origin_cell (computeDerivatives far_source_mean
                                      half_identity true)
                       growing_param true)
             = - gauss_d1_ growing_param
               * c_exp (- gauss_d2__half_ growing_param * d)).
Proof.
  intros S diff_mean d.
  assert (S = m3identity) as HS by reflexivity.
  assert (d = infinity) as Hd by reflexivity.
  split; [exact HS|]. split; [exact Hd|]. split; [rewrite Hd; reflexivity|].
  intros (L & E & Hinv & Hexp & Hval).
  assert (calcSourceCellScore far_source_mean half_identity origin_cell
            (computeDerivatives far_source_mean half_identity true)
            growing_param true = ScoreAndDerivatives_Zero) as Hzero.
  { unfold calcSourceCellScore. fold S. rewrite Hinv.
    fold diff_mean. fold d. rewrite Hd. reflexivity. }
  rewrite Hzero in Hval. rewrite Hd in Hval.
  change (- gauss_d2__half_ growing_param * infinity) with infinity in Hval.
  rewrite Hexp in Hval. discriminate Hval.
Qed.

#[local] Existing Instance Fixture.libm.
#[local] Existing Instance Fixture.eigen.

(** The three cases on examples: a singular sum (both covariances zero), the
    infinite distance above, and a pair of coinciding means, whose value is
    [-d1 * exp(-0) = -d1]. *)
Lemma calcSourceCellScore_absorbs_failures_witness :
  (snd (e_inverse_check (m3add m3zero m3zero)) = false
   /\ calcSourceCellScore far_source_mean m3zero (mkLeaf (mkV3 0 0 0) m3zero)
        (computeDerivatives far_source_mean m3zero true) Example.param true
      = ScoreAndDerivatives_Zero)
  /\ (snd (e_inverse_check (m3add (getCov origin_cell) half_identity)) = true
      /\ not_finite
           (dot3 (v3sub far_source_mean (getMean origin_cell))
              (m3mulv (fst (fst (e_inverse_check
                                   (m3add (getCov origin_cell) half_identity))))
                 (v3sub far_source_mean (getMean origin_cell)))) = true
      /\ calcSourceCellScore far_source_mean half_identity origin_cell
           (computeDerivatives far_source_mean half_identity true)
           Example.param true
         = ScoreAndDerivatives_Zero)
  /\ value_ (calcSourceCellScore (mkV3 0 0 0) half_identity origin_cell
               (computeDerivatives (mkV3 0 0 0) half_identity true)
               Example.param true)
     = 1.11365016603265.
Proof.
  split; [|split].
  - split; [reflexivity|].
    pose proof (calcSourceCellScore_absorbs_failures far_source_mean m3zero
                  (mkLeaf (mkV3 0 0 0) m3zero)
                  (computeDerivatives far_source_mean m3zero true)
                  Example.param true) as (Hsingular & _ & _).
    apply Hsingular. reflexivity.
  - split; [reflexivity|]. split; [vm_compute; reflexivity|].
    pose proof (calcSourceCellScore_absorbs_failures far_source_mean
                  half_identity origin_cell
                  (computeDerivatives far_source_mean half_identity true)
                  Example.param true) as (_ & Hinfinite & _).
    apply Hinfinite; [reflexivity|vm_compute; reflexivity].
  - pose proof (calcSourceCellScore_absorbs_failures (mkV3 0 0 0) half_identity
                  origin_cell
                  (computeDerivatives (mkV3 0 0 0) half_identity true)
                  Example.param true) as (_ & _ & Hval).
    rewrite Hval; [vm_compute; reflexivity|reflexivity|vm_compute; reflexivity].
Defined.

End PairScoreExample.

(* ================================================================== *)
(** * The pose codec in exact arithmetic *)
(* ================================================================== *)

Section PoseCodecExact.
Import Exact.
Local Open Scope R_scope.




(** The rotation about Z by [theta] with the translation [(x, y, 0)]. *)
Definition rigid_motion (x y theta : R) : Mat4 R :=
  mkV4 (mkV4 (cos theta) (- sin theta) 0 x)
       (mkV4 (sin theta) (cos theta) 0 y)
       (mkV4 0 0 1 0)
       (mkV4 0 0 0 1).

Definition det3 (M : Mat3 R) : R :=
  let a := fun i j => m3get i j M in
  a 0%nat 0%nat * (a 1%nat 1%nat * a 2%nat 2%nat - a 1%nat 2%nat * a 2%nat 1%nat)
  - a 0%nat 1%nat * (a 1%nat 0%nat * a 2%nat 2%nat - a 1%nat 2%nat * a 2%nat 0%nat)
  + a 0%nat 2%nat * (a 1%nat 0%nat * a 2%nat 1%nat - a 1%nat 1%nat * a 2%nat 0%nat).

(** A proper rotation: orthogonal with determinant 1. *)
Definition proper_rotation (M : Mat3 R) : Prop :=
  m3mul M (m3trans M) = m3identity /\ det3 M = 1.

Lemma vecToMat_exact (p : Precision) (x y theta : R) :
  vecToMat p (mkV3 x y theta) = rigid_motion x y theta.
Proof.
  destruct p; unfold vecToMat, rigid_motion, AngleAxis_toRotationMatrix,
    m4set_translation, m4set_linear, m4identity, UnitZ, v3scale, v3map; cbn;
    repeat f_equal; ring.
Qed.

Lemma rigid_motion_rotation (x y theta : R) :
  proper_rotation (m4linear (rigid_motion x y theta)).
Proof.
  pose proof (sin2_cos2 theta) as Hsc. unfold Rsqr in Hsc.
  split.
  - unfold m3mul, m3trans, v3mulm, m3col, dot3, v3map, m3identity; cbn.
    repeat f_equal; try ring; try (rewrite <- Hsc; ring).
  - unfold det3; cbn.
    transitivity (sin theta * sin theta + cos theta * cos theta);
      [ring|exact Hsc].
Qed.



End PoseCodecExact.

(* ================================================================== *)
(** * The derivative kit *)
(* ================================================================== *)

Section DerivativeFacts.
Context {T : Type} `{Scalar T}.
Local Open Scope scalar_scope.

(** What [computeDerivatives] leaves in [data], with the entries as the
    code writes them: everything is zero except the listed coefficients of
    [Jest], the block of [Zest] at columns 6..8 and, when the Hessian is
    requested, column 2 of the block of [Hest] at rows 6..8 and the block
    of [ZHest] at rows and columns 6..8. *)
Lemma computeDerivatives_blocks (x : V3 T) (cov : Mat3 T) (calc_hessian : bool) :
  let c := fun i j => m3get i j cov in
  computeDerivatives x cov calc_hessian
  = mkDerivatives
      (mkV3 (mkV3 #1 #0 (- c1 x)) (mkV3 #0 #1 (c0 x)) (mkV3 #0 #0 #0))
      (mkV3 m3zero m3zero
         (if calc_hessian then
            mkV3 (mkV3 #0 #0 (- c0 x)) (mkV3 #0 #0 (- c1 x)) (mkV3 #0 #0 #0)
          else m3zero))
      (mkV3 m3zero m3zero
         (mkV3 (mkV3 (#(-2) * c 0 1) (- c 1 1 + c 0 0) (- c 1 2))
               (mkV3 (- c 1 1 + c 0 0) (#2 * c 0 1) (c 0 2))
               (mkV3 (- c 1 2) (c 0 2) #0)))
      (mkV3 (mkV3 m3zero m3zero m3zero) (mkV3 m3zero m3zero m3zero)
         (mkV3 m3zero m3zero
            (if calc_hessian then
               mkV3 (mkV3 (#2 * c 1 1 - #2 * c 0 0) (#(-4) * c 0 1) (- c 0 2))
                    (mkV3 (#(-4) * c 0 1) (#2 * c 0 0 - #2 * c 1 1) (- c 1 2))
                    (mkV3 (- c 0 2) (- c 1 2) #0)
             else m3zero))).
Proof.
  destruct calc_hessian; reflexivity.
Qed.

End DerivativeFacts.

Section DerivativeFactsExact.
Import Exact.
Local Open Scope R_scope.

Definition coef (C : Mat3 R) (i j : nat) : R := m3get i j C.

(** The blocks of the specification, from [x = (x0, x1, x2)] and the
    covariance [C]. *)
Definition Jest_spec (x : V3 R) : Mat3 R :=
  mkV3 (mkV3 1 0 (- c1 x)) (mkV3 0 1 (c0 x)) (mkV3 0 0 0).

Definition Zest_theta_spec (C : Mat3 R) : Mat3 R :=
  mkV3 (mkV3 (-2 * coef C 0 1) (coef C 0 0 - coef C 1 1) (- coef C 1 2))
       (mkV3 (coef C 0 0 - coef C 1 1) (2 * coef C 0 1) (coef C 0 2))
       (mkV3 (- coef C 1 2) (coef C 0 2) 0).

Definition Hest_theta_spec (x : V3 R) : V3 R := mkV3 (- c0 x) (- c1 x) 0.

Definition ZHest_theta_spec (C : Mat3 R) : Mat3 R :=
  mkV3 (mkV3 (2 * (coef C 1 1 - coef C 0 0)) (-4 * coef C 0 1) (- coef C 0 2))
       (mkV3 (-4 * coef C 0 1) (2 * (coef C 0 0 - coef C 1 1)) (- coef C 1 2))
       (mkV3 (- coef C 0 2) (- coef C 1 2) 0).

(** C7.  In exact arithmetic, coefficient by coefficient of the full
    matrices: [Jest] is the stated 3x3 matrix; [Zest] (3x9) holds the
    stated block in columns 6..8 and zero elsewhere; [Hest] (9x3) holds
    [(-x0, -x1, 0)] in column 2 of rows 6..8 and [ZHest] (9x9) the stated
    block in rows and columns 6..8, both only when the Hessian is
    requested, and zero elsewhere and otherwise. *)
Theorem computeDerivatives_entries (x : V3 R) (C : Mat3 R) (calc_hessian : bool) :
  let data := computeDerivatives x C calc_hessian in
  Jest data = Jest_spec x
  /\ (forall i j : nat,
         (i < 3)%nat -> (j < 9)%nat ->
         Zest_coeff data i j
         = if (6 <=? j)%nat then m3get i (j - 6) (Zest_theta_spec C) else 0)
  /\ (forall i j : nat,
         (i < 9)%nat -> (j < 3)%nat ->
         Hest_coeff data i j
         = if calc_hessian && (6 <=? i)%nat && (j =? 2)%nat
           then v3get (i - 6) (Hest_theta_spec x) else 0)
  /\ (forall i j : nat,
         (i < 9)%nat -> (j < 9)%nat ->
         ZHest_coeff data i j
         = if calc_hessian && (6 <=? i)%nat && (6 <=? j)%nat
           then m3get (i - 6) (j - 6) (ZHest_theta_spec C) else 0).
Proof.
  intros data. subst data. rewrite computeDerivatives_blocks.
  split; [reflexivity|].
  split; [|split]; intros i j Hi Hj.
  - do 3 (destruct i as [|i]; [do 9 (destruct j as [|j]; [cbn; ring|]); lia|]).
    lia.
  - do 9 (destruct i as [|i];
          [do 3 (destruct j as [|j];
                 [destruct calc_hessian; cbn; ring|]); lia|]).
    lia.
  - do 9 (destruct i as [|i];
          [do 9 (destruct j as [|j];
                 [destruct calc_hessian; cbn; unfold coef, m3get; cbn; ring|]);
           lia|]).
    lia.
Qed.

(** A mean, a symmetric covariance and three of the coefficients. *)
Lemma computeDerivatives_entries_witness :
  let x := mkV3 1 2 3 in
  let C := mkV3 (mkV3 4 5 6) (mkV3 5 7 8) (mkV3 6 8 9) in
  let data := computeDerivatives x C true in
  Zest_coeff data 0 7 = -3 /\ Hest_coeff data 7 2 = -2
  /\ ZHest_coeff data 6 6 = 6 /\ ZHest_coeff data 6 5 = 0.
Proof.
  intros x C data.
  destruct (computeDerivatives_entries x C true) as (_ & HZ & HH & HZH).
  fold data in HZ, HH, HZH.
  rewrite (HZ 0%nat 7%nat) by lia.
  rewrite (HH 7%nat 2%nat) by lia.
  rewrite (HZH 6%nat 6%nat), (HZH 6%nat 5%nat) by lia.
  cbn. unfold coef, m3get. cbn. repeat split; ring.
Defined.

End DerivativeFactsExact.

(* ================================================================== *)
(** * Configuration: the cell sizes and the fitting parameters *)
(* ================================================================== *)

(** The loop variable [int i = layer_count_ - 1] counts the layers down
    when the layer count fits an [int]. *)
Lemma to_int_layer_count (layer_count : Z) :
  (0 <= layer_count <= 2 ^ 31)%Z ->
  (to_int (size_t_sub layer_count 1) + 1 = layer_count)%Z.
Proof.
  intros Hl. unfold to_int, size_t_sub.
  destruct (Z.eq_dec layer_count 0) as [->|Hz]; [reflexivity|].
  rewrite (Z.mod_small (layer_count - 1) (2 ^ 64)) by lia.
  rewrite (Z.mod_small (layer_count - 1) (2 ^ 32)) by lia.
  destruct (layer_count - 1 <? 2 ^ 31)%Z eqn:E; [lia|].
  apply Z.ltb_ge in E. lia.
Qed.

Section ConfigurationFacts.
Context {T : Type} `{Scalar T} `{Libm T}.
Local Open Scope scalar_scope.

(** The parameter set that [initParams] builds for one cell size. *)
Definition params_of (outlier_ratio cell_size : T) : FittingParams T :=
  FittingParams_new outlier_ratio (snarrow (#1 / cell_size)).

(** The sizes that the loop of [initCellSizes] pushes for [n] layers. *)
Definition layered_sizes (base_size : T) (n : nat) : list T :=
  map (fun i => snarrow (base_size * c_pow #2 #(Z.of_nat i))) (rev (seq 0 n)).

(** The class invariant behind [params_[i]] in [computeTransformation]:
    the parameter sets are those of the current outlier ratio and cell
    sizes, one per size. *)
Definition params_in_step (this : D2D T) : Prop :=
  params_ this = map (params_of (outlier_ratio_ this)) (cell_sizes_ this).

Lemma initCellSizes_for_spec (base_size : T) (n : nat) : forall cell_sizes,
  initCellSizes_for base_size n cell_sizes
  = cell_sizes ++ layered_sizes base_size n.
Proof.
  unfold layered_sizes.
  induction n as [|n IH]; intros cell_sizes; cbn [initCellSizes_for].
  - cbn. rewrite app_nil_r. reflexivity.
  - rewrite IH, seq_S, rev_app_distr, <- app_assoc. reflexivity.
Qed.

Lemma set_params__eta (this : D2D T) : set_params_ (params_ this) this = this.
Proof. destruct this; reflexivity. Qed.

Lemma initParams_loop (sizes : list T) : forall this : D2D T,
  fold_left
    (fun this cell_size =>
       set_params_
         (params_ this ++
            [FittingParams_new (outlier_ratio_ this) (snarrow (#1 / cell_size))])
         this)
    sizes this
  = set_params_ (params_ this ++ map (params_of (outlier_ratio_ this)) sizes)
      this.
Proof.
  induction sizes as [|cs sizes IH]; intros this; cbn [fold_left map].
  - rewrite app_nil_r. symmetry. apply set_params__eta.
  - rewrite IH. cbn [params_ outlier_ratio_ set_params_].
    rewrite <- app_assoc. reflexivity.
Qed.

(** [initParams] as one assignment. *)
Lemma initParams_assigns (this : D2D T) :
  initParams this
  = set_params_ (map (params_of (outlier_ratio_ this)) (cell_sizes_ this)) this.
Proof.
  unfold initParams. rewrite initParams_loop. reflexivity.
Qed.

(** [initCellSizes] as one assignment, for a layer count that fits an
    [int]. *)
Lemma initCellSizes_assigns (base_size : T) (this : D2D T) :
  (0 <= layer_count_ this <= 2 ^ 31)%Z ->
  initCellSizes base_size this
  = (true,
     set_cell_sizes_ (layered_sizes base_size (Z.to_nat (layer_count_ this)))
       this).
Proof.
  intros Hl. unfold initCellSizes.
  cbn [layer_count_ set_cell_sizes_ cell_sizes_].
  rewrite to_int_layer_count by exact Hl.
  rewrite initCellSizes_for_spec. reflexivity.
Qed.

Lemma setCellSize_assigns (base_size : T) (this : D2D T) :
  (0 <= layer_count_ this <= 2 ^ 31)%Z ->
  setCellSize base_size this
  = set_params_
      (map (params_of (outlier_ratio_ this))
         (layered_sizes base_size (Z.to_nat (layer_count_ this))))
      (set_cell_sizes_
         (layered_sizes base_size (Z.to_nat (layer_count_ this))) this).
Proof.
  intros Hl. unfold setCellSize. rewrite initCellSizes_assigns by exact Hl.
  rewrite initParams_assigns. reflexivity.
Qed.

Lemma setCellSize_vector_assigns (cell_sizes : list T) (this : D2D T) :
  setCellSize_vector cell_sizes this
  = set_params_
      (map (params_of (outlier_ratio_ this)) (rev (std_sort cell_sizes)))
      (set_cell_sizes_ (rev (std_sort cell_sizes))
         (set_layer_count_ (Z.of_nat (length cell_sizes)) this)).
Proof.
  unfold setCellSize_vector. rewrite initParams_assigns. reflexivity.
Qed.

Lemma setOulierRatio_assigns (outlier_ratio : T) (this : D2D T) :
  setOulierRatio outlier_ratio this
  = set_params_ (map (params_of outlier_ratio) (cell_sizes_ this))
      (set_outlier_ratio_ outlier_ratio this).
Proof.
  unfold setOulierRatio. rewrite initParams_assigns. reflexivity.
Qed.

Lemma initParams_in_step (this : D2D T) : params_in_step (initParams this).
Proof.
  unfold params_in_step. rewrite initParams_assigns. reflexivity.
Qed.

(** Every operation of the public interface that changes the cell sizes or
    the outlier ratio ends in [initParams]: the constructor, both overloads
    of [setCellSize] and [setOulierRatio] leave the parameter sets in step
    with the sizes, whatever the object was before; [setStepSize] keeps
    them in step.  So [params_] has as many entries as [cell_sizes_], and
    [params_[i]] in [computeTransformation] is in range. *)
Theorem configuration_keeps_params_in_step (this : D2D T) :
  (params_in_step (D2D_constructor this)
   /\ (forall cell_size, params_in_step (setCellSize cell_size this))
   /\ (forall cell_sizes, params_in_step (setCellSize_vector cell_sizes this))
   /\ (forall outlier_ratio, params_in_step (setOulierRatio outlier_ratio this))
   /\ (forall step_size,
          params_in_step this -> params_in_step (setStepSize step_size this)))
  /\ (params_in_step this -> length (params_ this) = length (cell_sizes_ this)).
Proof.
  split; [split; [|split; [|split; [|split]]]|].
  - apply initParams_in_step.
  - intros cell_size. unfold setCellSize.
    destruct (initCellSizes cell_size this) as [[] this'] eqn:Ei;
      [apply initParams_in_step|].
    unfold initCellSizes in Ei. discriminate.
  - intros cell_sizes. apply initParams_in_step.
  - intros outlier_ratio. apply initParams_in_step.
  - intros step_size Hin. exact Hin.
  - intros Hin. rewrite Hin. apply length_map.
Qed.

End ConfigurationFacts.

Section ConfigurationComposition.
Context {T : Type} `{Scalar T} `{Libm T}.
Local Open Scope scalar_scope.

Ltac assignments :=
  unfold setCellSize, initCellSizes, setOulierRatio, setCellSize_vector,
    setStepSize;
  rewrite ?initParams_assigns;
  cbn [cell_sizes_ outlier_ratio_ layer_count_ params_ step_size_
       set_cell_sizes_ set_outlier_ratio_ set_layer_count_ set_params_
       set_step_size_ fst snd].

(** How the configuration calls compose.  The scalar [setCellSize] and
    [setOulierRatio] commute, and so does [setStepSize] with both; of two
    calls of the same setter the later one wins; a vector of cell sizes
    replaces what a scalar call left.  The other order is different: a
    scalar [setCellSize] after a vector keeps the vector's number of
    layers (the next theorem). *)
Theorem configuration_calls_compose (this : D2D T) :
  (forall cell_size outlier_ratio,
      setCellSize cell_size (setOulierRatio outlier_ratio this)
      = setOulierRatio outlier_ratio (setCellSize cell_size this))
  /\ (forall cell_size step_size,
         setCellSize cell_size (setStepSize step_size this)
         = setStepSize step_size (setCellSize cell_size this))
  /\ (forall outlier_ratio step_size,
         setOulierRatio outlier_ratio (setStepSize step_size this)
         = setStepSize step_size (setOulierRatio outlier_ratio this))
  /\ (forall r r', setOulierRatio r (setOulierRatio r' this) = setOulierRatio r this)
  /\ (forall b b', setCellSize b (setCellSize b' this) = setCellSize b this)
  /\ (forall cell_sizes b,
         setCellSize_vector cell_sizes (setCellSize b this)
         = setCellSize_vector cell_sizes this).
Proof.
  split; [|split; [|split; [|split; [|split]]]]; intros; assignments;
    reflexivity.
Qed.

(** A scalar [setCellSize] after a vector one builds as many layers as the
    vector had entries: [b 2^(n-1), ..., b] as [float]s for a vector of
    [n] sizes, and none at all after an empty vector. *)
Theorem setCellSize_after_vector (this : D2D T) (cell_sizes : list T)
    (base_size : T) :
  (Z.of_nat (length cell_sizes) <= 2 ^ 31)%Z ->
  let this' := setCellSize base_size (setCellSize_vector cell_sizes this) in
  getCellSizes this' = layered_sizes base_size (length cell_sizes)
  /\ length (getCellSizes this') = length cell_sizes
  /\ length (params_ this') = length cell_sizes
  /\ (cell_sizes = [] -> getCellSizes this' = [] /\ params_ this' = []).
Proof.
  intros Hlen this'.
  assert (layer_count_ (setCellSize_vector cell_sizes this)
          = Z.of_nat (length cell_sizes)) as Hl
    by (rewrite setCellSize_vector_assigns; reflexivity).
  assert (this'
          = set_params_
              (map (params_of (outlier_ratio_ this))
                 (layered_sizes base_size (length cell_sizes)))
              (set_cell_sizes_ (layered_sizes base_size (length cell_sizes))
                 (setCellSize_vector cell_sizes this))) as ->.
  { subst this'. rewrite setCellSize_assigns by (rewrite Hl; lia).
    rewrite Hl, Nat2Z.id. rewrite setCellSize_vector_assigns. reflexivity. }
  unfold getCellSizes. cbn [cell_sizes_ params_ set_params_ set_cell_sizes_].
  assert (length (layered_sizes base_size (length cell_sizes))
          = length cell_sizes) as Hn.
  { unfold layered_sizes. rewrite length_map, length_rev, length_seq.
    reflexivity. }
  split; [reflexivity|]. split; [exact Hn|].
  split; [rewrite length_map; exact Hn|].
  intros ->. split; reflexivity.
Qed.

End ConfigurationComposition.

Section ConfigurationCompositionExample.
Import IEEE.
#[local] Existing Instance Fixture.libm.
Local Open Scope float_scope.

(** Two sizes given in increasing order, then a base size. *)
Definition two_sizes : list float := [0.5; 1].

Lemma setCellSize_after_vector_witness :
  (Z.of_nat (length two_sizes) <= 2 ^ 31)%Z
  /\ length (getCellSizes (setCellSize 0.25 (setCellSize_vector two_sizes Example.d2d)))
     = 2%nat
  /\ length (params_ (setCellSize 0.25 (setCellSize_vector two_sizes Example.d2d)))
     = 2%nat.
Proof.
  assert (Z.of_nat (length two_sizes) <= 2 ^ 31)%Z as Hlen by (cbn; lia).
  split; [exact Hlen|].
  pose proof (setCellSize_after_vector Example.d2d two_sizes 0.25 Hlen)
    as (_ & Hsizes & Hparams & _).
  split; [exact Hsizes|exact Hparams].
Defined.

End ConfigurationCompositionExample.

(* ------------------------------------------------------------------ *)
(** ** The cell sizes in exact arithmetic *)

Section CellSizeFactsExact.
Import Exact.
Local Open Scope R_scope.

Definition strictly_decreasing (l : list R) : Prop := StronglySorted Rgt l.
Definition non_increasing (l : list R) : Prop := StronglySorted Rge l.

(** The sizes [b 2^(L-1), ..., b 2, b]. *)
Definition geometric_sizes (b : R) (L : nat) : list R :=
  map (fun i => b * 2 ^ i) (rev (seq 0 L)).

Lemma pow2_exact (i : nat) : c_pow (sofZ 2) (sofZ (Z.of_nat i)) = 2 ^ i.
Proof.
  cbn. rewrite <- INR_IZR_INZ. apply Rpower_pow. lra.
Qed.

Lemma layered_sizes_exact (b : R) (L : nat) :
  layered_sizes b L = geometric_sizes b L.
Proof.
  unfold layered_sizes, geometric_sizes. apply map_ext. intros i.
  rewrite pow2_exact. reflexivity.
Qed.

Lemma geometric_sizes_decreasing (b : R) (L : nat) :
  0 < b -> strictly_decreasing (geometric_sizes b L).
Proof.
  intros Hb. unfold strictly_decreasing, geometric_sizes.
  induction L as [|L IH]; [constructor|].
  rewrite seq_S, rev_app_distr. cbn [rev app map Nat.add].
  constructor; [exact IH|].
  apply Forall_forall. intros y Hy. apply in_map_iff in Hy as (i & <- & Hi).
  apply in_rev, in_seq in Hi.
  apply Rmult_lt_compat_l; [exact Hb|]. apply Rlt_pow; [lra|lia].
Qed.

Lemma geometric_sizes_last (b : R) (L : nat) :
  (0 < L)%nat -> last (geometric_sizes b L) 0 = b.
Proof.
  intros HL. unfold geometric_sizes. destruct L as [|L]; [lia|].
  rewrite <- cons_seq, <- seq_shift. cbn [rev map].
  rewrite map_app. cbn [map]. rewrite last_last. cbn. lra.
Qed.

Lemma geometric_sizes_default :
  geometric_sizes (25 / 100) 4 = [2; 1; 1 / 2; 1 / 4].
Proof.
  unfold geometric_sizes. cbn [seq rev app map pow].
  f_equal; [lra|f_equal; [lra|f_equal; [lra|f_equal; lra]]].
Qed.

Lemma initCellSizes_four_layers (b : R) (t : D2D R) :
  layer_count_ t = 4%Z ->
  cell_sizes_ (initParams (snd (initCellSizes b t))) = geometric_sizes b 4.
Proof.
  intros Hl4. rewrite initParams_assigns.
  rewrite initCellSizes_assigns by (rewrite Hl4; lia).
  rewrite Hl4. cbn [snd cell_sizes_ set_cell_sizes_ set_params_].
  apply layered_sizes_exact.
Qed.

Lemma D2D_constructor_sizes (this : D2D R) :
  cell_sizes_ (D2D_constructor this) = geometric_sizes (25 / 100) 4.
Proof.
  unfold D2D_constructor. apply initCellSizes_four_layers. reflexivity.
Qed.

(** [setCellSize(b)] in exact arithmetic, for a layer count [L] that fits
    an [int]: the sizes are [b 2^(L-1), ..., 2 b, b], coarsest first and
    the base size last, strictly decreasing for [b > 0]; the constructor
    leaves [2, 1, 1/2, 1/4]. *)
Theorem setCellSize_geometric (this : D2D R) (b : R) :
  (0 <= layer_count_ this <= 2 ^ 31)%Z ->
  let L := Z.to_nat (layer_count_ this) in
  getCellSizes (setCellSize b this) = geometric_sizes b L
  /\ length (getCellSizes (setCellSize b this)) = L
  /\ (0 < b -> strictly_decreasing (getCellSizes (setCellSize b this)))
  /\ ((0 < L)%nat -> last (getCellSizes (setCellSize b this)) 0 = b)
  /\ getCellSizes (D2D_constructor this) = [2; 1; 1 / 2; 1 / 4].
Proof.
  intros Hl L.
  assert (getCellSizes (setCellSize b this) = geometric_sizes b L) as ->.
  { rewrite setCellSize_assigns by exact Hl. unfold getCellSizes.
    cbn [cell_sizes_ set_params_ set_cell_sizes_].
    apply layered_sizes_exact. }
  split; [reflexivity|].
  split; [unfold geometric_sizes;
          rewrite length_map, length_rev, length_seq; reflexivity|].
  split; [apply geometric_sizes_decreasing|].
  split; [apply geometric_sizes_last|].
  unfold getCellSizes. rewrite D2D_constructor_sizes.
  apply geometric_sizes_default.
Qed.

End CellSizeFactsExact.

Section CellSizeVectorExact.
Import Exact.
Local Open Scope R_scope.

(** An object before its constructor runs, and the default-constructed
    one. *)
Definition blank_object : D2D R :=
  mkD2D [] [] 0 0 m4identity m4identity m4identity 0 false [] 0 0 [] 0
    m3identity m3identity 0.
Definition default_object : D2D R := D2D_constructor blank_object.

(** The default four layers from a base size of 3: 24, 12, 6, 3. *)
Lemma setCellSize_geometric_witness :
  (0 <= layer_count_ default_object <= 2 ^ 31)%Z
  /\ getCellSizes (setCellSize 3 default_object) = geometric_sizes 3 4
  /\ strictly_decreasing (getCellSizes (setCellSize 3 default_object))
  /\ last (getCellSizes (setCellSize 3 default_object)) 0 = 3.
Proof.
  assert (layer_count_ default_object = 4%Z) as Hl4 by reflexivity.
  assert (0 <= layer_count_ default_object <= 2 ^ 31)%Z as Hl
    by (rewrite Hl4; lia).
  split; [exact Hl|].
  pose proof (setCellSize_geometric default_object 3 Hl) as Hthm.
  cbv zeta in Hthm. rewrite Hl4 in Hthm.
  destruct Hthm as (Hsizes & _ & Hdec & Hlast & _).
  split; [exact Hsizes|]. split; [apply Hdec; lra|].
  apply Hlast. change (Z.to_nat 4) with 4%nat. lia.
Defined.

(** [std::sort] sorts and permutes. *)
Lemma sort_insert_perm (a : R) (l : list R) : Permutation (a :: l) (sort_insert a l).
Proof.
  induction l as [|b l IH]; cbn; [reflexivity|].
  destruct (Rlt_dec a b); [reflexivity|].
  rewrite perm_swap. constructor. exact IH.
Qed.

Lemma std_sort_perm (l : list R) : Permutation l (std_sort l).
Proof.
  induction l as [|a l IH]; cbn; [constructor|].
  rewrite <- sort_insert_perm. constructor. exact IH.
Qed.

Lemma sort_insert_sorted (a : R) (l : list R) :
  StronglySorted Rle l -> StronglySorted Rle (sort_insert a l).
Proof.
  induction 1 as [|b l Hs IH Hb]; cbn.
  - constructor; constructor.
  - destruct (Rlt_dec a b) as [Hlt|Hge].
    + constructor; [constructor; assumption|].
      constructor; [lra|].
      eapply Forall_impl; [|exact Hb]. cbn. intros; lra.
    + constructor; [exact IH|].
      rewrite <- sort_insert_perm. constructor; [lra|exact Hb].
Qed.

Lemma std_sort_sorted (l : list R) : StronglySorted Rle (std_sort l).
Proof.
  induction l as [|a l IH]; cbn; [constructor|].
  apply sort_insert_sorted. exact IH.
Qed.

Lemma StronglySorted_snoc (P : R -> R -> Prop) (l : list R) (a : R) :
  StronglySorted P l -> Forall (fun x => P x a) l ->
  StronglySorted P (l ++ [a]).
Proof.
  induction 1 as [|b l Hs IH Hb]; intros Ha; cbn.
  - constructor; constructor.
  - inversion Ha as [|? ? Hba Hla]; subst.
    constructor; [apply IH; exact Hla|].
    apply Forall_app. split; [exact Hb|]. constructor; [exact Hba|constructor].
Qed.

(** [std::reverse] turns the increasing order around. *)
Lemma StronglySorted_rev (P : R -> R -> Prop) (l : list R) :
  StronglySorted P l -> StronglySorted (fun x y => P y x) (rev l).
Proof.
  induction 1 as [|b l Hs IH Hb]; cbn; [constructor|].
  apply StronglySorted_snoc; [exact IH|].
  apply Forall_forall. intros x Hx. apply in_rev in Hx.
  rewrite Forall_forall in Hb. apply Hb. exact Hx.
Qed.

Lemma rev_std_sort_non_increasing (l : list R) :
  non_increasing (rev (std_sort l)).
Proof.
  unfold non_increasing.
  pose proof (StronglySorted_rev Rle _ (std_sort_sorted l)) as Hs.
  induction Hs as [|a l' Hs IH Ha]; constructor; [exact IH|].
  eapply Forall_impl; [|exact Ha]. cbn. intros; lra.
Qed.

(** A non-increasing sequence decreases strictly exactly when it has no
    repeated element. *)
Lemma non_increasing_NoDup (l : list R) :
  non_increasing l -> (NoDup l <-> strictly_decreasing l).
Proof.
  unfold non_increasing, strictly_decreasing.
  induction 1 as [|a l Hs IH Ha]; [split; constructor|].
  split.
  - intros Hnd. inversion Hnd as [|? ? Hnin Hnd']; subst.
    constructor; [apply IH; exact Hnd'|].
    apply Forall_forall. intros x Hx.
    rewrite Forall_forall in Ha. specialize (Ha x Hx).
    destruct (Req_dec a x) as [->|Hne]; [contradiction|]. lra.
  - intros Hsd. inversion Hsd as [|? ? Hsd' Hgt]; subst.
    constructor; [|apply IH; exact Hsd'].
    intros Hin. rewrite Forall_forall in Hgt. specialize (Hgt a Hin). lra.
Qed.

(** [setCellSize(vector)] in exact arithmetic: the sizes kept are the
    given ones in non-increasing order, each as often as it was given, so
    they decrease strictly exactly when the vector had no repeated entry;
    the layer count is the vector's length, and so is the number of
    parameter sets. *)
Theorem setCellSize_vector_sorted (this : D2D R) (cell_sizes : list R) :
  let this' := setCellSize_vector cell_sizes this in
  Permutation cell_sizes (getCellSizes this')
  /\ non_increasing (getCellSizes this')
  /\ (NoDup cell_sizes <-> strictly_decreasing (getCellSizes this'))
  /\ layer_count_ this' = Z.of_nat (length cell_sizes)
  /\ length (params_ this') = length cell_sizes.
Proof.
  intros this'. subst this'. rewrite setCellSize_vector_assigns.
  unfold getCellSizes.
  cbn [cell_sizes_ params_ layer_count_ set_params_ set_cell_sizes_
       set_layer_count_].
  assert (Permutation cell_sizes (rev (std_sort cell_sizes))) as Hperm.
  { rewrite <- Permutation_rev. apply std_sort_perm. }
  split; [exact Hperm|].
  split; [apply rev_std_sort_non_increasing|].
  split.
  - rewrite <- (non_increasing_NoDup _ (rev_std_sort_non_increasing cell_sizes)).
    split; intros Hnd.
    + eapply Permutation_NoDup; eassumption.
    + eapply Permutation_NoDup; [symmetry|]; eassumption.
  - split; [reflexivity|].
    rewrite length_map. symmetry. apply Permutation_length. exact Hperm.
Qed.

End CellSizeVectorExact.

(* ================================================================== *)
(** * The fitting parameters and the sign of the score *)
(* ================================================================== *)

Section FittingParamsExact.
Import Exact.
Local Open Scope R_scope.

Lemma Rpower_2 (x : R) : 0 < x -> Rpower x 2 = x * x.
Proof.
  intros Hx. change 2 with (INR 2). rewrite Rpower_pow by exact Hx.
  cbn. ring.
Qed.

(** The fields that [calcParams] computes, in exact arithmetic. *)
Lemma FittingParams_new_exact (r rho : R) :
  let c1 := 10 * (1 - r) in
  let c2 := r / Rpower rho 2 in
  let d1 := ln c2 - ln (c1 + c2) in
  let d2 := -2 * ln ((ln c2 - ln (c1 * exp (- (5 / 10)) + c2)) / d1) in
  FittingParams_new r rho = mkFittingParams d1 d2 (d2 / 2).
Proof.
  intros c1 c2 d1 d2. unfold FittingParams_new, calcParams, lit.
  cbn [gauss_d1_ gauss_d2_ gauss_d2__half_ sofZ sadd ssub smul sdiv sopp
       scalar c_log c_exp c_pow libm].
  fold c1. fold c2.
  replace (- ln (c1 + c2) - - ln c2) with d1 by (unfold d1; ring).
  replace (- ln (c1 * exp (- (5 / 10)) + c2) - - ln c2)
    with (ln c2 - ln (c1 * exp (- (5 / 10)) + c2)) by ring.
  reflexivity.
Qed.

(** For an outlier ratio inside (0, 1) and a positive resolution, in exact
    arithmetic: [gauss_d1_] is negative and [gauss_d2_] is positive, so
    each pair's score [-d1 exp(-d2/2 d)] is a positive bump that decays
    with the distance [d]; [gauss_d2__half_] is half of [gauss_d2_]; and
    [gauss_d1_ = ln(c2 / (c1 + c2))] with [c1 = 10 (1 - r)] and
    [c2 = r / rho^2]. *)
Theorem FittingParams_signs (r rho : R) :
  0 < r < 1 -> 0 < rho ->
  let p := FittingParams_new r rho in
  let c1 := 10 * (1 - r) in
  let c2 := r / (rho * rho) in
  gauss_d1_ p < 0 /\ 0 < gauss_d2_ p
  /\ gauss_d2__half_ p = gauss_d2_ p / 2
  /\ gauss_d1_ p = ln (c2 / (c1 + c2)).
Proof.
  intros Hr Hrho p c1 c2. subst p.
  pose proof (FittingParams_new_exact r rho) as Hp. cbv zeta in Hp.
  rewrite Hp. rewrite (Rpower_2 rho Hrho). fold c1. fold c2.
  cbn [gauss_d1_ gauss_d2_ gauss_d2__half_].
  assert (0 < c1) as Hc1 by (unfold c1; lra).
  assert (0 < c2) as Hc2.
  { unfold c2. apply Rdiv_lt_0_compat; [lra|]. apply Rmult_lt_0_compat; lra. }
  assert (0 < exp (- (5 / 10)) < 1) as He.
  { split; [apply exp_pos|]. rewrite <- exp_0. apply exp_increasing. lra. }
  set (e := exp (- (5 / 10))) in *.
  assert (c1 * e < c1) as Hce.
  { replace c1 with (c1 * 1) at 2 by ring. apply Rmult_lt_compat_l; lra. }
  assert (0 < c1 * e) as Hce0 by (apply Rmult_lt_0_compat; lra).
  set (d1 := ln c2 - ln (c1 + c2)).
  set (n := ln c2 - ln (c1 * e + c2)).
  assert (ln c2 < ln (c1 * e + c2)) as H1 by (apply ln_increasing; lra).
  assert (ln (c1 * e + c2) < ln (c1 + c2)) as H2 by (apply ln_increasing; lra).
  assert (d1 < 0) as Hd1 by (unfold d1; lra).
  assert (d1 < n < 0) as Hn by (unfold d1, n; lra).
  split; [exact Hd1|]. split; [|split; [reflexivity|]].
  - assert (0 < n / d1 < 1) as Hq.
    { split.
      - replace (n / d1) with ((- n) / (- d1)) by (field; lra).
        apply Rdiv_lt_0_compat; lra.
      - replace (n / d1) with ((- n) / (- d1)) by (field; lra).
        apply Rmult_lt_reg_r with (r := - d1); [lra|].
        unfold Rdiv. rewrite Rmult_assoc, Rinv_l by lra. lra. }
    assert (ln (n / d1) < 0) as Hl.
    { rewrite <- ln_1. apply ln_increasing; lra. }
    lra.
  - unfold d1, Rdiv. rewrite ln_mult, ln_Rinv; try lra.
    apply Rinv_0_lt_compat. lra.
Qed.

(** The defaults: outlier ratio 0.55 at the resolution 1 / 0.25 = 4. *)
Lemma FittingParams_signs_witness :
  0 < 55 / 100 < 1 /\ 0 < 4
  /\ gauss_d1_ (FittingParams_new (55 / 100) 4) < 0
  /\ 0 < gauss_d2_ (FittingParams_new (55 / 100) 4).
Proof.
  assert (0 < 55 / 100 < 1) as Hr by lra.
  assert (0 < 4) as Hrho by lra.
  split; [exact Hr|]. split; [exact Hrho|].
  pose proof (FittingParams_signs (55 / 100) 4 Hr Hrho) as Hthm.
  cbv zeta in Hthm. destruct Hthm as (Hd1 & Hd2 & _).
  split; [exact Hd1|exact Hd2].
Defined.

End FittingParamsExact.

(* ================================================================== *)
(** * The score accumulator [calcScore] *)
(* ================================================================== *)

Section ScoreAccumulatorFacts.
Context {T : Type} `{Scalar T} `{Libm T} `{EigenOps T}.
Variable computeDerivatives_v :
  V3 T -> Mat3 T -> bool -> JacobianHessianDerivatives T.
Variable calcSourceCellScore_v :
  V3 T -> Mat3 T -> Leaf T -> JacobianHessianDerivatives T -> FittingParams T ->
  bool -> ScoreAndDerivatives T.
Variable omp_thread : nat -> nat.
Local Open Scope scalar_scope.

Local Abbreviation contributions :=
  (cell_contributions computeDerivatives_v calcSourceCellScore_v).

Lemma list_update_Forall {A} (P : A -> Prop) (f : A -> A) (i : nat) :
  (forall a, P a -> P (f a)) ->
  forall l, Forall P l -> Forall P (list_update i f l).
Proof.
  intros Hf l Hl. revert i. induction Hl as [|a l Ha Hl IH]; intros i.
  - destruct i; constructor.
  - destruct i as [|i]; cbn; constructor; auto.
Qed.

Lemma list_update_length {A} (f : A -> A) : forall (l : list A) (i : nat),
  length (list_update i f l) = length l.
Proof.
  induction l as [|a l IH]; intros [|i]; cbn; auto.
Qed.

(** A property of scores that holds of the zero score, is kept by [+=]
    and holds of every pair's contribution holds of every slot while the
    parallel loop runs, and of the sum that [calcScore] returns: whatever
    the schedule, even one that names a slot that does not exist. *)
Lemma calcScore_invariant (P : ScoreAndDerivatives T -> Prop)
    (param : FittingParams T) (sourceNDT : VoxelGridCovariance T) (trans : V3 T)
    (targetNDT : VoxelGridCovariance T) (calc_hessian : bool) :
  P ScoreAndDerivatives_Zero ->
  (forall a b, P a -> P b -> P (ScoreAndDerivatives_add a b)) ->
  (forall cell, In cell (getLeaves sourceNDT) ->
      Forall P (contributions param (vecToMat Double trans) targetNDT
                  calc_hessian cell)) ->
  P (calcScore computeDerivatives_v calcSourceCellScore_v omp_thread param
       sourceNDT trans targetNDT calc_hessian).
Proof.
  intros Hzero Hadd Hcontrib. unfold calcScore.
  set (trans_mat := vecToMat Double trans) in *.
  assert (Forall P (repeat ScoreAndDerivatives_Zero 4
                      ++ repeat ScoreAndDerivatives_Zero 4)) as Hslots
    by (repeat constructor; exact Hzero).
  revert Hslots.
  generalize (repeat (@ScoreAndDerivatives_Zero T _) 4
                ++ repeat ScoreAndDerivatives_Zero 4) as omp_ret.
  generalize 0%nat as cell_id.
  induction (getLeaves sourceNDT) as [|cell cells IH];
    intros cell_id omp_ret Hslots; cbn [omp_for].
  - assert (forall l acc, P acc -> Forall P l ->
                          P (fold_left ScoreAndDerivatives_add l acc)) as Hsum.
    { induction l as [|s l IHl]; intros acc Hacc Hl; cbn; [exact Hacc|].
      inversion Hl; subst. apply IHl; auto. }
    apply Hsum; assumption.
  - apply IH; [intros c Hc; apply Hcontrib; right; exact Hc|].
    unfold omp_body.
    pose proof (Hcontrib cell (or_introl eq_refl)) as Hcs.
    revert omp_ret Hslots.
    induction Hcs as [|c cs Hc Hcs IHcs]; intros omp_ret Hslots; cbn [fold_left];
      [exact Hslots|].
    apply IHcs. apply list_update_Forall; [|exact Hslots].
    intros a Ha. apply Hadd; assumption.
Qed.

(** The same when the property holds of every pair's contribution. *)
Lemma calcScore_invariant_pairs (P : ScoreAndDerivatives T -> Prop)
    (param : FittingParams T) (sourceNDT : VoxelGridCovariance T) (trans : V3 T)
    (targetNDT : VoxelGridCovariance T) (calc_hessian : bool) :
  P ScoreAndDerivatives_Zero ->
  (forall a b, P a -> P b -> P (ScoreAndDerivatives_add a b)) ->
  (forall mean_source cov_source cell_t deriv,
      P (calcSourceCellScore_v mean_source cov_source cell_t deriv param
           calc_hessian)) ->
  P (calcScore computeDerivatives_v calcSourceCellScore_v omp_thread param
       sourceNDT trans targetNDT calc_hessian).
Proof.
  intros Hzero Hadd Hpair. apply calcScore_invariant; try assumption.
  intros cell _. unfold cell_contributions. apply Forall_forall. intros c Hc.
  apply in_map_iff in Hc as (tc & <- & _). apply Hpair.
Qed.

End ScoreAccumulatorFacts.

Section ScoreSignExact.
Import Exact.
Context {E : EigenOps R}.
Local Open Scope R_scope.



End ScoreSignExact.

Section ScoreSignExample.
Import Exact.
Local Open Scope R_scope.


End ScoreSignExample.

Section PairHessian.
Context {T : Type} `{Scalar T} `{Libm T} `{EigenOps T}.

(** Without [calc_hessian] a pair contributes no Hessian. *)
Lemma calcSourceCellScore_no_hessian (mean_source : V3 T) (cov_source : Mat3 T)
    (cell_t : Leaf T) (deriv : JacobianHessianDerivatives T)
    (param : FittingParams T) :
  hessian_ (calcSourceCellScore mean_source cov_source cell_t deriv param false)
  = m3zero.
Proof.
  unfold calcSourceCellScore.
  destruct (e_inverse_check _) as [[icov det] exists_].
  destruct exists_; cbn [negb]; [|reflexivity].
  destruct (negb _); reflexivity.
Qed.

End PairHessian.

Section ScoreAccumulatorIEEE.
Import IEEE.
Context `{Libm float} `{EigenOps float}.
Local Open Scope float_scope.

Lemma zero_score_add :
  ScoreAndDerivatives_add ScoreAndDerivatives_Zero ScoreAndDerivatives_Zero
  = (ScoreAndDerivatives_Zero : ScoreAndDerivatives float).
Proof. reflexivity. Qed.

(** The line search asks for the score with [calc_hessian = false]: then
    the Hessian that [calcScore] returns is the zero matrix, in IEEE
    arithmetic, for every schedule, pose and pair of grids (each slot only
    ever adds zero matrices). *)
Theorem calcScore_without_hessian (omp_thread : nat -> nat)
    (param : FittingParams float) (sourceNDT : VoxelGridCovariance float)
    (trans : V3 float) (targetNDT : VoxelGridCovariance float) :
  hessian_ (D2D_calcScore omp_thread param sourceNDT trans targetNDT false)
  = m3zero.
Proof.
  unfold D2D_calcScore.
  apply (calcScore_invariant_pairs computeDerivatives calcSourceCellScore
           omp_thread (fun s => hessian_ s = m3zero)).
  - reflexivity.
  - intros a b Ha Hb. cbn [hessian_ ScoreAndDerivatives_add].
    rewrite Ha, Hb. reflexivity.
  - intros. apply calcSourceCellScore_no_hessian.
Qed.

(** Nothing to match: when the source grid has no leaf, or the search in
    the target grid finds no neighbour, [calcScore] returns the zero
    score, gradient and Hessian, for every schedule. *)
Theorem calcScore_nothing_to_match (omp_thread : nat -> nat)
    (param : FittingParams float) (sourceNDT : VoxelGridCovariance float)
    (trans : V3 float) (targetNDT : VoxelGridCovariance float)
    (calc_hessian : bool) :
  getLeaves sourceNDT = [] \/ (forall pt, nearestKSearch targetNDT pt 2 = []) ->
  D2D_calcScore omp_thread param sourceNDT trans targetNDT calc_hessian
  = ScoreAndDerivatives_Zero.
Proof.
  intros Hnone. unfold D2D_calcScore.
  apply (calcScore_invariant computeDerivatives calcSourceCellScore omp_thread
           (fun s => s = ScoreAndDerivatives_Zero)).
  - reflexivity.
  - intros a b -> ->. apply zero_score_add.
  - intros cell Hin. destruct Hnone as [Hsrc|Htgt].
    + rewrite Hsrc in Hin. destruct Hin.
    + unfold cell_contributions. rewrite Htgt. constructor.
Qed.

End ScoreAccumulatorIEEE.

Section ScoreAccumulatorExample.
Import IEEE.
#[local] Existing Instance Fixture.libm.
#[local] Existing Instance Fixture.eigen.
Local Open Scope float_scope.

(** A source grid of one cell against a target grid without leaves. *)
Lemma calcScore_nothing_to_match_witness :
  let source := mkGrid [mkLeaf (mkV3 1 2 0) m3identity] (fun _ _ => []) in
  (getLeaves source = []
   \/ (forall pt, nearestKSearch Fixture.empty_grid pt 2 = []))
  /\ D2D_calcScore Example.one_thread Example.param source (mkV3 0 0 0)
       Fixture.empty_grid true
     = ScoreAndDerivatives_Zero.
Proof.
  intros source.
  assert (getLeaves source = []
          \/ (forall pt, nearestKSearch Fixture.empty_grid pt 2 = [])) as Hnone
    by (right; intros pt; reflexivity).
  split; [exact Hnone|].
  exact (calcScore_nothing_to_match Example.one_thread Example.param source
           (mkV3 0 0 0) Fixture.empty_grid true Hnone).
Defined.

End ScoreAccumulatorExample.

Section ParallelSum.
Context {T : Type} `{Scalar T} `{Libm T} `{EigenOps T}.
Local Open Scope scalar_scope.

(** The laws of an exact addition. *)
Hypothesis sadd_comm : forall x y : T, x + y = y + x.
Hypothesis sadd_assoc : forall x y z : T, x + (y + z) = x + y + z.
Hypothesis sadd_0_l : forall x : T, #0 + x = x.

Variable computeDerivatives_v :
  V3 T -> Mat3 T -> bool -> JacobianHessianDerivatives T.
Variable calcSourceCellScore_v :
  V3 T -> Mat3 T -> Leaf T -> JacobianHessianDerivatives T -> FittingParams T ->
  bool -> ScoreAndDerivatives T.
Variable omp_thread : nat -> nat.

Local Abbreviation add := (@ScoreAndDerivatives_add T _).
Local Abbreviation zero := (@ScoreAndDerivatives_Zero T _).

Lemma v3add_comm (a b : V3 T) : v3add a b = v3add b a.
Proof.
  destruct a, b. unfold v3add, v3zip. cbn. f_equal; apply sadd_comm.
Qed.

Lemma v3add_assoc (a b c : V3 T) : v3add a (v3add b c) = v3add (v3add a b) c.
Proof.
  destruct a, b, c. unfold v3add, v3zip. cbn. f_equal; apply sadd_assoc.
Qed.

Lemma v3add_0_l (a : V3 T) : v3add v3zero a = a.
Proof.
  destruct a. unfold v3add, v3zip, v3zero. cbn. f_equal; apply sadd_0_l.
Qed.

Lemma score_add_comm (a b : ScoreAndDerivatives T) : add a b = add b a.
Proof.
  destruct a as [[? ? ?] ? ?], b as [[? ? ?] ? ?].
  unfold ScoreAndDerivatives_add, m3add, v3zip. cbn.
  f_equal; [f_equal; apply v3add_comm|apply v3add_comm|apply sadd_comm].
Qed.

Lemma score_add_assoc (a b c : ScoreAndDerivatives T) :
  add a (add b c) = add (add a b) c.
Proof.
  destruct a as [[? ? ?] ? ?], b as [[? ? ?] ? ?], c as [[? ? ?] ? ?].
  unfold ScoreAndDerivatives_add, m3add, v3zip. cbn.
  f_equal; [f_equal; apply v3add_assoc|apply v3add_assoc|apply sadd_assoc].
Qed.

Lemma score_add_0_l (a : ScoreAndDerivatives T) : add zero a = a.
Proof.
  destruct a as [[? ? ?] ? ?].
  unfold ScoreAndDerivatives_add, ScoreAndDerivatives_Zero, m3add, m3zero, v3zip.
  cbn. f_equal; [f_equal; apply v3add_0_l|apply v3add_0_l|apply sadd_0_l].
Qed.

(** The sum of the slots, as the last loop of [calcScore] takes it. *)
Definition slots_total (omp_ret : list (ScoreAndDerivatives T))
    : ScoreAndDerivatives T :=
  fold_left ScoreAndDerivatives_add omp_ret ScoreAndDerivatives_Zero.

Lemma fold_add_shift (l : list (ScoreAndDerivatives T)) : forall acc,
  fold_left ScoreAndDerivatives_add l acc = add acc (slots_total l).
Proof.
  unfold slots_total.
  induction l as [|a l IH]; intros acc; cbn [fold_left].
  - rewrite score_add_comm. symmetry. apply score_add_0_l.
  - rewrite (IH (add acc a)), (IH (add zero a)), score_add_0_l.
    symmetry. apply score_add_assoc.
Qed.

(** Adding a contribution to one slot adds it to the total. *)
Lemma slots_total_update (c : ScoreAndDerivatives T) :
  forall (omp_ret : list (ScoreAndDerivatives T)) (thread_id : nat),
    (thread_id < length omp_ret)%nat ->
    slots_total (list_update thread_id (fun slot => add slot c) omp_ret)
    = add (slots_total omp_ret) c.
Proof.
  unfold slots_total.
  induction omp_ret as [|a l IH]; intros thread_id Hlt; [inversion Hlt|].
  destruct thread_id as [|i]; cbn [list_update fold_left].
  - rewrite !score_add_0_l, (fold_add_shift l (add a c)), (fold_add_shift l a).
    rewrite <- !score_add_assoc. f_equal. apply score_add_comm.
  - rewrite !score_add_0_l.
    rewrite (fold_add_shift (list_update i _ l) a), (fold_add_shift l a).
    unfold slots_total. rewrite IH by (cbn in Hlt; lia).
    apply score_add_assoc.
Qed.

Hypothesis omp_thread_slot : forall cell_id, (omp_thread cell_id < 8)%nat.

Lemma omp_for_total param trans_mat targetNDT calc_hessian :
  forall source_cells cell_id omp_ret,
    length omp_ret = 8%nat ->
    slots_total
      (omp_for computeDerivatives_v calcSourceCellScore_v omp_thread param
         trans_mat targetNDT calc_hessian cell_id source_cells omp_ret)
    = fold_left ScoreAndDerivatives_add
        (flat_map
           (cell_contributions computeDerivatives_v calcSourceCellScore_v param
              trans_mat targetNDT calc_hessian) source_cells)
        (slots_total omp_ret).
Proof.
  induction source_cells as [|cell cells IH]; intros cell_id omp_ret Hlen;
    cbn [omp_for flat_map fold_left]; [reflexivity|].
  rewrite fold_left_app.
  assert (forall cs ret, length ret = 8%nat ->
            length (fold_left
                      (fun ret c =>
                         list_update (omp_thread cell_id)
                           (fun slot => add slot c) ret) cs ret) = 8%nat
            /\ slots_total
                 (fold_left
                    (fun ret c =>
                       list_update (omp_thread cell_id)
                         (fun slot => add slot c) ret) cs ret)
               = fold_left ScoreAndDerivatives_add cs (slots_total ret))
    as Hbody.
  { induction cs as [|c cs IHcs]; intros ret Hret; cbn [fold_left];
      [split; [exact Hret|reflexivity]|].
    destruct (IHcs (list_update (omp_thread cell_id)
                      (fun slot => add slot c) ret)) as [Hl Ht].
    { rewrite list_update_length. exact Hret. }
    split; [exact Hl|]. rewrite Ht. f_equal.
    apply slots_total_update. rewrite Hret. apply omp_thread_slot. }
  unfold omp_body.
  destruct (Hbody (cell_contributions computeDerivatives_v calcSourceCellScore_v
                     param trans_mat targetNDT calc_hessian cell) omp_ret Hlen)
    as [Hl Ht].
  rewrite IH by exact Hl. rewrite Ht. reflexivity.
Qed.

(** When the scalar addition is associative and commutative with zero as
    its identity (exact arithmetic), and every thread number names one of
    the eight slots, the reduction over the slots that [calcScore]
    returns is the sum of all the pair contributions taken one after the
    other in the order of the source cells: the result does not depend on
    how the iterations are shared among the threads.  This holds for any
    overriding [computeDerivatives] and [calcSourceCellScore]. *)
Theorem calcScore_parallel_sum (param : FittingParams T)
    (sourceNDT : VoxelGridCovariance T) (trans : V3 T)
    (targetNDT : VoxelGridCovariance T) (calc_hessian : bool) :
  calcScore computeDerivatives_v calcSourceCellScore_v omp_thread param
    sourceNDT trans targetNDT calc_hessian
  = calcScore_sequential computeDerivatives_v calcSourceCellScore_v param
      sourceNDT trans targetNDT calc_hessian.
Proof.
  unfold calcScore, calcScore_sequential.
  rewrite (fold_add_shift _ ScoreAndDerivatives_Zero), score_add_0_l.
  rewrite omp_for_total by reflexivity.
  f_equal. unfold slots_total. cbn [repeat app fold_left].
  rewrite !score_add_0_l. reflexivity.
Qed.

End ParallelSum.

Section ParallelSumExample.
Import Exact.
Local Open Scope R_scope.

(** Three source cells shared between two threads, each with one
    neighbour, in exact arithmetic. *)
Lemma calcScore_parallel_sum_witness :
  let E0 : EigenOps R := eigen_stand_in in
  let schedule := fun cell_id => Nat.modulo cell_id 2 in
  let leaf := mkLeaf (mkV3 1 2 0) m3identity in
  let grid := mkGrid [leaf; leaf; leaf] (fun _ _ => [leaf]) in
  let param := mkFittingParams (-1) 1 (1 / 2) in
  (forall cell_id, (schedule cell_id < 8)%nat)
  /\ @D2D_calcScore R scalar libm E0 schedule param grid (mkV3 0 0 0) grid true
     = @calcScore_sequential R scalar libm E0 computeDerivatives
         calcSourceCellScore param grid (mkV3 0 0 0) grid true.
Proof.
  intros E0 schedule leaf grid param.
  assert (forall cell_id, (schedule cell_id < 8)%nat) as Hslot.
  { intros cell_id. unfold schedule.
    pose proof (Nat.mod_upper_bound cell_id 2). lia. }
  split; [exact Hslot|].
  exact (@calcScore_parallel_sum R scalar libm E0 Rplus_comm
           (fun x y z => eq_sym (Rplus_assoc x y z)) Rplus_0_l
           computeDerivatives calcSourceCellScore schedule Hslot param grid
           (mkV3 0 0 0) grid true).
Defined.

End ParallelSumExample.

Section ScheduleDependence.
Import IEEE.
#[local] Existing Instance Fixture.libm.
#[local] Existing Instance Fixture.eigen.
Local Open Scope float_scope.

(** Six source cells at the origin with covariance I/2, each with the one
    target cell of the same mean and covariance as its neighbour: every
    pair is at distance 0 and contributes [-d1 exp(-0) = 0.1]. *)
Definition origin_leaf : Leaf float :=
  mkLeaf (mkV3 0 0 0) (mkV3 (mkV3 0.5 0 0) (mkV3 0 0.5 0) (mkV3 0 0 0.5)).
Definition six_cells : VoxelGridCovariance float :=
  mkGrid (repeat origin_leaf 6) (fun _ _ => []).
Definition one_target : VoxelGridCovariance float :=
  mkGrid [origin_leaf] (fun _ _ => [origin_leaf]).
Definition tenth_param : FittingParams float := mkFittingParams (-0.1) 1 0.5.

(** The static schedule of six iterations on two threads. *)
Definition two_threads (cell_id : nat) : nat :=
  if (cell_id <? 3)%nat then 0%nat else 1%nat.

(** With floating-point addition the result depends on the schedule: all
    six iterations on one thread add 0.1 six times in one slot (0.6, which
    is also the sequential sum), three and three add two slots of
    0.30000000000000004 each (0.6000000000000001). *)
Theorem calcScore_schedule_dependent :
  ((forall cell_id, (Example.one_thread cell_id < 2)%nat)
   /\ (forall cell_id, (two_threads cell_id < 2)%nat))
  /\ value_ (D2D_calcScore Example.one_thread tenth_param six_cells (mkV3 0 0 0)
               one_target false) = 0.6
  /\ value_ (D2D_calcScore two_threads tenth_param six_cells (mkV3 0 0 0)
               one_target false) = 0.6000000000000001
  /\ value_ (calcScore_sequential computeDerivatives calcSourceCellScore
               tenth_param six_cells (mkV3 0 0 0) one_target false) = 0.6
  /\ (0.6 =? 0.6000000000000001) = false.
Proof.
  split; [split|].
  - intros cell_id. unfold Example.one_thread. lia.
  - intros cell_id. unfold two_threads. destruct (cell_id <? 3)%nat; lia.
  - repeat split; vm_compute; reflexivity.
Qed.

End ScheduleDependence.

(* ================================================================== *)
(** * The line search in IEEE arithmetic *)
(* ================================================================== *)

Module IEEEOrder.
Import IEEE.
Local Open Scope float_scope.

Lemma leb_not_nan_l (x y : float) : (x <=? y) = true -> is_nan x = false.
Proof.
  intros Hle. destruct (is_nan x) eqn:E; [|reflexivity].
  apply IEEEFacts.is_nan_spec in E. rewrite leb_spec in Hle.
  unfold SFleb in Hle. rewrite E in Hle. discriminate.
Qed.

Lemma leb_refl (x : float) : is_nan x = false -> (x <=? x) = true.
Proof.
  intros Hx. rewrite leb_spec. unfold SFleb.
  rewrite IEEEFacts.SFcompare_refl; [reflexivity|].
  intros Hn. apply IEEEFacts.is_nan_spec in Hn. congruence.
Qed.

Lemma leb_ltb_false (x y : float) : (x <=? y) = true -> (y <? x) = false.
Proof.
  intros Hle.
  rewrite (IEEEFacts.ltb_negb_leb y x), Hle; [reflexivity| |].
  - exact (IEEEFacts.leb_not_nan_r _ _ Hle).
  - exact (leb_not_nan_l _ _ Hle).
Qed.

Lemma ltb_false_leb (x y : float) :
  is_nan x = false -> is_nan y = false -> (x <? y) = false -> (y <=? x) = true.
Proof.
  intros Hx Hy Hlt. rewrite (IEEEFacts.ltb_negb_leb x y Hx Hy) in Hlt.
  destruct (y <=? x); [reflexivity|discriminate].
Qed.

(** NaN in arithmetic and in comparisons. *)
Lemma add_nan_l (x : float) : nan + x = nan.
Proof. apply Prim2SF_inj. rewrite add_spec. reflexivity. Qed.
Lemma sub_nan_l (x : float) : nan - x = nan.
Proof. apply Prim2SF_inj. rewrite sub_spec. reflexivity. Qed.
Lemma opp_nan : - nan = nan.
Proof. reflexivity. Qed.
Lemma ltb_nan_l (x : float) : (nan <? x) = false.
Proof. rewrite ltb_spec. reflexivity. Qed.
Lemma ltb_nan_r (x : float) : (x <? nan) = false.
Proof. rewrite ltb_spec. unfold SFltb. destruct (Prim2SF x); reflexivity. Qed.
Lemma leb_nan_l (x : float) : (nan <=? x) = false.
Proof. rewrite leb_spec. reflexivity. Qed.
Lemma leb_nan_r (x : float) : (x <=? nan) = false.
Proof. rewrite leb_spec. unfold SFleb. destruct (Prim2SF x); reflexivity. Qed.

(** [x] is NaN or lies in [[lo, hi]]. *)
Definition nan_or_within (lo hi x : float) : Prop :=
  is_nan x = true \/ ((lo <=? x) = true /\ (x <=? hi) = true).

(** The clamp [max(min(a, hi), lo)] of the line search lets a NaN through
    (both comparisons are false) and brings every other value into
    [[lo, hi]]. *)
Lemma clamp_nan_or_within (lo hi a : float) :
  (lo <=? hi) = true -> nan_or_within lo hi (std_max (std_min a hi) lo).
Proof.
  intros Hle. unfold nan_or_within, std_max, std_min.
  change (@sltb float scalar) with PrimFloat.ltb.
  pose proof (leb_not_nan_l _ _ Hle) as Hlo.
  pose proof (IEEEFacts.leb_not_nan_r _ _ Hle) as Hhi.
  destruct (hi <? a) eqn:Ea.
  - rewrite (leb_ltb_false _ _ Hle). right. split; [exact Hle|].
    apply leb_refl. exact Hhi.
  - destruct (is_nan a) eqn:Ena.
    + apply IEEEFacts.nan_unique in Ena. subst a. rewrite ltb_nan_l.
      left. reflexivity.
    + destruct (a <? lo) eqn:El.
      * right. split; [apply leb_refl; exact Hlo|exact Hle].
      * right. split; apply ltb_false_leb; assumption.
Qed.

End IEEEOrder.

Section LineSearchExit.
Context {T : Type} `{Scalar T}.
Variable calcScore_v :
  FittingParams T -> VoxelGridCovariance T -> V3 T -> VoxelGridCovariance T ->
  bool -> ScoreAndDerivatives T.
Local Open Scope scalar_scope.

Section Loop.
Variables (x step_dir : V3 T) (step_max step_min phi_0 d_phi_0 : T).
Variables (source_grid target_grid : VoxelGridCovariance T).
Variable param : FittingParams T.

Local Abbreviation body :=
  (MT_body calcScore_v x step_dir step_max step_min phi_0 d_phi_0 source_grid
     target_grid param).
Local Abbreviation while :=
  (MT_while calcScore_v x step_dir step_max step_min phi_0 d_phi_0 source_grid
     target_grid param).

(** The score at the step length [a] along the search direction. *)
Definition score_at_step (a : T) : ScoreAndDerivatives T :=
  calcScore_v param source_grid (v3add x (v3scale_r step_dir a)) target_grid
    false.

(** The locals [phi_t], [d_phi_t], [psi_t] and [d_psi_t] are those of the
    current trial step [a_t]. *)
Definition MT_consistent (s : MTLocals) : Prop :=
  mt_phi_t s = - value_ (score_at_step (mt_a_t s))
  /\ mt_d_phi_t s = - dot3 (gradient_ (score_at_step (mt_a_t s))) step_dir
  /\ mt_psi_t s = auxilaryFunction_PsiMT (mt_a_t s) (mt_phi_t s) phi_0 d_phi_0 mu
  /\ mt_d_psi_t s = auxilaryFunction_dPsiMT (mt_d_phi_t s) d_phi_0 mu.

(** What one run of the body leaves: a trial step that went through the
    clamp, locals that belong to it, one more iteration. *)
Lemma MT_body_spec (s : MTLocals) :
  (exists a, mt_a_t (body s) = std_max (std_min a step_max) step_min)
  /\ MT_consistent (body s)
  /\ mt_step_iterations (body s) = (mt_step_iterations s + 1)%Z.
Proof.
  unfold MT_consistent, score_at_step, MT_body.
  repeat match goal with
         | |- context [let '(_, _) := ?e in _] => destruct e
         end.
  cbn [mt_a_t mt_phi_t mt_d_phi_t mt_psi_t mt_d_psi_t mt_step_iterations].
  split; [eexists; reflexivity|]. repeat split.
Qed.

(** The interval update of one run of the body, from the locals that the
    run leaves. *)
Lemma MT_body_update (s : MTLocals) :
  let s' := body s in
  let Iv := mt_I s in
  let closing :=
    mt_open_interval s && ((mt_psi_t s' <=? #0) && (mt_d_psi_t s' >=? #0)) in
  let Iv1 :=
    if closing then
      mkInterval (a_l Iv) (f_l Iv + phi_0 - mu * d_phi_0 * a_l Iv)
        (g_l Iv + mu * d_phi_0)
        (a_u Iv) (f_u Iv + phi_0 - mu * d_phi_0 * a_u Iv)
        (g_u Iv + mu * d_phi_0)
    else Iv in
  mt_open_interval s' = (if closing then false else mt_open_interval s)
  /\ (mt_interval_converged s', mt_I s')
     = (if mt_open_interval s' then
          updateIntervalMT Iv1 (mt_a_t s') (mt_psi_t s') (mt_d_psi_t s')
        else updateIntervalMT Iv1 (mt_a_t s') (mt_phi_t s') (mt_d_phi_t s')).
Proof.
  unfold MT_body.
  match goal with
  | |- context [if ?c then (false, ?i) else (?o, ?j)] =>
      destruct c eqn:Ec
  end.
  - cbn [mt_a_t mt_phi_t mt_d_phi_t mt_psi_t mt_d_psi_t mt_open_interval
         mt_interval_converged mt_I].
    match goal with
    | |- context [updateIntervalMT ?i ?a ?f ?g] =>
        destruct (updateIntervalMT i a f g) as [conv Iv2] eqn:Eu
    end.
    cbn [mt_a_t mt_phi_t mt_d_phi_t mt_psi_t mt_d_psi_t mt_open_interval
         mt_interval_converged mt_I].
    rewrite Ec. split; [reflexivity|]. symmetry. exact Eu.
  - destruct (mt_open_interval s) eqn:Eo.
    + match goal with
      | |- context [updateIntervalMT ?i ?a ?f ?g] =>
          destruct (updateIntervalMT i a f g) as [conv Iv2] eqn:Eu
      end.
      cbn [mt_a_t mt_phi_t mt_d_phi_t mt_psi_t mt_d_psi_t mt_open_interval
           mt_interval_converged mt_I].
      rewrite Ec. split; [reflexivity|]. symmetry. exact Eu.
    + match goal with
      | |- context [updateIntervalMT ?i ?a ?f ?g] =>
          destruct (updateIntervalMT i a f g) as [conv Iv2] eqn:Eu
      end.
      cbn [mt_a_t mt_phi_t mt_d_phi_t mt_psi_t mt_d_psi_t mt_open_interval
           mt_interval_converged mt_I andb].
      split; [reflexivity|]. symmetry. exact Eu.
Qed.

(** An invariant of the body holds when the loop ends, and then the
    condition of the [while] is false. *)
Lemma MT_while_invariant (P : MTLocals -> Prop) :
  (forall s, MT_continue d_phi_0 s = true -> P s -> P (body s)) ->
  forall fuel s s', while fuel s = Some s' ->
    P s -> P s' /\ MT_continue d_phi_0 s' = false.
Proof.
  intros Hbody. induction fuel as [|fuel IH]; intros s s'; cbn [MT_while].
  - destruct (MT_continue d_phi_0 s) eqn:Ec; [discriminate|].
    intros [= <-] Hs. split; assumption.
  - destruct (MT_continue d_phi_0 s) eqn:Ec.
    + intros Hw Hs. apply (IH _ _ Hw). apply Hbody; assumption.
    + intros [= <-] Hs. split; assumption.
Qed.

End Loop.

(** How [computeStepLengthMT] ends.  It always returns.  With a vanishing
    directional derivative it returns 0 at once and leaves the direction;
    otherwise (the direction reversed when the derivative was positive) the
    loop has run between 0 and 10 times, the locals at the [return] are
    those of the returned step, and the loop ended for one of three
    reasons: the interval was reported converged, the tenth iteration was
    done, or the returned step satisfies the sufficient-decrease and the
    curvature condition. *)
Theorem computeStepLengthMT_exit (x step_dir : V3 T)
    (step_init step_max step_min : T) (source_grid : VoxelGridCovariance T)
    (score : ScoreAndDerivatives T) (target_grid : VoxelGridCovariance T)
    (param : FittingParams T) :
  let phi_0 := - value_ score in
  let d0 := - dot3 (gradient_ score) step_dir in
  match
    computeStepLengthMT_run calcScore_v x step_dir step_init step_max step_min
      source_grid score target_grid param
  with
  | None => False
  | Some (None, step_dir') =>
      step_dir' = step_dir /\ (d0 >=? #0) && (d0 =? #0) = true
  | Some (Some s, step_dir') =>
      let d_phi_0 := if d0 >=? #0 then d0 * #(-1) else d0 in
      (d0 >=? #0) && (d0 =? #0) = false
      /\ step_dir' = (if d0 >=? #0 then v3scale_r step_dir #(-1) else step_dir)
      /\ (0 <= mt_step_iterations s <= max_step_iterations)%Z
      /\ MT_consistent x step_dir' phi_0 d_phi_0 source_grid target_grid param s
      /\ (mt_interval_converged s = true
          \/ mt_step_iterations s = max_step_iterations
          \/ (mt_psi_t s <=? #0) && (mt_d_phi_t s <=? - nu * d_phi_0) = true)
  end.
Proof.
  intros phi_0 d0. unfold computeStepLengthMT_run. fold phi_0. fold d0.
  destruct ((d0 >=? #0) && (d0 =? #0)) eqn:E0; [split; reflexivity|].
  set (d_phi_0 := if d0 >=? #0 then d0 * #(-1) else d0).
  set (dir := if d0 >=? #0 then v3scale_r step_dir #(-1) else step_dir).
  replace (if d0 >=? #0 then (d0 * #(-1), v3scale_r step_dir #(-1))
           else (d0, step_dir)) with (d_phi_0, dir)
    by (subst d_phi_0 dir; destruct (d0 >=? #0); reflexivity).
  match goal with
  | |- context [MT_while ?c ?x ?d ?a ?b ?p ?dp ?sg ?tg ?pa ?f ?s0] =>
      pose proof (MT_while_terminates c x d a b p dp sg tg pa f s0) as Hterm;
      pose proof (MT_while_invariant x d a b p dp sg tg pa
                    (fun s =>
                       (0 <= mt_step_iterations s <= max_step_iterations)%Z
                       /\ MT_consistent x d p dp sg tg pa s)) as Hinv;
      specialize (fun Hb => Hinv Hb f s0);
      destruct (MT_while c x d a b p dp sg tg pa f s0) as [s|]
  end.
  - split; [reflexivity|]. split; [reflexivity|].
    destruct (Hinv) with (s' := s) as [[Hit Hcons] Hexit].
    + intros s1 Hc [Hit1 _].
      destruct (MT_body_spec x dir step_max step_min phi_0 d_phi_0 source_grid
                  target_grid param s1) as (_ & Hcons1 & Hit1').
      split; [|exact Hcons1]. rewrite Hit1'.
      unfold MT_continue in Hc. apply andb_true_iff in Hc as [Hc _].
      apply andb_true_iff in Hc as [_ Hc]. apply Z.ltb_lt in Hc. lia.
    + reflexivity.
    + split; [cbn; unfold max_step_iterations; lia|].
      unfold MT_consistent, score_at_step. cbn. repeat split.
    + split; [exact Hit|]. split; [exact Hcons|].
      unfold MT_continue in Hexit.
      destruct (mt_interval_converged s); [left; reflexivity|].
      destruct (mt_step_iterations s <? max_step_iterations)%Z eqn:El.
      * right. right. cbn in Hexit. apply negb_false_iff in Hexit. exact Hexit.
      * right. left. apply Z.ltb_ge in El. lia.
  - apply Hterm; [|reflexivity].
    unfold max_step_iterations. cbn [mt_step_iterations]. lia.
Qed.

End LineSearchExit.

Section LineSearchIEEE.
Import IEEE IEEEOrder.
Variable calcScore_v :
  FittingParams float -> VoxelGridCovariance float -> V3 float ->
  VoxelGridCovariance float -> bool -> ScoreAndDerivatives float.
Local Open Scope float_scope.

(** The step length that [computeStepLengthMT] returns, in IEEE
    arithmetic with [step_min <= step_max]: it is 0 (the early return on a
    vanishing directional derivative), or NaN (the clamp
    [max(min(a, step_max), step_min)] lets a NaN trial value through), or
    a value of [[step_min, step_max]].  So a step that is not NaN never
    exceeds [step_max] and, past the early return, never falls below
    [step_min]. *)
Theorem computeStepLengthMT_clamped (x step_dir : V3 float)
    (step_init step_max step_min : float)
    (source_grid : VoxelGridCovariance float)
    (score : ScoreAndDerivatives float)
    (target_grid : VoxelGridCovariance float) (param : FittingParams float) :
  (step_min <=? step_max) = true ->
  match
    computeStepLengthMT calcScore_v x step_dir step_init step_max step_min
      source_grid score target_grid param
  with
  | None => False
  | Some (a, _) => a = 0 \/ nan_or_within step_min step_max a
  end.
Proof.
  intros Hle. unfold computeStepLengthMT, computeStepLengthMT_run.
  destruct (_ && _); [left; reflexivity|].
  destruct (if _ : bool then _ else _) as [d_phi_0 dir].
  match goal with
  | |- context [MT_while ?c ?x ?d ?a ?b ?p ?dp ?sg ?tg ?pa ?f ?s0] =>
      pose proof (MT_while_terminates c x d a b p dp sg tg pa f s0) as Hterm;
      pose proof (MT_while_invariant c x d a b p dp sg tg pa
                    (fun s => nan_or_within step_min step_max (mt_a_t s)))
        as Hinv;
      specialize (fun Hb => Hinv Hb f s0);
      destruct (MT_while c x d a b p dp sg tg pa f s0) as [s|]
  end.
  - right. destruct Hinv with (s' := s) as [Hs _].
    + intros s1 _ _.
      match goal with
      | |- context [MT_body ?c ?x ?d ?a ?b ?p ?dp ?sg ?tg ?pa s1] =>
          destruct (MT_body_spec c x d a b p dp sg tg pa s1) as ((t & ->) & _)
      end.
      apply clamp_nan_or_within. exact Hle.
    + reflexivity.
    + cbn [mt_a_t]. apply clamp_nan_or_within. exact Hle.
    + exact Hs.
  - apply Hterm; [|reflexivity].
    unfold max_step_iterations. cbn [mt_step_iterations]. lia.
Qed.

(** A NaN score at a trial step ends the search: when [calcScore] answers
    a NaN value and a NaN first gradient component at the step that an
    iteration tries, [updateIntervalMT] reports the interval converged
    (none of its comparisons holds) without changing it, and the condition
    of the [while] is false after that iteration. *)
Theorem MT_body_nan_score (x step_dir : V3 float)
    (step_max step_min phi_0 d_phi_0 : float)
    (source_grid target_grid : VoxelGridCovariance float)
    (param : FittingParams float) (s : MTLocals) :
  let s' :=
    MT_body calcScore_v x step_dir step_max step_min phi_0 d_phi_0 source_grid
      target_grid param s in
  let score_t :=
    calcScore_v param source_grid (v3add x (v3scale_r step_dir (mt_a_t s')))
      target_grid false in
  is_nan (value_ score_t) = true ->
  is_nan (c0 (gradient_ score_t)) = true ->
  mt_interval_converged s' = true
  /\ mt_I s' = mt_I s
  /\ MT_continue d_phi_0 s' = false.
Proof.
  intros s' score_t Hv Hg.
  apply IEEEFacts.nan_unique in Hv, Hg.
  destruct (MT_body_spec calcScore_v x step_dir step_max step_min phi_0 d_phi_0
              source_grid target_grid param s) as (_ & Hcons & _).
  fold s' in Hcons. destruct Hcons as (Hphi & Horder & Hpsi & Hdpsi).
  unfold score_at_step in Hphi, Horder. fold score_t in Hphi, Horder.
  assert (mt_phi_t s' = nan) as Ephi by (rewrite Hphi, Hv; reflexivity).
  assert (mt_d_phi_t s' = nan) as Edphi.
  { rewrite Horder. unfold dot3. rewrite Hg.
    change (@smul float scalar) with PrimFloat.mul.
    change (@sadd float scalar) with PrimFloat.add.
    change (@sopp float scalar) with PrimFloat.opp.
    rewrite IEEEFacts.mul_nan_l, !add_nan_l. reflexivity. }
  assert (mt_psi_t s' = nan) as Epsi.
  { rewrite Hpsi, Ephi. unfold auxilaryFunction_PsiMT.
    change (@ssub float scalar) with PrimFloat.sub.
    rewrite !sub_nan_l. reflexivity. }
  assert (mt_d_psi_t s' = nan) as Edpsi.
  { rewrite Hdpsi, Edphi. unfold auxilaryFunction_dPsiMT.
    change (@ssub float scalar) with PrimFloat.sub.
    rewrite sub_nan_l. reflexivity. }
  pose proof (MT_body_update calcScore_v x step_dir step_max step_min phi_0
                d_phi_0 source_grid target_grid param s) as Hupd.
  cbv zeta in Hupd. fold s' in Hupd. destruct Hupd as [_ Hupd].
  rewrite Epsi, Edpsi, Ephi, Edphi in Hupd.
  change (@sleb float scalar) with PrimFloat.leb in Hupd.
  rewrite leb_nan_l, andb_false_r in Hupd.
  assert (forall Iv a, updateIntervalMT Iv a nan nan = (true, Iv)) as Hnan.
  { intros Iv a. unfold updateIntervalMT.
    change (@sltb float scalar) with PrimFloat.ltb.
    change (@smul float scalar) with PrimFloat.mul.
    rewrite IEEEFacts.mul_nan_l, !ltb_nan_r, ltb_nan_l. reflexivity. }
  rewrite !Hnan in Hupd.
  assert ((mt_interval_converged s', mt_I s') = (true, mt_I s)) as Hpair
    by (destruct (mt_open_interval s'); exact Hupd).
  injection Hpair as Hc HI.
  split; [exact Hc|]. split; [exact HI|].
  unfold MT_continue. rewrite Hc. reflexivity.
Qed.

End LineSearchIEEE.

Section LineSearchIEEEExample.
Import IEEE IEEEOrder.
Local Open Scope float_scope.

(** The bounds of the default configuration, on the parabola. *)
Lemma computeStepLengthMT_clamped_witness :
  (0.05 <=? 0.1) = true
  /\ exists a dir,
       computeStepLengthMT Fixture.parabola_score (mkV3 0 0 0) (mkV3 1 0 0) 1
         0.1 0.05 Fixture.empty_grid
         (Fixture.parabola_score Example.param Fixture.empty_grid (mkV3 0 0 0)
            Fixture.empty_grid true)
         Fixture.empty_grid Example.param = Some (a, dir)
       /\ (a = 0 \/ nan_or_within 0.05 0.1 a).
Proof.
  assert ((0.05 <=? 0.1) = true) as Hle by reflexivity.
  split; [exact Hle|].
  pose proof (computeStepLengthMT_clamped Fixture.parabola_score (mkV3 0 0 0)
                (mkV3 1 0 0) 1 0.1 0.05 Fixture.empty_grid
                (Fixture.parabola_score Example.param Fixture.empty_grid
                   (mkV3 0 0 0) Fixture.empty_grid true)
                Fixture.empty_grid Example.param Hle) as Hthm.
  destruct (computeStepLengthMT _ _ _ _ _ _ _ _ _ _) as [[a dir]|];
    [|destruct Hthm].
  exists a, dir. split; [reflexivity|exact Hthm].
Defined.

(** A score that is NaN everywhere, and the locals before a first
    iteration. *)
Definition nan_score (_ : FittingParams float)
    (_ : VoxelGridCovariance float) (_ : V3 float)
    (_ : VoxelGridCovariance float) (_ : bool) : ScoreAndDerivatives float :=
  mkScore m3zero (mkV3 nan nan nan) nan.
Definition first_locals : MTLocals :=
  mkMT (mkInterval 0 0 0 0 0 0) 1 0 0 0 0 false true 0.

Lemma MT_body_nan_score_witness :
  let s' :=
    MT_body nan_score (mkV3 0 0 0) (mkV3 1 0 0) 0.1 0.05 1 (-1)
      Fixture.empty_grid Fixture.empty_grid Example.param first_locals in
  mt_interval_converged first_locals = false
  /\ mt_interval_converged s' = true
  /\ MT_continue (-1) s' = false.
Proof.
  intros s'. split; [reflexivity|].
  pose proof (MT_body_nan_score nan_score (mkV3 0 0 0) (mkV3 1 0 0) 0.1 0.05 1
                (-1) Fixture.empty_grid Fixture.empty_grid Example.param
                first_locals eq_refl eq_refl) as (Hc & _ & Hexit).
  split; [exact Hc|exact Hexit].
Defined.

End LineSearchIEEEExample.

(* ================================================================== *)
(** * What [computeSingleGrid] and [computeTransformation] leave *)
(* ================================================================== *)

Section SingleGridOutcome.
Context {T : Type} `{Scalar T} `{Libm T} `{EigenOps T} `{PclOps T}.
Variable calcScore_v :
  FittingParams T -> VoxelGridCovariance T -> V3 T -> VoxelGridCovariance T ->
  bool -> ScoreAndDerivatives T.
Variable computeStepLengthMT_v :
  V3 T -> V3 T -> T -> T -> T -> VoxelGridCovariance T ->
  ScoreAndDerivatives T -> VoxelGridCovariance T -> FittingParams T ->
  option (T * V3 T).
Variables (source_grid target_grid : VoxelGridCovariance T).
Variable param : FittingParams T.
Local Open Scope scalar_scope.

Local Abbreviation body := (newton_body calcScore_v computeStepLengthMT_v).
Local Abbreviation while := (newton_while calcScore_v computeStepLengthMT_v).





End SingleGridOutcome.

Section SingleGridOutcomeExample.
Import IEEE.
#[local] Existing Instance Fixture.libm.
#[local] Existing Instance Fixture.eigen.
#[local] Existing Instance Fixture.pcl.
Local Open Scope float_scope.

(** A score on poses with its maximum at (1, 0, 0) for the examples:
    [value(x) = -(x0 - 1)^2 - x1^2 - x2^2] with its gradient and its
    Hessian [-2 I]. *)
Definition bowl_score (_ : FittingParams float)
    (_ : VoxelGridCovariance float) (x : V3 float)
    (_ : VoxelGridCovariance float) (_ : bool) : ScoreAndDerivatives float :=
  let r := c0 x - 1 in
  mkScore (mkV3 (mkV3 (-2) 0 0) (mkV3 0 (-2) 0) (mkV3 0 0 (-2)))
          (mkV3 (-2 * r) (-2 * c1 x) (-2 * c2 x))
          (- (r * r) - c1 x * c1 x - c2 x * c2 x).


End SingleGridOutcomeExample.

Section ScheduleOutcome.
Context {T : Type} `{Scalar T} `{Libm T} `{EigenOps T} `{PclOps T}.
Variable calcScore_v :
  FittingParams T -> VoxelGridCovariance T -> V3 T -> VoxelGridCovariance T ->
  bool -> ScoreAndDerivatives T.

Local Abbreviation single_grid :=
  (computeSingleGrid calcScore_v (computeStepLengthMT calcScore_v)).

(** The members that the schedule reads. *)
Definition same_schedule (this this' : D2D T) : Prop :=
  input_ this' = input_ this /\ target_ this' = target_ this
  /\ cell_sizes_ this' = cell_sizes_ this /\ params_ this' = params_ this.

Lemma resolutions_for_outcome fuel : forall i this trans,
  length (params_ this) = length (cell_sizes_ this) ->
  (length (cell_sizes_ this) <= i + fuel)%nat ->
  match resolutions_for single_grid fuel i this trans with
  | None => False
  | Some (ResolutionFailed this' _) =>
      same_schedule this this' /\ cell_sizes_ this <> []
  | Some (AllResolutionsDone this' trans') =>
      same_schedule this this'
      /\ ((length (cell_sizes_ this) <= i)%nat -> trans' = trans)
  end.
Proof.
  induction fuel as [|fuel IH]; intros i this trans Hlen Hfuel;
    cbn [resolutions_for];
    destruct (nth_error (cell_sizes_ this) i) as [cell_size|] eqn:Ecs.
  - assert (i < length (cell_sizes_ this))%nat
      by (apply nth_error_Some; congruence).
    lia.
  - split; [repeat split|]. reflexivity.
  - assert (i < length (cell_sizes_ this))%nat as Hi
      by (apply nth_error_Some; congruence).
    destruct (nth_error (params_ this) i) as [param|] eqn:Epa;
      [|apply nth_error_None in Epa; lia].
    pose proof (computeSingleGrid_total calcScore_v
                  (computeStepLengthMT calcScore_v)
                  (voxelize cell_size (input_ this))
                  (voxelize cell_size (target_ this)) param this trans trans
                  (fun x d a b c sg sc tg pa =>
                     computeStepLengthMT_total calcScore_v x d a b c sg sc tg
                       pa)) as Htotal.
    destruct (single_grid _ _ _ _ _ _) as [[[[] trans1] this1]|] eqn:Es;
      [| |congruence].
    + apply computeSingleGrid_true_frame in Es as (Hin & Hcs & Hpa & Htg).
      specialize (IH (S i) this1 trans1).
      rewrite Hcs, Hpa in IH. specialize (IH Hlen ltac:(lia)).
      destruct (resolutions_for _ fuel (S i) this1 trans1)
        as [[this' tr'|this' tr']|]; [| |exact IH].
      * destruct IH as ((Hin' & Htg' & Hcs' & Hpa') & Hne).
        split; [|exact Hne]. repeat split; congruence.
      * destruct IH as ((Hin' & Htg' & Hcs' & Hpa') & _).
        split; [repeat split; congruence|]. intros Hle. lia.
    + apply computeSingleGrid_false_frame in Es
        as (_ & _ & Hin & Hcs & Hpa & Htg).
      split; [repeat split; assumption|].
      intros Hnil. rewrite Hnil in Hi. cbn in Hi. lia.
  - split; [repeat split|]. reflexivity.
Qed.

(** What [computeTransformation] leaves for an object whose parameter
    sets are as many as its cell sizes (the configuration calls keep it
    so).  It returns, reading no [params_[i]] out of range; the clouds,
    the cell sizes and the parameter sets are untouched.  When it reports
    convergence the output is the input cloud under
    [final_transformation_]; when it does not, the output is as it was.
    With no cell size at all it reports convergence at once, with the
    guess as the final transformation. *)
Theorem computeTransformation_outcome (this : D2D T) (output : PointCloud T)
    (guess : Mat4 T) :
  length (params_ this) = length (cell_sizes_ this) ->
  match computeTransformation single_grid this output guess with
  | None => False
  | Some (this', output') =>
      same_schedule this this'
      /\ (if converged_ this' then
            output'
            = transformPointCloud (input_ this) (final_transformation_ this')
          else output' = output /\ cell_sizes_ this <> [])
      /\ (cell_sizes_ this = [] ->
          converged_ this' = true /\ final_transformation_ this' = guess)
  end.
Proof.
  intros Hlen. unfold computeTransformation.
  pose proof (resolutions_for_outcome (length (cell_sizes_ this)) 0 this guess
                Hlen ltac:(lia)) as Hout.
  destruct (resolutions_for _ _ 0 this guess) as [[this' tr'|this' tr']|];
    [| |exact Hout].
  - destruct Hout as (Hsame & Hne).
    split; [exact Hsame|]. cbn [converged_ set_converged_].
    split; [split; [reflexivity|exact Hne]|]. intros Hnil. contradiction.
  - destruct Hout as ((Hin & Htg & Hcs & Hpa) & Htr).
    split; [repeat split; assumption|].
    cbn [converged_ final_transformation_ set_converged_
         set_final_transformation_].
    split; [rewrite Hin; reflexivity|].
    intros Hnil. split; [reflexivity|]. apply Htr. rewrite Hnil. cbn. lia.
Qed.

End ScheduleOutcome.

Section ScheduleOutcomeExample.
Import IEEE.
#[local] Existing Instance Fixture.libm.
#[local] Existing Instance Fixture.eigen.
#[local] Existing Instance Fixture.pcl.
Local Open Scope float_scope.

(** The four resolutions of the default configuration, each climbing the
    bowl from where the one before stopped. *)
Lemma computeTransformation_outcome_witness :
  length (params_ Example.d2d) = length (cell_sizes_ Example.d2d)
  /\ match
       computeTransformation
         (computeSingleGrid bowl_score (computeStepLengthMT bowl_score))
         Example.d2d [] m4identity
     with
     | Some (this', output') =>
         converged_ this' = true
         /\ output'
            = transformPointCloud Example.cloud (final_transformation_ this')
         /\ cell_sizes_ this' = cell_sizes_ Example.d2d
     | None => False
     end.
Proof.
  assert (length (params_ Example.d2d) = length (cell_sizes_ Example.d2d))
    as Hlen by reflexivity.
  split; [exact Hlen|].
  pose proof (computeTransformation_outcome bowl_score Example.d2d []
                m4identity Hlen) as Hthm.
  destruct (computeTransformation _ _ _ _) as [[this' output']|] eqn:Erun;
    [|exact Hthm].
  destruct Hthm as ((_ & _ & Hcs & _) & Hout & _).
  destruct (converged_ this') eqn:Ec.
  - split; [reflexivity|]. split; [exact Hout|exact Hcs].
  - exfalso. vm_compute in Erun. injection Erun as Ethis _.
    rewrite <- Ethis in Ec. discriminate Ec.
Defined.

End ScheduleOutcomeExample.

(* ================================================================== *)
(** * The pose matrices in exact arithmetic *)
(* ================================================================== *)

Section PoseMatrixExact.
Import Exact.
Local Open Scope R_scope.

(** The squared distance of two points. *)
Definition dist2 (a b : V3 R) : R := dot3 (v3sub a b) (v3sub a b).

(** The matrix that [vecToMat] builds is a rigid motion of the plane, at
    both precisions and for every pose vector: its linear part is a proper
    rotation, its last row is (0, 0, 0, 1), and as the transform of
    [calcScore] it keeps the distance of any two points and the height of
    every point. *)
Theorem vecToMat_rigid (p : Precision) (pose : V3 R) :
  proper_rotation (m4linear (vecToMat p pose))
  /\ d3 (vecToMat p pose) = mkV4 0 0 0 1
  /\ (forall a b,
         dist2 (transform_point (vecToMat p pose) a)
               (transform_point (vecToMat p pose) b) = dist2 a b)
  /\ (forall a, c2 (transform_point (vecToMat p pose) a) = c2 a).
Proof.
  destruct pose as [x y theta]. rewrite vecToMat_exact.
  split; [apply rigid_motion_rotation|]. split; [reflexivity|].
  pose proof (sin2_cos2 theta) as Hsc. unfold Rsqr in Hsc.
  split.
  - intros [a0 a1 a2] [b0 b1 b2].
    unfold dist2, transform_point, rigid_motion, m4linear, m4translation,
      m3mulv, v3add, v3sub, v3zip, v3map, dot3.
    cbn [c0 c1 c2 d0 d1 d2 d3 sadd ssub smul scalar].
    transitivity
      ((sin theta * sin theta + cos theta * cos theta)
       * ((a0 - b0) * (a0 - b0) + (a1 - b1) * (a1 - b1))
       + (a2 - b2) * (a2 - b2)); [ring|].
    rewrite Hsc. ring.
  - intros [a0 a1 a2].
    unfold transform_point, rigid_motion, m4linear, m4translation, m3mulv,
      v3add, v3zip, v3map, dot3.
    cbn [c0 c1 c2 d0 d1 d2 d3 sadd ssub smul scalar]. ring.
Qed.

(** [atan2] gives an angle with the sine and the cosine it was given. *)
Lemma sin_cos_atan2 (s c : R) :
  s * s + c * c = 1 -> sin (atan2 s c) = s /\ cos (atan2 s c) = c.
Proof.
  intros Hsc. unfold atan2.
  assert (forall d, 0 < d -> d * d = c * c ->
            sqrt (1 + (s / c)²) = / d) as Hsqrt.
  { intros d Hd Hdc.
    assert (c <> 0) as Hc0 by (intros ->; nra).
    assert (1 + (s / c)² = / d * / d) as ->.
    { unfold Rsqr. transitivity ((s * s + c * c) / (c * c)); [field; exact Hc0|].
      rewrite Hsc, <- Hdc. field. lra. }
    apply sqrt_square. left. apply Rinv_0_lt_compat. exact Hd. }
  destruct (Rlt_dec 0 c) as [Hpos|Hnpos].
  - rewrite sin_atan, cos_atan, (Hsqrt c Hpos eq_refl).
    split; field; lra.
  - destruct (Rlt_dec c 0) as [Hneg|Hnneg].
    + assert (sqrt (1 + (s / c)²) = / (- c)) as Hs
        by (apply Hsqrt; [lra|ring]).
      destruct (Rle_dec 0 s).
      * rewrite neg_sin, neg_cos, sin_atan, cos_atan, Hs.
        split; field; lra.
      * unfold Rminus. rewrite sin_plus, cos_plus, sin_neg, cos_neg.
        rewrite sin_PI, cos_PI, sin_atan, cos_atan, Hs.
        split; field; lra.
    + assert (c = 0) as -> by lra.
      assert (s * s = 1) as Hs1 by lra.
      destruct (Rlt_dec 0 s) as [Hs|Hs].
      * assert (s = 1) as -> by nra. rewrite sin_PI2, cos_PI2. split; ring.
      * destruct (Rlt_dec s 0) as [Hs'|Hs'].
        -- assert (s = -1) as -> by nra.
           rewrite sin_neg, cos_neg, sin_PI2, cos_PI2. split; ring.
        -- exfalso. assert (s = 0) by lra. subst s. lra.
Qed.

(** The other round trip, on matrices: with Eigen's [rotation()]
    returning the linear part of a rigid transform, [vecToMat] after
    [matToVec] gives back every matrix of a planar rigid motion, for every
    angle [theta]; ([matToVec] after [vecToMat] gives back [theta] only
    inside (-pi, pi].) *)
Theorem vecToMat_matToVec (E : EigenOps R) (p : Precision) (x y theta : R) :
  (forall M, proper_rotation M -> e_rotation M = M /\ e_rotationf M = M) ->
  vecToMat p (matToVec p (rigid_motion x y theta)) = rigid_motion x y theta
  /\ vecToMat p (matToVec p (vecToMat p (mkV3 x y theta)))
     = vecToMat p (mkV3 x y theta).
Proof.
  intros Hrot.
  assert (vecToMat p (matToVec p (rigid_motion x y theta))
          = rigid_motion x y theta) as Hround.
  { unfold matToVec.
    destruct (Hrot _ (rigid_motion_rotation x y theta)) as [Hd Hf].
    assert (rotation_at p (m4linear (rigid_motion x y theta))
            = m4linear (rigid_motion x y theta)) as ->
      by (destruct p; assumption).
    replace (atan2_at p) with atan2 by (destruct p; reflexivity).
    cbn [m4translation m4linear rigid_motion m3get v3get c0 c1 c2 d0 d1 d2 d3].
    rewrite vecToMat_exact. unfold rigid_motion.
    pose proof (sin2_cos2 theta) as Hsc. unfold Rsqr in Hsc.
    destruct (sin_cos_atan2 (sin theta) (cos theta) Hsc) as [-> ->].
    reflexivity. }
  split; [exact Hround|]. rewrite vecToMat_exact. exact Hround.
Qed.

(** The pose (1, 2, 3 pi): an angle outside (-pi, pi]. *)
Lemma vecToMat_matToVec_witness :
  (forall M : Mat3 R,
      proper_rotation M ->
      @e_rotation R eigen_stand_in M = M /\ @e_rotationf R eigen_stand_in M = M)
  /\ vecToMat Float
       (@matToVec R libm eigen_stand_in Float (rigid_motion 1 2 (3 * PI)))
     = rigid_motion 1 2 (3 * PI).
Proof.
  assert (forall M : Mat3 R,
             proper_rotation M ->
             @e_rotation R eigen_stand_in M = M
             /\ @e_rotationf R eigen_stand_in M = M) as Hrot
    by (intros M _; split; reflexivity).
  split; [exact Hrot|].
  exact (proj1 (vecToMat_matToVec eigen_stand_in Float 1 2 (3 * PI) Hrot)).
Defined.

End PoseMatrixExact.

(* ================================================================== *)
(** * What the robust wrapper leaves *)
(* ================================================================== *)

Section RobustOutcome.
Context {T C : Type} `{Scalar T} `{Libm T} `{PclOps T}.
Context {d2d_ops : RegistrationOps T (D2D T)} {corr_ops : RegistrationOps T C}.
Local Open Scope scalar_scope.
Implicit Type this : D2DRobust T C.

(** Whatever the collaborators and the validator answer (a NaN score
    included): a [computeTransformation] that leaves [converged_] false
    leaves the identity as the final transformation, and one that leaves
    it true has written the input cloud under the final transformation to
    the output; the clouds, the validator's cell size, the iteration bound
    and [trans_probability_] (which only the constructor ever writes) are
    untouched. *)
Theorem Robust_computeTransformation_outcome this (output : PointCloud T)
    (guess first_trans : Mat4 T) :
  let result := Robust_computeTransformation this output guess first_trans in
  (r_converged_ (fst result) = false ->
   r_final_transformation_ (fst result) = m4identity)
  /\ (r_converged_ (fst result) = true ->
      snd result
      = transformPointCloud (r_input_ this)
          (r_final_transformation_ (fst result)))
  /\ (r_input_ (fst result) = r_input_ this
      /\ r_target_ (fst result) = r_target_ this
      /\ cell_size_ (fst result) = cell_size_ this
      /\ r_max_iterations_ (fst result) = r_max_iterations_ this
      /\ r_trans_probability_ (fst result) = r_trans_probability_ this).
Proof.
  intros result. subst result. unfold Robust_computeTransformation.
  destruct (align (d2d_ this) output guess) as [d2d1 out1].
  cbn [d2d_ set_d2d_].
  destruct (negb _).
  - destruct (align (corr_est_ (set_d2d_ d2d1 this)) out1 guess) as [corr out2].
    cbn [corr_est_ set_corr_est_ d2d_ set_d2d_].
    destruct (negb (hasConverged corr)).
    + cbn. split; [reflexivity|]. split; [discriminate|]. repeat split.
    + destruct (align d2d1 out2 (getFinalTransformation corr)) as [d2d2 out3].
      cbn [d2d_ set_d2d_].
      destruct (negb (hasConverged d2d2)).
      * cbn. split; [reflexivity|]. split; [discriminate|]. repeat split.
      * cbv beta iota. destruct (_ <? _); [destruct (_ <? _)|]; cbn;
          (split; [first [reflexivity|discriminate]|]);
          (split; [first [reflexivity|discriminate]|]); repeat split.
  - cbv beta iota. destruct (_ <? _); [destruct (_ <? _)|]; cbn;
      (split; [first [reflexivity|discriminate]|]);
      (split; [first [reflexivity|discriminate]|]); repeat split.
Qed.

End RobustOutcome.

Section RobustIEEE.
Import IEEE IEEEOrder.
Context {C : Type} `{Libm float} `{PclOps float}.
Context {d2d_ops : RegistrationOps float (D2D float)}.
Context {corr_ops : RegistrationOps float C}.
Local Open Scope float_scope.
Implicit Type this : D2DRobust float C.

(** The local [first_trans] is assigned only on the robust branch, and
    read only when the second score is below 0.4 and the first above 0.6.
    In IEEE arithmetic it is never read before it is assigned: when the
    robust branch is skipped the second score is the first one again,
    above 0.7, so not below 0.4.  The result does not depend on the
    indeterminate initial value. *)
Theorem Robust_first_trans_never_read_unset this (output : PointCloud float)
    (guess first_trans first_trans' : Mat4 float) :
  Robust_computeTransformation this output guess first_trans
  = Robust_computeTransformation this output guess first_trans'.
Proof.
  unfold Robust_computeTransformation.
  destruct (align (d2d_ this) output guess) as [d2d1 out1].
  cbn [d2d_ set_d2d_].
  destruct (hasConverged d2d1 && _) eqn:Edirect; cbn [negb];
    [|reflexivity].
  apply andb_true_iff in Edirect as [_ Hs1].
  change (@sltb float scalar) with PrimFloat.ltb in *.
  change (lit 7 10 : float) with 0.7 in Hs1.
  change (lit 4 10 : float) with 0.4.
  cbv beta iota. cbn [d2d_ set_d2d_].
  rewrite (IEEEFacts.above_07_not_below_04 _ Hs1). reflexivity.
Qed.

(** A validator that answers NaN never rejects: with a NaN score the
    direct run is not accepted at once ([score > 0.7] is false), and after
    a converged correlative seed and a converged second run the test
    [score2 < 0.4] is false too, so the second run is accepted with
    [converged_] true. *)
Theorem Robust_nan_validator this (output : PointCloud float)
    (guess first_trans : Mat4 float) :
  (forall target cell_size half cloud,
      lut_getScore target cell_size half cloud = nan) ->
  let first_run := align (d2d_ this) output guess in
  let seed := align (corr_est_ this) (snd first_run) guess in
  let second_run :=
    align (fst first_run) (snd seed) (getFinalTransformation (fst seed)) in
  let result := Robust_computeTransformation this output guess first_trans in
  r_converged_ (fst result)
  = hasConverged (fst seed) && hasConverged (fst second_run)
  /\ corr_est_ (fst result) = fst seed
  /\ (r_converged_ (fst result) = true ->
      d2d_ (fst result) = fst second_run
      /\ r_final_transformation_ (fst result)
         = getFinalTransformation (fst second_run)).
Proof.
  intros Hnan. cbv zeta. unfold Robust_computeTransformation, proofTransform.
  destruct (align (d2d_ this) output guess) as [d2d1 out1].
  cbn [d2d_ set_d2d_ corr_est_ r_input_ r_target_ cell_size_ fst snd].
  rewrite !Hnan.
  change (@sltb float scalar) with PrimFloat.ltb.
  rewrite ltb_nan_r, andb_false_r. cbn [negb].
  destruct (align (corr_est_ this) out1 guess) as [corr out2].
  cbn [corr_est_ set_corr_est_ d2d_ set_d2d_ fst snd].
  destruct (align d2d1 out2 (getFinalTransformation corr)) as [d2d2 out3].
  cbn [corr_est_ set_corr_est_ d2d_ set_d2d_ fst snd].
  destruct (hasConverged corr); cbn [negb andb];
    [|cbn; split; [reflexivity|]; split; [reflexivity|discriminate]].
  destruct (hasConverged d2d2); cbn [negb andb];
    [|cbn; split; [reflexivity|]; split; [reflexivity|discriminate]].
  cbv beta iota. rewrite !Hnan, ltb_nan_l. cbn.
  split; [reflexivity|]. split; [reflexivity|]. intros _. split; reflexivity.
Qed.

End RobustIEEE.

Section RobustIEEEExample.
Import IEEE.
#[local] Existing Instance Fixture.libm.
Local Open Scope float_scope.

(** A validator that answers NaN, a D2D collaborator that converges to
    its guess, and a correlative estimator that reports what it holds. *)
Definition nan_validator : PclOps float := {|
  voxelize := fun _ _ => mkGrid [] (fun _ _ => []);
  transformPointCloud := fun cloud M =>
    map (fun pt => v3map snarrow (transform_point M pt)) cloud;
  lut_getScore := fun _ _ _ _ => nan
|}.
Definition accepting_registration : RegistrationOps float (D2D float) := {|
  align := fun d2d output guess =>
    (set_converged_ true (set_final_transformation_ guess d2d), output);
  hasConverged := converged_;
  getFinalTransformation := final_transformation_
|}.
Definition seeded_robust : D2DRobust float (bool * Mat4 float) :=
  mkRobust Example.cloud Example.cloud 10 false m4identity Example.d2d
    (true, translated_guess) 0.25 0.

#[local] Existing Instance nan_validator.
#[local] Existing Instance accepting_registration.
#[local] Existing Instance corr_registration.

Lemma Robust_nan_validator_witness :
  let result :=
    Robust_computeTransformation seeded_robust [] m4identity m4identity in
  (forall target cell_size half cloud,
      lut_getScore target cell_size half cloud = nan)
  /\ r_converged_ (fst result) = true
  /\ r_final_transformation_ (fst result) = translated_guess.
Proof.
  intros result.
  assert (forall target cell_size half cloud,
             lut_getScore target cell_size half cloud = nan) as Hnan
    by (intros; reflexivity).
  split; [exact Hnan|].
  pose proof (Robust_nan_validator seeded_robust [] m4identity m4identity Hnan)
    as (Hconv & _ & Hfinal).
  fold result in Hconv, Hfinal.
  split; [exact Hconv|]. destruct (Hfinal Hconv) as [_ Hf]. exact Hf.
Defined.

End RobustIEEEExample.

(* ================================================================== *)
(** * The accessors, and the configuration of the robust wrapper *)
(* ================================================================== *)

Section Accessors.
Context {T C : Type} `{Scalar T} `{Libm T}.

(** The accessors of [D2DNormalDistributionsTransform2D]. *)
Definition getNumLayers (this : D2D T) : Z := layer_count_ this.
Definition getStepSize (this : D2D T) : T := step_size_ this.
Definition getOulierRatio (this : D2D T) : T := outlier_ratio_ this.
Definition getTransformationProbability (this : D2D T) : T :=
  trans_probability_ this.
Definition getFinalNumIteration (this : D2D T) : Z := nr_iterations_ this.
Definition getCovariance (this : D2D T) : Mat3 T := covariance_ this.
Definition getInformMatrix (this : D2D T) : Mat3 T := inform_matrix_ this.

(** The members of [D2DNormalDistributionsTransform2DRobust] that forward
    to [d2d_]. *)
Definition Robust_setCellSize (base_size : T) (this : D2DRobust T C)
    : D2DRobust T C :=
  let this := set_d2d_ (setCellSize base_size (d2d_ this)) this in
  set_cell_size_ base_size this.
Definition Robust_getCellSize (this : D2DRobust T C) : T := cell_size_ this.
Definition Robust_getStepSize (this : D2DRobust T C) : T :=
  getStepSize (d2d_ this).
Definition Robust_setStepSize (step_size : T) (this : D2DRobust T C)
    : D2DRobust T C :=
  set_d2d_ (setStepSize step_size (d2d_ this)) this.
Definition Robust_getOulierRatio (this : D2DRobust T C) : T :=
  getOulierRatio (d2d_ this).
Definition Robust_setOulierRatio (outlier_ratio : T) (this : D2DRobust T C)
    : D2DRobust T C :=
  set_d2d_ (setOulierRatio outlier_ratio (d2d_ this)) this.
Definition Robust_getTransformationProbability (this : D2DRobust T C) : T :=
  r_trans_probability_ this.
Definition Robust_getFinalNumIteration (this : D2DRobust T C) : Z :=
  getFinalNumIteration (d2d_ this).
Definition Robust_getCovariance (this : D2DRobust T C) : Mat3 T :=
  getCovariance (d2d_ this).
Definition Robust_getInformMatrix (this : D2DRobust T C) : Mat3 T :=
  getInformMatrix (d2d_ this).

End Accessors.

Section RobustConfigurationExact.
Import Exact.
Context {C : Type}.
Local Open Scope R_scope.

Lemma std_sort_default_sizes :
  std_sort [2; 1; 5 / 10; 25 / 100] = [25 / 100; 5 / 10; 1; 2].
Proof.
  unfold std_sort. cbn [fold_right].
  repeat (cbn [sort_insert sltb scalar];
          match goal with
          | |- context [Rlt_dec ?a ?b] => destruct (Rlt_dec a b); try lra
          end).
  reflexivity.
Qed.

(** The validator of the robust wrapper works at the finest resolution of
    the inner registration, in exact arithmetic: the constructor leaves the
    four sizes 2, 1, 1/2, 1/4 in [d2d_] (the sort and reverse keep the
    order they were given in) with [cell_size_ = 1/4] and the iteration
    bound 10, and [setCellSize(b)] leaves [b 2^3, ..., b] in [d2d_] with
    [cell_size_ = b]; in both cases [cell_size_] is the last and smallest
    size of [d2d_].  [setStepSize] and [setOulierRatio] reach [d2d_] and
    leave [cell_size_] alone. *)
Theorem Robust_validator_at_finest_size (this : D2DRobust R C) (b s r : R) :
  let built := D2DRobust_constructor this in
  let resized := Robust_setCellSize b built in
  (Robust_getCellSize built = 1 / 4
   /\ getCellSizes (d2d_ built) = [2; 1; 1 / 2; 1 / 4]
   /\ last (getCellSizes (d2d_ built)) 0 = Robust_getCellSize built
   /\ max_iterations_ (d2d_ built) = 10%Z
   /\ Robust_getTransformationProbability built = 0)
  /\ (Robust_getCellSize resized = b
      /\ getCellSizes (d2d_ resized) = geometric_sizes b 4
      /\ last (getCellSizes (d2d_ resized)) 0 = Robust_getCellSize resized)
  /\ (Robust_getStepSize (Robust_setStepSize s built) = s
      /\ Robust_getOulierRatio (Robust_setOulierRatio r built) = r
      /\ Robust_getCellSize (Robust_setStepSize s built) = 1 / 4
      /\ Robust_getCellSize (Robust_setOulierRatio r built) = 1 / 4
      /\ getCellSizes (d2d_ (Robust_setOulierRatio r built))
         = getCellSizes (d2d_ built)).
Proof.
  intros built resized.
  set (inner := set_max_iterations_ (r_max_iterations_ this) (d2d_ this)).
  assert (d2d_ built
          = set_max_iterations_ 10
              (setCellSize_vector [2; 1; 5 / 10; 25 / 100] inner))
    as Hd2d by reflexivity.
  assert (cell_size_ built = 25 / 100) as Hcs by reflexivity.
  assert (r_trans_probability_ built = 0) as Htp by reflexivity.
  subst resized. unfold Robust_setCellSize, Robust_getCellSize,
    Robust_getTransformationProbability, Robust_getStepSize,
    Robust_setStepSize, Robust_getOulierRatio, Robust_setOulierRatio,
    getStepSize, getOulierRatio, getCellSizes.
  cbn [d2d_ set_d2d_ cell_size_ set_cell_size_].
  rewrite Hcs, Htp. clear Hcs Htp.
  generalize dependent (d2d_ built). intros d Hd2d. subst d.
  clear built. clearbody inner.
  rewrite setOulierRatio_assigns, setCellSize_assigns;
    rewrite setCellSize_vector_assigns;
    cbn [cell_sizes_ layer_count_ max_iterations_ step_size_ outlier_ratio_
         set_max_iterations_ set_params_ set_cell_sizes_ set_layer_count_
         set_outlier_ratio_ set_step_size_ setStepSize length];
    try (change (Z.of_nat 4) with 4%Z; lia).
  rewrite std_sort_default_sizes. cbn [rev app].
  change (Z.to_nat (Z.of_nat 4)) with 4%nat.
  rewrite layered_sizes_exact.
  assert ([2; 1; 5 / 10; 25 / 100] = [2; 1; 1 / 2; 1 / 4]) as ->
    by (do 2 f_equal; f_equal; [lra|]; f_equal; lra).
  split; [|split].
  - split; [lra|]. split; [reflexivity|]. split; [cbn [last]; lra|].
    split; reflexivity.
  - split; [reflexivity|]. split; [reflexivity|].
    apply geometric_sizes_last. lia.
  - split; [reflexivity|]. split; [reflexivity|].
    split; [lra|]. split; [lra|reflexivity].
Qed.

End RobustConfigurationExact.

(* ================================================================== *)
(** * Registration without overlap, and a pair in perfect alignment *)
(* ================================================================== *)

Section EmptySource.
Import IEEE.
Context `{Libm float} `{EigenOps float} `{PclOps float}.
Variable omp_thread : nat -> nat.
Local Open Scope float_scope.

Lemma calcScore_no_contribution (param : FittingParams float)
    (sourceNDT : VoxelGridCovariance float) (trans : V3 float)
    (targetNDT : VoxelGridCovariance float) (calc_hessian : bool) :
  getLeaves sourceNDT = [] \/ (forall pt, nearestKSearch targetNDT pt 2 = []) ->
  D2D_calcScore omp_thread param sourceNDT trans targetNDT calc_hessian
  = ScoreAndDerivatives_Zero.
Proof.
  intros Hnone. unfold D2D_calcScore.
  apply (calcScore_invariant computeDerivatives calcSourceCellScore omp_thread
           (fun s => s = ScoreAndDerivatives_Zero)).
  - reflexivity.
  - intros a b -> ->. apply zero_score_add.
  - intros cell Hin. destruct Hnone as [Hsrc|Htgt].
    + rewrite Hsrc in Hin. destruct Hin.
    + unfold cell_contributions. rewrite Htgt. constructor.
Qed.

(** A registration without overlap fails at the coarsest resolution.  When
    at the first cell size the source grid has no leaf, or the target grid
    offers no neighbour to any source cell, and the SVD solve of the zero
    system answers the zero vector (its minimum-norm solution), then
    [computeTransformation] returns with [converged_] false, the output
    cloud as it was, [final_transformation_] equal to the guess, no
    iteration counted, the covariance and the information matrix set to
    the identity, and [trans_probability_] equal to 0 divided by the
    number of input points (NaN for an empty input cloud). *)
Theorem computeTransformation_no_overlap (this : D2D float)
    (output : PointCloud float) (guess : Mat4 float)
    (cell_size : float) (sizes : list float)
    (param : FittingParams float) (params : list (FittingParams float)) :
  cell_sizes_ this = cell_size :: sizes ->
  params_ this = param :: params ->
  (forall b, e_svd_solve m3zero b = v3zero) ->
  getLeaves (voxelize cell_size (input_ this)) = []
  \/ (forall pt, nearestKSearch (voxelize cell_size (target_ this)) pt 2 = []) ->
  exists this',
    D2D_computeTransformation omp_thread this output guess
    = Some (this', output)
    /\ converged_ this' = false
    /\ final_transformation_ this' = guess
    /\ nr_iterations_ this' = 0%Z
    /\ covariance_ this' = m3identity /\ inform_matrix_ this' = m3identity
    /\ trans_probability_ this' = 0 / of_Z (Z.of_nat (length (input_ this)))
    /\ cell_sizes_ this' = cell_sizes_ this /\ params_ this' = params_ this.
Proof.
  intros Hsizes Hparams Hsvd Hnone.
  unfold D2D_computeTransformation, computeTransformation.
  rewrite Hsizes. cbn [length resolutions_for]. rewrite Hsizes, Hparams.
  cbn [nth_error].
  set (source_grid := voxelize cell_size (input_ this)) in *.
  set (target_grid := voxelize cell_size (target_ this)) in *.
  pose proof (computeSingleGrid_abort (D2D_calcScore omp_thread)
                (D2D_computeStepLengthMT omp_thread) source_grid target_grid
                param this guess guess 0
                (computeSingleGrid_entry this guess) (matToVec Float guess)
                eq_refl) as Habort.
  cbv zeta in Habort.
  rewrite (calcScore_no_contribution param source_grid (matToVec Float guess)
             target_grid true Hnone) in Habort.
  cbn [hessian_ gradient_ value_ ScoreAndDerivatives_Zero] in Habort.
  rewrite Hsvd in Habort.
  assert (v3norm (v3zero : V3 float) = 0) as Hnorm by reflexivity.
  rewrite Hnorm in Habort. specialize (Habort eq_refl).
  unfold D2D_computeSingleGrid. rewrite Habort.
  eexists. split; [reflexivity|].
  cbn. rewrite Hsizes, Hparams. repeat split.
Qed.

End EmptySource.

Section EmptySourceExample.
Import IEEE.
#[local] Existing Instance Fixture.libm.
#[local] Existing Instance Fixture.eigen.
#[local] Existing Instance Fixture.pcl.
Local Open Scope float_scope.

(** The default object with an empty input cloud. *)
Definition no_input : D2D float :=
  mkD2D [] Example.cloud 0 35 m4identity m4identity m4identity 0.1 false
    [2; 1; 0.5; 0.25] 0.1 0.55
    [Example.param; Example.param; Example.param; Example.param] 0
    m3zero m3zero 4.

Lemma computeTransformation_no_overlap_witness :
  (forall b, e_svd_solve m3zero b = v3zero)
  /\ getLeaves (voxelize 2 (input_ no_input)) = []
  /\ exists this',
       D2D_computeTransformation Example.one_thread no_input [] translated_guess
       = Some (this', [])
       /\ converged_ this' = false
       /\ final_transformation_ this' = translated_guess
       /\ is_nan (trans_probability_ this') = true.
Proof.
  assert (forall b, e_svd_solve m3zero b = v3zero) as Hsvd
    by (intros b; reflexivity).
  assert (getLeaves (voxelize 2 (input_ no_input)) = []) as Hempty
    by reflexivity.
  split; [exact Hsvd|]. split; [exact Hempty|].
  destruct (computeTransformation_no_overlap Example.one_thread no_input []
              translated_guess 2 [1; 0.5; 0.25] Example.param
              [Example.param; Example.param; Example.param] eq_refl eq_refl
              Hsvd (or_introl Hempty))
    as (this' & Hrun & Hconv & Hfinal & _ & _ & _ & Hprob & _).
  exists this'. split; [exact Hrun|]. split; [exact Hconv|].
  split; [exact Hfinal|]. rewrite Hprob. reflexivity.
Defined.

End EmptySourceExample.

Section AlignedPairExact.
Import Exact.
Context {E : EigenOps R}.
Local Open Scope R_scope.

(** A pair in perfect alignment, in exact arithmetic: when the transformed
    source mean is the mean of the target cell and the summed covariance is
    invertible, the pair contributes the value at distance zero,
    [-gauss_d1_], and no gradient, whatever the covariances and the
    derivative kit: a perfect alignment is a stationary point of every
    pair's score. *)
Theorem calcSourceCellScore_aligned_pair (cov_source : Mat3 R)
    (cell_t : Leaf R) (deriv : JacobianHessianDerivatives R)
    (param : FittingParams R) (calc_hessian : bool) :
  snd (e_inverse_check (m3add (getCov cell_t) cov_source)) = true ->
  let res :=
    calcSourceCellScore (getMean cell_t) cov_source cell_t deriv param
      calc_hessian in
  value_ res = - gauss_d1_ param /\ gradient_ res = v3zero.
Proof.
  intros Hex res. subst res. unfold calcSourceCellScore.
  destruct (e_inverse_check _) as [[icov det] exists_]. cbn [snd] in Hex.
  subst exists_. cbn [negb].
  assert (v3sub (getMean cell_t) (getMean cell_t) = mkV3 0 0 0) as ->.
  { destruct (getMean cell_t). unfold v3sub, v3zip. cbn. f_equal; ring. }
  assert (forall M : Mat3 R, v3mulm (mkV3 0 0 0) M = mkV3 0 0 0) as Hrow.
  { intros [[? ? ?] [? ? ?] [? ? ?]]. unfold v3mulm, dot3, m3col, v3map. cbn.
    f_equal; ring. }
  assert (forall v : V3 R, dot3 (mkV3 0 0 0) v = 0) as Hdot.
  { intros [? ? ?]. unfold dot3. cbn. ring. }
  rewrite !Hrow, !Hdot.
  assert ((0 * sofZ 0 =? sofZ 0)%S = true) as ->.
  { cbn [seqb smul sofZ scalar]. rewrite Rmult_0_r.
    destruct (Req_dec_T 0 0); [reflexivity|contradiction]. }
  cbn [negb].
  assert (- gauss_d1_ param * exp (- gauss_d2__half_ param * 0)
          = - gauss_d1_ param) as Hval
    by (rewrite Rmult_0_r, exp_0; ring).
  assert (forall f : R,
             v3add v3zero
               (v3scale_r
                  (v3sub (v3scale (sofZ 2) (mkV3 0 0 0))
                     (v3set 2 0 v3zero)) f) = v3zero) as Hgrad.
  { intros f. unfold v3add, v3sub, v3scale, v3scale_r, v3zip, v3map, v3set,
      v3zero. cbn. f_equal; ring. }
  destruct calc_hessian.
  - destruct (fold_left _ _ _) as [[[? ?] ?] ?].
    cbn [value_ gradient_ hessian_ c_exp libm smul sopp scalar
         ScoreAndDerivatives_Zero].
    split; [exact Hval|apply Hgrad].
  - cbn [value_ gradient_ hessian_ c_exp libm smul sopp scalar
         ScoreAndDerivatives_Zero].
    split; [exact Hval|apply Hgrad].
Qed.

End AlignedPairExact.

Section AlignedPairExample.
Import Exact.
Local Open Scope R_scope.

Lemma cofactor_inverse_identity :
  snd (@cofactor_inverse R scalar m3identity) = true.
Proof.
  unfold cofactor_inverse, m3identity, lit. cbn [snd m3get v3get c0 c1 c2].
  cbn [sltb sabs smul ssub sadd sdiv sofZ scalar].
  match goal with
  | |- (if Rlt_dec ?a ?b then true else false) = true =>
      assert (a < b) as Hlt; [|destruct (Rlt_dec a b); [reflexivity|contradiction]]
  end.
  replace (1 * 1 - 0 * 0) with 1 by ring.
  replace (0 * 0 - 0 * 1) with 0 by ring.
  replace (1 * 1 + 0 * 0 + 0 * 0) with 1 by ring.
  rewrite Rabs_R1.
  apply Rmult_lt_reg_r with (r := 1000000000000); lra.
Qed.

(** A target cell with covariance I against a source cell with covariance
    zero at the same mean. *)
Lemma calcSourceCellScore_aligned_pair_witness :
  let E0 : EigenOps R := eigen_stand_in in
  let cell := mkLeaf (mkV3 1 2 0) m3identity in
  let param := mkFittingParams (-1) 1 (1 / 2) in
  let res :=
    @calcSourceCellScore R scalar libm E0 (mkV3 1 2 0) m3zero cell
      (computeDerivatives (mkV3 1 2 0) m3zero true) param true in
  snd (@e_inverse_check R E0 (m3add (getCov cell) m3zero)) = true
  /\ value_ res = 1 /\ gradient_ res = v3zero.
Proof.
  intros E0 cell param res.
  assert (snd (@e_inverse_check R E0 (m3add (getCov cell) m3zero)) = true)
    as Hex.
  { assert (m3add (getCov cell) m3zero = (m3identity : Mat3 R)) as ->.
    { unfold m3add, v3add, v3zip, m3identity, m3zero, v3zero. cbn.
      repeat f_equal; ring. }
    exact cofactor_inverse_identity. }
  split; [exact Hex|].
  destruct (@calcSourceCellScore_aligned_pair E0 m3zero cell
              (computeDerivatives (mkV3 1 2 0) m3zero true) param true Hex)
    as [Hv Hg].
  split; [|exact Hg].
  transitivity (- gauss_d1_ param); [exact Hv|]. cbn. ring.
Defined.

End AlignedPairExample.

Section IntervalUpdateExact.
Import Exact.
Local Open Scope R_scope.


End IntervalUpdateExact.

Section TrialValueExact.
Import Exact.
Local Open Scope R_scope.

(** Case 2 of [trialValueSelectionMT] in exact arithmetic: when the trial
    step differs from [a_l] and has not raised the function value
    ([f_t <= f_l]) and the derivative changes sign from negative at [a_l]
    to positive at [a_t], the next trial step, the cubic minimiser or the secant step, lies
    strictly between [a_l] and [a_t]: it is [a_l + r (a_t - a_l)] with
    [0 < r < 1], whichever of the two is chosen and whatever [a_u], [f_u]
    and [g_u] are. *)
Theorem trialValueSelectionMT_case2_inside
    (a_l f_l g_l a_u f_u g_u a_t f_t g_t : R) :
  a_t <> a_l -> f_t <= f_l -> g_l < 0 < g_t ->
  exists r, 0 < r < 1
    /\ trialValueSelectionMT a_l f_l g_l a_u f_u g_u a_t f_t g_t
       = a_l + r * (a_t - a_l).
Proof.
  intros _ Hf [Hgl Hgt]. unfold trialValueSelectionMT.
  cbn [sltb sleb sabs ssqrt sadd ssub smul sdiv sofZ scalar].
  destruct (Rlt_dec f_l f_t) as [Hc|_]; [lra|].
  assert (g_t * g_l < 0) as Hprod.
  { replace (g_t * g_l) with (- (g_t * (- g_l))) by ring.
    apply Ropp_lt_gt_0_contravar. apply Rmult_lt_0_compat; lra. }
  destruct (Rlt_dec (g_t * g_l) 0) as [_|Hc]; [|contradiction].
  set (z := 3 * (f_t - f_l) / (a_t - a_l) - g_t - g_l).
  set (w := sqrt (z * z - g_t * g_l)).
  assert (Rabs z < w) as Hw.
  { unfold w. rewrite <- (sqrt_Rsqr_abs z). unfold Rsqr.
    apply sqrt_lt_1; [apply Rle_0_sqr|pose proof (Rle_0_sqr z) as Hz;
                                       unfold Rsqr in Hz; lra|lra]. }
  apply Rabs_def2 in Hw as [Hw1 Hw2].
  assert (0 < g_t - g_l + 2 * w) as Hden by lra.
  assert (0 < (w - g_l - z) / (g_t - g_l + 2 * w) < 1) as Hrc.
  { split.
    - apply Rdiv_lt_0_compat; lra.
    - apply Rmult_lt_reg_r with (r := g_t - g_l + 2 * w); [exact Hden|].
      unfold Rdiv. rewrite Rmult_assoc, Rinv_l by lra. lra. }
  assert (0 < g_l / (g_l - g_t) < 1) as Hrs.
  { replace (g_l / (g_l - g_t)) with ((- g_l) / (g_t - g_l)) by (field; lra).
    split.
    - apply Rdiv_lt_0_compat; lra.
    - apply Rmult_lt_reg_r with (r := g_t - g_l); [lra|].
      unfold Rdiv. rewrite Rmult_assoc, Rinv_l by lra. lra. }
  destruct (Rle_dec _ _).
  - exists ((w - g_l - z) / (g_t - g_l + 2 * w)). split; [exact Hrc|].
    unfold Rdiv. ring.
  - exists (g_l / (g_l - g_t)). split; [exact Hrs|].
    field. lra.
Qed.

(** A derivative that changes from -1 to 1 over the unit interval, at
    equal function values. *)
Lemma trialValueSelectionMT_case2_inside_witness :
  (1 <> 0 /\ 0 <= 0 /\ -1 < 0 < 1)
  /\ exists r, 0 < r < 1
       /\ trialValueSelectionMT 0 0 (-1) 0 0 0 1 0 1 = 0 + r * (1 - 0).
Proof.
  assert (1 <> 0) as Ha by lra.
  assert (0 <= 0) as Hf by lra.
  assert (-1 < 0 < 1) as Hg by lra.
  split; [split; [exact Ha|split; [exact Hf|exact Hg]]|].
  exact (trialValueSelectionMT_case2_inside 0 0 (-1) 0 0 0 1 0 1 Ha Hf Hg).
Defined.

End TrialValueExact.
